(** * Duplicate detection and clustering: a shallow embedding

    This development embeds the duplicate-detection core of the repository,
    [duplicate_detector.py] (class [DuplicateDetector]) and the merge
    recommender of [vector_engine.py]
    ([BigQueryVectorEngine._create_merge_recommendation]), and states the
    properties of the specification about them.  It also embeds the loops
    of [BigQueryVectorEngine.detect_duplicate_products] that call the
    recommender, with the results of the queries as parameters, and states
    further properties of the code.

    Conventions of the embedding.
    - Python [str] is [string]; the text is taken to be ASCII.
    - Python [float] and [int] scores are exact rationals [Q]; a decimal
      literal of the source denotes that decimal.  Equality of scores is
      [Qeq], written [==].
      Rounding is not part of the embedding: where the source rounds a
      sum, a product or a quotient to a binary64 float, the embedding has
      the exact value.
    - A pandas cell that is missing is [NaN]; in a numeric column it is
      [None], and every comparison with it is false, as for a float NaN.
    - The catalog is the one of the data model: every row has a SKU, a cell
      of a text column is a text or is missing, a cell of a numeric column
      is a number or is missing, and a value of a product is [None], a text
      or a number.  What the source does on other objects (a catalog without
      a sku column, a number in a text column, a list as a value of a
      product) is not part of the embedding.
    - A [dict] is an association list in insertion order.  A [set] that is
      only tested for membership or measured is a [gset].  The order in which
      Python iterates over a set is not specified, and may depend on the
      order in which the elements were inserted: a function that iterates
      over a set takes as its first argument [order], and [order l] is the
      sequence in which the set built from the insertions [l] is visited.
      The properties that depend on it assume that [order l] has the
      elements of [l].
    - A function that assigns to its argument returns the new value of the
      argument next to its result; a function that can raise returns an
      [option].  The limits of the interpreter (recursion depth, memory) are
      not part of the embedding. *)

From Stdlib Require Import Ascii String QArith Qminmax Qabs Lqa.
From stdpp Require Import gmap strings list sorting relations pretty.

Local Open Scope string_scope.

(** ** Python strings *)

Module PyStr.

Definition code (c : ascii) : nat := nat_of_ascii c.

Definition between (lo hi : nat) (c : ascii) : bool :=
  (lo <=? code c)%nat && (code c <=? hi)%nat.

Definition is_digit : ascii -> bool := between 48 57.
Definition is_upper : ascii -> bool := between 65 90.
Definition is_lower : ascii -> bool := between 97 122.
Definition is_alpha (c : ascii) : bool := is_upper c || is_lower c.

(** [\w] *)
Definition is_word (c : ascii) : bool :=
  is_alpha c || is_digit c || (code c =? 95)%nat.

(** [str.isspace], which is also [\s]. *)
Definition is_space (c : ascii) : bool :=
  between 9 13 c || between 28 32 c.

Definition lower_char (c : ascii) : ascii :=
  if is_upper c then ascii_of_nat (code c + 32) else c.

(** [s.lower()] *)
Fixpoint lower (s : string) : string :=
  match s with
  | EmptyString => EmptyString
  | String c t => String (lower_char c) (lower t)
  end.

Fixpoint lstrip (s : string) : string :=
  match s with
  | String c t => if is_space c then lstrip t else s
  | EmptyString => EmptyString
  end.

Fixpoint rstrip (s : string) : string :=
  match s with
  | EmptyString => EmptyString
  | String c t =>
      match rstrip t with
      | EmptyString => if is_space c then EmptyString else String c EmptyString
      | t' => String c t'
      end
  end.

(** [s.strip()] *)
Definition strip (s : string) : string := rstrip (lstrip s).

(** [s.split()]: the maximal runs of characters that are not whitespace.
    [cur] is the run being read, in reverse. *)
Fixpoint split_aux (cur : string) (s : string) : list string :=
  match s with
  | EmptyString =>
      match cur with EmptyString => [] | _ => [String.rev cur] end
  | String c t =>
      if is_space c then
        match cur with
        | EmptyString => split_aux EmptyString t
        | _ => String.rev cur :: split_aux EmptyString t
        end
      else split_aux (String c cur) t
  end.

Definition split (s : string) : list string := split_aux EmptyString s.

(** [sep.join(l)] *)
Fixpoint join (sep : string) (l : list string) : string :=
  match l with
  | [] => EmptyString
  | [x] => x
  | x :: t => x ++ sep ++ join sep t
  end.

(** [a in b] for two strings: [a] occurs in [b] as a substring. *)
Fixpoint contains (a b : string) : bool :=
  String.prefix a b
  || match b with
     | EmptyString => false
     | String _ t => contains a t
     end.

(** The truth value of a string: it is not empty. *)
Definition truthy (s : string) : bool :=
  match s with EmptyString => false | _ => true end.

(** [sorted([a, b])] as a pair; the sort is stable. *)
Definition sorted2 (a b : string) : string * string :=
  if String.ltb b a then (b, a) else (a, b).

Fixpoint insert_sorted (x : string) (l : list string) : list string :=
  match l with
  | [] => [x]
  | y :: t => if String.leb x y then x :: l else y :: insert_sorted x t
  end.

(** [sorted(l)] for a list of strings. *)
Definition sorted (l : list string) : list string :=
  foldr insert_sorted [] l.

End PyStr.

(** ** The fragment of Python's [re] that the detector uses *)

Module Re.
Import PyStr.

Inductive regex : Type :=
| Eps
| Chr (p : ascii -> bool)
| Seq (r1 r2 : regex)
| Alt (r1 r2 : regex)
| Star (r : regex)
| Bnd
| Eos
| Grp (n : nat) (r : regex).

Definition Plus (r : regex) : regex := Seq r (Star r).
Definition Opt (r : regex) : regex := Alt r Eps.

Definition chr_eq (c : ascii) : regex := Chr (fun d => Ascii.eqb c d).

(** The same letter in either case, for [re.IGNORECASE]. *)
Definition chr_ci (c : ascii) : regex :=
  Chr (fun d => Ascii.eqb (lower_char c) (lower_char d)).

Fixpoint lit (s : string) : regex :=
  match s with
  | EmptyString => Eps
  | String c EmptyString => chr_eq c
  | String c t => Seq (chr_eq c) (lit t)
  end.

Fixpoint lit_ci (s : string) : regex :=
  match s with
  | EmptyString => Eps
  | String c EmptyString => chr_ci c
  | String c t => Seq (chr_ci c) (lit_ci t)
  end.

Fixpoint alts (l : list regex) : regex :=
  match l with
  | [] => Eps
  | [r] => r
  | r :: t => Alt r (alts t)
  end.

Definition one_of (s : string) : regex :=
  Chr (fun d => existsb (Ascii.eqb d) (list_ascii_of_string s)).

(** The state of a match: the character before the position, the text from
    the position on, and the groups captured so far. *)
Record mstate : Type := MState {
  prev : option ascii;
  rest : string;
  caps : list (nat * string)
}.

Definition word_at (o : option ascii) : bool :=
  match o with Some c => is_word c | None => false end.

Definition next_char (s : string) : option ascii :=
  match s with String c _ => Some c | EmptyString => None end.

Definition consumed (before after : string) : string :=
  String.substring 0 (String.length before - String.length after) before.

(** A backtracking matcher in continuation-passing style: alternatives are
    tried from left to right and a star takes as many repetitions as it
    can. *)
Fixpoint exec (r : regex) (st : mstate) (k : mstate -> option mstate)
  : option mstate :=
  match r with
  | Eps => k st
  | Chr p =>
      match rest st with
      | String c t =>
          if p c then k (MState (Some c) t (caps st)) else None
      | EmptyString => None
      end
  | Seq a b => exec a st (fun st' => exec b st' k)
  | Alt a b =>
      match exec a st k with
      | Some out => Some out
      | None => exec b st k
      end
  | Star a =>
      (fix loop (n : nat) (st : mstate) : option mstate :=
         match n with
         | O => k st
         | S n' =>
             match exec a st (fun st' =>
                     if (String.length (rest st') <? String.length (rest st))%nat
                     then loop n' st' else None) with
             | Some out => Some out
             | None => k st
             end
         end) (String.length (rest st)) st
  | Bnd =>
      if xorb (word_at (prev st)) (word_at (next_char (rest st)))
      then k st else None
  | Eos =>
      match rest st with
      | EmptyString => k st
      | String c EmptyString =>
          if Ascii.eqb c "010"%char then k st else None
      | _ => None
      end
  | Grp n a =>
      exec a st (fun st' =>
        k (MState (prev st') (rest st')
             ((n, consumed (rest st) (rest st')) :: caps st')))
  end.

Definition run (r : regex) (p : option ascii) (s : string) : option mstate :=
  exec r (MState p s []) Some.

(** [re.match(r, s)]: a match at the start of [s]. *)
Definition re_match (r : regex) (s : string) : option mstate :=
  run r None s.

(** [m.group(n)] *)
Definition group (m : mstate) (n : nat) : string :=
  match List.find (fun p => (fst p =? n)%nat) (caps m) with
  | Some p => snd p
  | None => EmptyString
  end.

Fixpoint sub_loop (fuel : nat) (r : regex) (repl : string)
    (p : option ascii) (s : string) : string :=
  match fuel with
  | O => s
  | S fuel' =>
      let step :=
        match s with
        | EmptyString => EmptyString
        | String c t => String c (sub_loop fuel' r repl (Some c) t)
        end in
      match run r p s with
      | Some m =>
          if (String.length (rest m) <? String.length s)%nat
          then repl ++ sub_loop fuel' r repl (prev m) (rest m)
          else repl ++ step
      | None => step
      end
  end.

(** [re.sub(r, repl, s)]: every match, found from left to right, is replaced
    by [repl]. *)
Definition re_sub (r : regex) (repl : string) (s : string) : string :=
  sub_loop (S (String.length s)) r repl None s.

End Re.

(** ** Dictionaries, numbers and data frames *)

Module Py.

Section Dict.
Context {K V : Type} `{EqDecision K}.

(** [d.get(k)] *)
Fixpoint dict_get (d : list (K * V)) (k : K) : option V :=
  match d with
  | [] => None
  | (k', v) :: t => if decide (k' = k) then Some v else dict_get t k
  end.

(** [d[k] = v]: an existing key keeps its place, a new key goes last. *)
Fixpoint dict_set (d : list (K * V)) (k : K) (v : V) : list (K * V) :=
  match d with
  | [] => [(k, v)]
  | (k', v') :: t =>
      if decide (k' = k) then (k, v) :: t else (k', v') :: dict_set t k v
  end.

(** [d.update(e)] *)
Definition dict_update (d e : list (K * V)) : list (K * V) :=
  fold_left (fun acc kv => dict_set acc (fst kv) (snd kv)) e d.

Definition keys (d : list (K * V)) : list K := map fst d.
End Dict.

Section DefaultDict.
Context {K V : Type} `{EqDecision K}.

(** [d[k].append(v)] on a [defaultdict(list)]. *)
Fixpoint dl_append (d : list (K * list V)) (k : K) (v : V)
  : list (K * list V) :=
  match d with
  | [] => [(k, [v])]
  | (k', l) :: t =>
      if decide (k' = k) then (k', (l ++ [v])%list) :: t
      else (k', l) :: dl_append t k v
  end.
End DefaultDict.

(** The index pairs of [for i in range(len(l)): for j in range(i + 1, len(l))],
    in the order of the loops, as pairs of elements. *)
Fixpoint pairs {A : Type} (l : list A) : list (A * A) :=
  match l with
  | [] => []
  | x :: t => (map (pair x) t ++ pairs t)%list
  end.

(** [a < b] on numbers. *)
Definition Qltb (a b : Q) : bool := negb (Qle_bool b a).

(** [max(a, b)] and [min(a, b)]: the first argument unless the second is
    strictly better. *)
Definition max2 (a b : Q) : Q := if Qltb a b then b else a.
Definition min2 (a b : Q) : Q := if Qltb b a then b else a.

(** [max(l)] for a sequence that is not empty (Python raises [ValueError] on
    an empty one; the detector never builds one, see [pair_map_nonempty]). *)
Definition max_of (l : list Q) : Q :=
  match l with
  | [] => 0
  | x :: t => fold_left max2 t x
  end.

Definition digit_value (c : ascii) : Z := Z.of_nat (PyStr.code c - 48).

Fixpoint digits_value (acc : Z) (s : string) : Z :=
  match s with
  | EmptyString => acc
  | String c t => digits_value (10 * acc + digit_value c) t
  end.

Fixpoint split_dot (s : string) : string * string :=
  match s with
  | EmptyString => (EmptyString, EmptyString)
  | String c t =>
      if Ascii.eqb c "."%char then (EmptyString, t)
      else let (a, b) := split_dot t in (String c a, b)
  end.

(** [float(s)] for text of the form [digits] or [digits.digits], which is
    what the first group of the size pattern matches. *)
Definition float_of (s : string) : Q :=
  let (int_part, frac_part) := split_dot s in
  let scale := (10 ^ Z.of_nat (String.length frac_part))%Z in
  Qmake (digits_value 0 int_part * scale + digits_value 0 frac_part)
        (Z.to_pos scale).

(** A cell of a text column. *)
Inductive cell : Type :=
| NaN
| Str (s : string).

#[global] Instance cell_eq_dec : EqDecision cell.
Proof. solve_decision. Defined.

(** [str(c)] *)
Definition py_str (c : cell) : string :=
  match c with
  | NaN => "nan"
  | Str s => s
  end.

(** The truth value of a cell: a NaN is true, a string is true unless it is
    empty. *)
Definition cell_truthy (c : cell) : bool :=
  match c with
  | NaN => true
  | Str s => PyStr.truthy s
  end.

(** [c.notna()] *)
Definition notna (c : cell) : bool :=
  match c with NaN => false | Str _ => true end.

(** [c.fillna(v)] *)
Definition fillna (v : string) (c : cell) : cell :=
  match c with NaN => Str v | Str s => Str s end.

(** A cell read where the code needs a string: on a NaN the string
    operations of the source raise. *)
Definition as_str (c : cell) : option string :=
  match c with NaN => None | Str s => Some s end.

(** A row of the catalog: the SKU, the text columns and the numeric
    columns, by column name. *)
Record Row : Type := mkRow {
  sku : string;
  strs : list (string * cell);
  nums : list (string * option Q)
}.

(** A catalog. Every row is expected to carry the columns listed. *)
Record DataFrame : Type := mkDF {
  columns : list string;
  rows : list Row
}.

(** [row[c]] and [row.get(c)] for a text column of the frame; a cell that
    the row does not list is missing. *)
Definition txt (r : Row) (c : string) : cell :=
  match dict_get (strs r) c with Some v => v | None => NaN end.

(** [row.get(c, 0)] for a numeric column. *)
Definition num (r : Row) (c : string) : option Q :=
  match dict_get (nums r) c with Some v => v | None => Some 0%Q end.

(** [c in df.columns] *)
Definition in_columns (c : string) (df : DataFrame) : bool :=
  bool_decide (c ∈ columns df).

Definition set_txt (r : Row) (c : string) (v : cell) : Row :=
  mkRow (sku r) (dict_set (strs r) c v) (nums r).

(** [df[c] = f(df)]: the column is replaced, or added as the last one. *)
Definition set_column (c : string) (f : Row -> cell) (df : DataFrame)
  : DataFrame :=
  mkDF (if in_columns c df then columns df else (columns df ++ [c])%list)
       (map (fun r => set_txt r c (f r)) (rows df)).

(** [rs.groupby(c)]: one group per value of the column, the groups sorted by
    value, the rows of a group in their order in [rs]. *)
Definition groupby (c : string) (rs : list Row) : list (string * list Row) :=
  let values := omap (fun r => as_str (txt r c)) rs in
  map (fun v => (v, List.filter (fun r => bool_decide (txt r c = Str v)) rs))
      (PyStr.sorted (remove_dups values)).

End Py.

(** ** [duplicate_detector.py] *)

Module Detector.
Import PyStr Re Py.
Local Open Scope Q_scope.

(** A pair of potentially duplicate products. *)
Record DuplicateCandidate : Type := mkCandidate {
  sku1 : string;
  sku2 : string;
  similarity_score : Q;
  matching_attributes : list (string * bool);
  confidence : Q;
  reason : string
}.

(** *** The tables of [__init__] *)

Definition thresholds : list (string * Q) :=
  [("definite_duplicate", 0.95); ("likely_duplicate", 0.90);
   ("possible_duplicate", 0.85); ("similar_product", 0.80)].

Definition attribute_weights : list (string * Q) :=
  [("brand", 0.25); ("model_number", 0.20); ("upc", 0.30); ("ean", 0.30);
   ("size", 0.15); ("color", 0.10); ("material", 0.05); ("price", 0.05)].

Definition brand_variations : list (string * list string) :=
  [("nike", ["nike"; "nike inc"; "nike incorporated"]);
   ("adidas", ["adidas"; "adidas ag"; "adidas originals"]);
   ("apple", ["apple"; "apple inc"; "apple incorporated"]);
   ("samsung", ["samsung"; "samsung electronics"; "samsung group"]);
   ("sony", ["sony"; "sony corporation"; "sony corp"])].

(** [self.attribute_weights.get(k, 0)] *)
Definition weight (k : string) : Q :=
  match dict_get attribute_weights k with Some w => w | None => 0 end.

(** *** The matching rules *)

Definition _match_brand (brand1 brand2 : string) : bool :=
  if String.eqb brand1 brand2 then true
  else if existsb (fun entry =>
            bool_decide (brand1 ∈ snd entry) && bool_decide (brand2 ∈ snd entry))
          brand_variations then true
  else if contains brand1 brand2 || contains brand2 brand1 then true
  else false.

(** The pattern, its parts spaced out:  ( \d+ (?: \. \d+ )? ) \s* ( [a-zA-Z]* )  *)
Definition size_pattern : regex :=
  Seq (Grp 1 (Seq (Plus (Chr is_digit))
                  (Opt (Seq (chr_eq ".") (Plus (Chr is_digit))))))
      (Seq (Star (Chr is_space)) (Grp 2 (Star (Chr is_alpha)))).

Definition conversions : list ((string * string) * Q) :=
  [(("oz", "ml"), 29.5735); (("ml", "oz"), 0.033814);
   (("lb", "kg"), 0.453592); (("kg", "lb"), 2.20462);
   (("in", "cm"), 2.54); (("cm", "in"), 0.393701)].

(** The pair of a magnitude and a lower-cased unit that the size pattern
    reads at the start of a size. *)
Definition parse_size (s : string) : option (Q * string) :=
  match re_match size_pattern s with
  | Some m => Some (float_of (group m 1), lower (group m 2))
  | None => None
  end.

Definition _match_size (size1 size2 : cell) : bool :=
  if negb (cell_truthy size1) || negb (cell_truthy size2) then false
  else if String.eqb (lower (py_str size1)) (lower (py_str size2)) then true
  else
    match parse_size (py_str size1), parse_size (py_str size2) with
    | Some (val1, unit1), Some (val2, unit2) =>
        if String.eqb unit1 unit2 then Qltb (Qabs (val1 - val2)) 0.1
        else
          match dict_get conversions (unit1, unit2) with
          | Some factor =>
              let converted_val1 := val1 * factor in
              Qltb (Qabs (converted_val1 - val2)) 0.1
          | None => false
          end
    | _, _ => false
    end.

Definition _match_price (price1 price2 : option Q) (tolerance : Q) : bool :=
  match price1, price2 with
  | Some p1, Some p2 =>
      if Qeq_bool p1 0 || Qeq_bool p2 0 then false
      else
        let price_diff := Qabs (p1 - p2) / max2 p1 p2 in
        Qle_bool price_diff tolerance
  | _, _ => false
  end.

Definition _calculate_name_similarity (name1 name2 : string) : Q :=
  let words1 : gset string := list_to_set (split (lower name1)) in
  let words2 : gset string := list_to_set (split (lower name2)) in
  if bool_decide (words1 = ∅) || bool_decide (words2 = ∅) then 0
  else
    let intersection := words1 ∩ words2 in
    let union := words1 ∪ words2 in
    inject_Z (Z.of_nat (size intersection)) / inject_Z (Z.of_nat (size union)).

(** *** Strategy 1: embedding similarity (a placeholder in the source) *)

Definition _find_by_embedding_similarity (embeddings_df : DataFrame)
    (threshold : Q) : list DuplicateCandidate := [].

(** *** Strategy 2: exact identifiers *)

Definition identifier_columns : list string :=
  ["upc"; "ean"; "isbn"; "asin"; "model_number"].

Definition identifier_candidate (col identifier : string)
    (p : string * string) : DuplicateCandidate :=
  mkCandidate (fst p) (snd p) 1.0 [(col, true)] 1.0
    ("Exact " ++ col ++ " match: " ++ identifier).

Definition _find_by_identifiers (df : DataFrame) : list DuplicateCandidate :=
  flat_map (fun col =>
    if in_columns col df then
      let grouped :=
        groupby col (List.filter (fun r => notna (txt r col)) (rows df)) in
      flat_map (fun entry =>
        let identifier := fst entry in
        let group := snd entry in
        if (1 <? length group)%nat then
          let skus := map sku group in
          map (identifier_candidate col identifier) (pairs skus)
        else []) grouped
    else []) identifier_columns.

(** *** Strategy 3: fuzzy attributes *)

Definition text_fields : list string :=
  ["brand_name"; "product_name"; "color"; "material"].

(** [df[f'{field}_normalized'] = df[field].fillna('').str.lower().str.strip()] *)
Definition normalize_field (df : DataFrame) (field : string) : DataFrame :=
  if in_columns field df then
    set_column (field ++ "_normalized")
      (fun r => Str (strip (lower (py_str (fillna "" (txt r field)))))) df
  else df.

(** The body of the loop over the pairs of rows: [None] when the source
    raises, [Some None] when the pair is not a candidate. *)
Definition fuzzy_pair (df : DataFrame) (row1 row2 : Row)
  : option (option DuplicateCandidate) :=
  let matches : list (string * bool) := [] in
  let match_score : Q := 0 in
  '(matches, match_score) ←
    (if in_columns "brand_name_normalized" df then
       brand1 ← as_str (txt row1 "brand_name_normalized");
       brand2 ← as_str (txt row2 "brand_name_normalized");
       let brand_match := _match_brand brand1 brand2 in
       Some (dict_set matches "brand" brand_match,
             if brand_match then match_score + weight "brand"
             else match_score)
     else Some (matches, match_score));
  let '(matches, match_score) :=
    if in_columns "size" df then
      let size_match := _match_size (txt row1 "size") (txt row2 "size") in
      (dict_set matches "size" size_match,
       if size_match then match_score + weight "size" else match_score)
    else (matches, match_score) in
  let '(matches, match_score) :=
    if in_columns "price" df then
      let price_match :=
        _match_price (num row1 "price") (num row2 "price") 0.10 in
      (dict_set matches "price" price_match,
       if price_match then match_score + weight "price" else match_score)
    else (matches, match_score) in
  match_score ←
    (if in_columns "product_name_normalized" df then
       name1 ← as_str (txt row1 "product_name_normalized");
       name2 ← as_str (txt row2 "product_name_normalized");
       let name_sim := _calculate_name_similarity name1 name2 in
       Some (if Qltb 0.8 name_sim then match_score + 0.2 else match_score)
     else Some match_score);
  Some (if Qle_bool 0.5 match_score then
          Some (mkCandidate (sku row1) (sku row2) match_score matches
                  match_score "Fuzzy attribute matching")
        else None).

(** The frame after the call, and the candidates unless the source raises. *)
Definition _find_by_fuzzy_attributes (df : DataFrame)
  : DataFrame * option (list DuplicateCandidate) :=
  let df := fold_left normalize_field text_fields df in
  (df,
   found ← mapM (fun p => fuzzy_pair df (fst p) (snd p)) (pairs (rows df));
   Some (omap id found)).

(** *** Strategy 4: SKU and name patterns *)

(** [-_] then one of S, M, L, XL, XXL or digits, at the end; any case. *)
Definition sku_size_suffix : regex :=
  Seq (one_of "-_")
      (Seq (Grp 1 (alts [lit_ci "S"; lit_ci "M"; lit_ci "L"; lit_ci "XL";
                         lit_ci "XXL"; Plus (Chr is_digit)]))
           Eos).

(** [-_] then one of BLACK, WHITE, RED, BLUE, GREEN, at the end; any case. *)
Definition sku_color_suffix : regex :=
  Seq (one_of "-_")
      (Seq (Grp 1 (alts [lit_ci "BLACK"; lit_ci "WHITE"; lit_ci "RED";
                         lit_ci "BLUE"; lit_ci "GREEN"]))
           Eos).

(** The words men(s), women(s), kid(s), boy(s), girl(s). *)
Definition gender_words : regex :=
  Seq Bnd
      (Seq (Grp 1 (alts [Seq (lit "men") (Opt (lit "s"));
                         Seq (lit "women") (Opt (lit "s"));
                         Seq (lit "kid") (Opt (lit "s"));
                         Seq (lit "boy") (Opt (lit "s"));
                         Seq (lit "girl") (Opt (lit "s"))]))
           Bnd).

(** The words small, medium, large, or an optional x or s then x, l or s. *)
Definition size_words : regex :=
  Seq Bnd
      (Seq (Grp 1 (alts [lit "small"; lit "medium"; lit "large";
                         Seq (Opt (one_of "xs")) (one_of "xls")]))
           Bnd).

(** A number, optional spaces and one of the units oz, ml, lb, kg, g. *)
Definition measure_tokens : regex :=
  Seq Bnd
      (Seq (Plus (Chr is_digit))
           (Seq (Opt (Grp 1 (Seq (chr_eq ".") (Plus (Chr is_digit)))))
                (Seq (Star (Chr is_space))
                     (Seq (Grp 2 (alts [lit "oz"; lit "ml"; lit "lb";
                                        lit "kg"; lit "g"]))
                          Bnd)))).

Definition base_pattern (sku : string) : string :=
  re_sub sku_color_suffix "" (re_sub sku_size_suffix "" sku).

Definition clean_name (product_name : cell) : string :=
  let name := lower (py_str product_name) in
  let clean_name := re_sub gender_words "" name in
  let clean_name := re_sub size_words "" clean_name in
  let clean_name := re_sub measure_tokens "" clean_name in
  join " " (split clean_name).

Definition sku_pattern_candidate (pattern : string) (p : Row * Row)
  : DuplicateCandidate :=
  mkCandidate (sku (fst p)) (sku (snd p)) 0.85 [("sku_pattern", true)] 0.85
    ("Similar SKU pattern: " ++ pattern).

Definition name_pattern_candidate (p : Row * Row) : DuplicateCandidate :=
  mkCandidate (sku (fst p)) (sku (snd p)) 0.80 [("name_pattern", true)] 0.80
    "Similar name pattern".

Definition _find_by_patterns (df : DataFrame) : list DuplicateCandidate :=
  let candidates :=
    if in_columns "sku" df then
      let sku_patterns :=
        fold_left (fun d row => dl_append d (base_pattern (sku row)) row)
          (rows df) [] in
      flat_map (fun entry =>
        let pattern := fst entry in
        let products := snd entry in
        if (1 <? length products)%nat then
          map (sku_pattern_candidate pattern) (pairs products)
        else []) sku_patterns
    else [] in
  let candidates' :=
    if in_columns "product_name" df then
      let name_patterns :=
        fold_left (fun d row =>
          let clean_name := clean_name (txt row "product_name") in
          if truthy clean_name then dl_append d clean_name row else d)
          (rows df) [] in
      flat_map (fun entry =>
        let products := snd entry in
        if (1 <? length products)%nat then
          map name_pattern_candidate (pairs products)
        else []) name_patterns
    else [] in
  (candidates ++ candidates')%list.

(** *** Merging the candidates of a pair *)

Definition pair_key (c : DuplicateCandidate) : string * string :=
  sorted2 (sku1 c) (sku2 c).

Definition pair_map (candidates : list DuplicateCandidate)
  : list ((string * string) * list DuplicateCandidate) :=
  fold_left (fun d c => dl_append d (pair_key c) c) candidates [].

(** The body of the loop over [pair_map.items()]. *)
Definition merge_pair (order : list string -> list string)
    (key : string * string) (pair_candidates : list DuplicateCandidate)
  : DuplicateCandidate :=
  let all_matches :=
    fold_left (fun d c => dict_update d (matching_attributes c))
      pair_candidates [] in
  let reasons := map reason pair_candidates in
  let reason_set : gset string := list_to_set reasons in
  let max_similarity := max_of (map similarity_score pair_candidates) in
  let confidence_boost := inject_Z (Z.of_nat (size reason_set)) * 0.1 in
  let final_confidence := min2 (max_similarity + confidence_boost) 1.0 in
  mkCandidate (fst key) (snd key) max_similarity all_matches final_confidence
    (join "; " (order reasons)).

Fixpoint insert_by_confidence (x : DuplicateCandidate)
    (l : list DuplicateCandidate) : list DuplicateCandidate :=
  match l with
  | [] => [x]
  | y :: t =>
      if Qltb (confidence x) (confidence y) then y :: insert_by_confidence x t
      else x :: l
  end.

(** [l.sort(key=lambda x: x.confidence, reverse=True)]: a stable sort, the
    highest confidence first. *)
Definition sort_by_confidence (l : list DuplicateCandidate)
  : list DuplicateCandidate :=
  foldr insert_by_confidence [] l.

Definition _merge_candidates (order : list string -> list string)
    (candidates : list DuplicateCandidate) (products_df : DataFrame)
  : list DuplicateCandidate :=
  let final_candidates :=
    map (fun entry => merge_pair order (fst entry) (snd entry))
      (pair_map candidates) in
  sort_by_confidence final_candidates.

(** *** Grouping by graph connectivity *)

(** [s.add(v)] on the insertions of a set. *)
Definition set_add (s : list string) (v : string) : list string :=
  if bool_decide (v ∈ s) then s else (s ++ [v])%list.

(** [graph[k].add(v)] on a [defaultdict(set)]. *)
Fixpoint graph_add (graph : list (string * list string)) (k v : string)
  : list (string * list string) :=
  match graph with
  | [] => [(k, [v])]
  | (k', s) :: t =>
      if decide (k' = k) then (k', set_add s v) :: t
      else (k', s) :: graph_add t k v
  end.

Definition build_graph (high_confidence : list DuplicateCandidate)
  : list (string * list string) :=
  fold_left (fun graph c =>
      graph_add (graph_add graph (sku1 c) (sku2 c)) (sku2 c) (sku1 c))
    high_confidence [].

(** [graph[node]] for a node of the graph. *)
Definition adjacent (graph : list (string * list string)) (node : string)
  : list string :=
  match dict_get graph node with Some s => s | None => [] end.

(** The recursive [dfs] of the source on the state [(visited, group)] that it
    updates. Every call that goes past its first test adds a node of the
    graph to [visited], so the depth of the recursion is at most the number
    of nodes; [fuel] bounds that depth. *)
Fixpoint dfs (order : list string -> list string)
    (graph : list (string * list string)) (fuel : nat) (node : string)
    (st : gset string * gset string) : gset string * gset string :=
  match fuel with
  | O => st
  | S fuel' =>
      if decide (node ∈ fst st) then st
      else
        fold_left (fun st' neighbor => dfs order graph fuel' neighbor st')
          (order (adjacent graph node))
          (fst st ∪ {[ node ]}, snd st ∪ {[ node ]})
  end.

Definition group_duplicates (order : list string -> list string)
    (candidates : list DuplicateCandidate) (min_confidence : Q)
  : list (gset string) :=
  let high_confidence :=
    List.filter (fun c => Qle_bool min_confidence (confidence c)) candidates in
  let graph := build_graph high_confidence in
  snd (fold_left (fun acc node =>
         let visited := fst acc in
         let groups := snd acc in
         if decide (node ∈ visited) then acc
         else
           let out := dfs order graph (length graph) node (visited, ∅) in
           (fst out, (groups ++ [snd out])%list))
       (keys graph) (∅, [])).

(** *** The pipeline *)

(** The catalog after the call, and the merged candidates unless the source
    raises. The embeddings are only read. *)
Definition detect_duplicates_multi_strategy
    (order : list string -> list string)
    (products_df embeddings_df : DataFrame) (similarity_threshold : Q)
  : DataFrame * option (list DuplicateCandidate) :=
  let candidates := [] in
  let embedding_candidates :=
    _find_by_embedding_similarity embeddings_df similarity_threshold in
  let candidates := (candidates ++ embedding_candidates)%list in
  let identifier_candidates := _find_by_identifiers products_df in
  let candidates := (candidates ++ identifier_candidates)%list in
  let (products_df, attribute_result) :=
    _find_by_fuzzy_attributes products_df in
  (products_df,
   attribute_candidates ← attribute_result;
   let candidates := (candidates ++ attribute_candidates)%list in
   let pattern_candidates := _find_by_patterns products_df in
   let candidates := (candidates ++ pattern_candidates)%list in
   Some (_merge_candidates order candidates products_df)).

End Detector.

(** ** [vector_engine.py]: the merge recommendation *)

Module VectorEngine.
Import PyStr Py.
Local Open Scope Q_scope.

(** A value of a product dictionary, as a row of a query result gives it. *)
Inductive value : Type :=
| VNone
| VStr (s : string)
| VNum (x : Q).

(** [a == b] *)
Definition value_eqb (a b : value) : bool :=
  match a, b with
  | VNone, VNone => true
  | VStr s, VStr t => String.eqb s t
  | VNum x, VNum y => Qeq_bool x y
  | _, _ => false
  end.

Definition is_none (v : value) : bool :=
  match v with VNone => true | _ => false end.

(** [isinstance(v, (int, float))] *)
Definition is_number (v : value) : bool :=
  match v with VNum _ => true | _ => false end.

(** [v is not None and str(v).strip()]: the text of a number is never
    blank. *)
Definition is_filled (v : value) : bool :=
  match v with
  | VNone => false
  | VStr s => truthy (strip s)
  | VNum _ => true
  end.

Definition product : Type := list (string * value).

(** [p.get(key)] *)
Definition get (p : product) (key : string) : value :=
  match dict_get p key with Some v => v | None => VNone end.

(** [l.count(v)] *)
Definition count (l : list value) (v : value) : nat :=
  length (List.filter (value_eqb v) l).

(** [max(l, key=f)] for a sequence that starts with [best]: the first
    element whose key is the largest. *)
Definition max_by (f : value -> nat) (best : value) (l : list value) : value :=
  fold_left (fun b v => if (f b <? f v)%nat then v else b) l best.

(** [np.argmax(l)]: the first index of the largest element; [None] when the
    list is empty, where numpy raises. *)
Fixpoint argmax_from (i best_i best : nat) (l : list nat) : nat :=
  match l with
  | [] => best_i
  | x :: t =>
      if (best <? x)%nat then argmax_from (S i) i x t
      else argmax_from (S i) best_i best t
  end.

Definition argmax (l : list nat) : option nat :=
  match l with
  | [] => None
  | x :: t => Some (argmax_from 1 0 x t)
  end.

(** [sum(l)] of values: [None] when a term is not a number, where the
    addition of the source raises. *)
Fixpoint sum_values (acc : Q) (l : list value) : option Q :=
  match l with
  | [] => Some acc
  | VNum x :: t => sum_values (acc + x) t
  | _ :: _ => None
  end.

Definition numbers (l : list value) : list Q :=
  omap (fun v => match v with VNum x => Some x | _ => None end) l.

(** [np.mean(l)] for a list of numbers that is not empty. *)
Definition mean (l : list Q) : Q :=
  fold_left Qplus l 0 / inject_Z (Z.of_nat (length l)).

Record MergeRecommendation : Type := mkRecommendation {
  primary_sku : value;
  merged_skus : list value;
  total_inventory : Q;
  merged_attributes : list (string * value);
  savings : string
}.

(** The value that the loop over the keys of the primary product stores for
    [key], if it stores one. *)
Definition merged_value (order : list value -> list value)
    (products : list product) (key : string) : option value :=
  let values :=
    List.filter (fun v => negb (is_none v)) (map (fun p => get p key) products) in
  match values with
  | [] => None
  | _ :: _ =>
      if String.eqb key "price" && forallb is_number values then
        Some (VNum (mean (numbers values)))
      else
        match order values with
        | [] => None
        | v :: t => Some (max_by (count values) v t)
        end
  end.

Definition _create_merge_recommendation (order : list value -> list value)
    (products : list product) : option MergeRecommendation :=
  let completeness_scores :=
    map (fun p => length (List.filter is_filled (map snd p))) products in
  primary_idx ← argmax completeness_scores;
  primary_product ← products !! primary_idx;
  total_inventory ←
    sum_values 0
      (map (fun p => match dict_get p "inventory_count" with
                     | Some v => v
                     | None => VNum 0
                     end) products);
  let merged_attributes :=
    fold_left (fun merged key =>
        if bool_decide (key ∉ ["sku"; "inventory_count"]) then
          match merged_value order products key with
          | Some v => dict_set merged key v
          | None => merged
          end
        else merged)
      (keys primary_product) [] in
  primary ← dict_get primary_product "sku";
  skus ← mapM (fun p => dict_get p "sku") products;
  Some (mkRecommendation primary skus total_inventory merged_attributes
          ("$" ++ pretty ((length products - 1) * 50)%nat ++ ".00")).

End VectorEngine.

(** ** [vector_engine.py]: the groups of [detect_duplicate_products] *)

Module DuplicateGroups.
Import PyStr Py VectorEngine.
Local Open Scope Q_scope.

(** A row of the result of the pair query; [row_group_id] is the text
    [str(row.group_id)]. *)
Record PairRow : Type := mkPairRow {
  row_sku1 : string;
  row_sku2 : string;
  row_similarity : Q;
  row_group_id : string
}.

Record DuplicateGroup : Type := mkDuplicateGroup {
  group_id : string;
  products : list product;
  confidence_score : Q;
  merge_recommendation : MergeRecommendation
}.

(** The entry of a group in the dictionary [groups]: the set of its SKUs, as
    the sequence of their insertions, and the list of its similarities. *)
Definition group_data : Type := list string * list Q.

(** What the first loop does to the entry of the group of a row. *)
Definition add_to_group (data : group_data) (row : PairRow) : group_data :=
  (Detector.set_add (Detector.set_add data.1 (row_sku1 row)) (row_sku2 row),
   (data.2 ++ [row_similarity row])%list).

(** The body of the first loop: the entry of the group is created when the
    group is new, as the last one of the dictionary, and then updated. *)
Definition add_row (groups : list (string * group_data)) (row : PairRow)
  : list (string * group_data) :=
  let group_id := row_group_id row in
  let data :=
    match dict_get groups group_id with
    | Some data => data
    | None => ([], [])
    end in
  dict_set groups group_id (add_to_group data row).

(** The second loop, over [groups.items()]. [get_product_details] is the
    query for the products of a list of SKUs: [None] when it fails with a
    [GoogleCloudError], which the function catches to return the empty list.
    The result is [None] when the recommendation raises, which the function
    does not catch. [order] is the order in which [list] reads the set of
    SKUs. *)
Fixpoint build_groups (order : list string -> list string)
    (order_values : list value -> list value)
    (get_product_details : list string -> option (list product))
    (groups : list (string * group_data))
    (duplicate_groups : list DuplicateGroup)
  : option (list DuplicateGroup) :=
  match groups with
  | [] => Some duplicate_groups
  | (group_id, group_data) :: rest =>
      let skus := order group_data.1 in
      match get_product_details skus with
      | None => Some []
      | Some products =>
          merge_rec ← _create_merge_recommendation order_values products;
          build_groups order order_values get_product_details rest
            (duplicate_groups
               ++ [mkDuplicateGroup group_id products (mean group_data.2)
                     merge_rec])%list
      end
  end.

(** [query_result] is the result of the pair query: [None] when the query
    fails with a [GoogleCloudError]. *)
Definition detect_duplicate_products (order : list string -> list string)
    (order_values : list value -> list value)
    (query_result : option (list PairRow))
    (get_product_details : list string -> option (list product))
  : option (list DuplicateGroup) :=
  match query_result with
  | None => Some []
  | Some results =>
      let groups := fold_left add_row results [] in
      build_groups order order_values get_product_details groups []
  end.

End DuplicateGroups.

(** * The vocabulary of the properties *)

Import PyStr Re Py Detector VectorEngine.
Local Open Scope list_scope.

(** The key under which the name loop files a row, if it files it. *)
Definition name_key (row : Row) : option string :=
  let clean := clean_name (txt row "product_name") in
  if truthy clean then Some clean else None.

(** The fields of [text_fields] that are columns of the catalog: the fuzzy
    strategy writes the normalised column of each of them, and of no other
    field. *)
Definition written_fields (df : DataFrame) : list string :=
  List.filter (fun field => in_columns field df) text_fields.

(** The columns that the fuzzy strategy writes on the catalog. *)
Definition written_columns (df : DataFrame) : list string :=
  map (fun field => (field ++ "_normalized")%string) (written_fields df).

(** The cell that the fuzzy strategy stores for a cell of a field: the text
    of the cell, or the empty text if the cell is missing, in lower case and
    stripped. *)
Definition normalized_cell (c : cell) : cell :=
  Str (strip (lower (py_str (fillna "" c)))).

(** [df'] is [df] after the fuzzy strategy has written its columns.  The
    columns of [df'] are the columns of [df], followed by the written
    columns that [df] does not have, in the order of the fields.  The rows
    are the rows of [df] in their order, each with the same SKU and the same
    numeric cells; in a row, the written column of a field holds the
    normalised cell of the field, and every text cell outside the written
    columns is the same. *)
Definition normalized_extension (df df' : DataFrame) : Prop :=
  columns df' =
    columns df
    ++ List.filter (fun c => negb (in_columns c df)) (written_columns df)
  /\ Forall2 (fun r r' =>
        sku r' = sku r /\ nums r' = nums r
        /\ (forall field, field ∈ written_fields df ->
              txt r' (field ++ "_normalized") = normalized_cell (txt r field))
        /\ (forall c, c ∉ written_columns df -> txt r' c = txt r c))
       (rows df) (rows df').

(** The column of a field of the list is neither a field of the list nor the
    column of another field: when the fields are written one after the
    other, a field is read, and its column tested, as in the frame before
    the loop. *)
Definition separate (fields : list string) : Prop :=
  NoDup (map (fun field => (field ++ "_normalized")%string) fields)
  /\ forall f g, f ∈ fields -> g ∈ fields -> (g ++ "_normalized")%string <> f.

(** The order of the merged list: the higher confidence first. *)
Definition by_confidence (a b : DuplicateCandidate) : Prop :=
  (confidence b <= confidence a)%Q.

(** The candidates of [cands] for the pair [k], in their order. *)
Definition group_of (cands : list DuplicateCandidate) (k : string * string)
  : list DuplicateCandidate :=
  List.filter (fun c => bool_decide (pair_key c = k)) cands.

(** The number of distinct reasons of a group. *)
Definition distinct_reasons (group : list DuplicateCandidate) : nat :=
  size (list_to_set (map reason group) : gset string).

(** The assumption on the iteration order of a set of values: it visits
    values that were inserted, and one value for each inserted value, equal
    to it. *)
Definition visits_inserted (order : list value -> list value) : Prop :=
  forall l,
    (forall x, x ∈ order l -> x ∈ l)
    /\ (forall x, x ∈ l -> exists y, y ∈ order l /\ value_eqb x y = true).

(** The values of [key] in the group that are not [None]. *)
Definition values_of (products : list product) (key : string) : list value :=
  List.filter (fun v => negb (is_none v)) (map (fun p => get p key) products).

(** The number of fields of a product that are filled. *)
Definition completeness (p : product) : nat :=
  length (List.filter is_filled (map snd p)).

(** The inventory of a product, 0 when it has no inventory_count. *)
Definition inventory_or_zero (p : product) : value :=
  match dict_get p "inventory_count" with Some v => v | None => VNum 0 end.

(** The first-seen order: each value at the place of its first insertion.
    CPython visits a set of small integers inserted in increasing order in
    this way. *)
Fixpoint first_seen (l : list value) : list value :=
  match l with
  | [] => []
  | v :: t => v :: List.filter (fun w => negb (value_eqb v w)) (first_seen t)
  end.

(** A graph in which the keys are distinct and are the nodes that have a
    neighbour. *)
Definition graph_wf (g : list (string * list string)) : Prop :=
  NoDup (keys g) /\ forall x, x ∈ keys g <-> exists y, y ∈ adjacent g x.

(** The two SKUs of a candidate, in either order. *)
Definition joins (c : DuplicateCandidate) (x y : string) : Prop :=
  (sku1 c = x /\ sku2 c = y) \/ (sku1 c = y /\ sku2 c = x).

(** The candidates that the grouping keeps. *)
Definition high_confidence (cands : list DuplicateCandidate)
    (min_confidence : Q) : list DuplicateCandidate :=
  List.filter (fun c => Qle_bool min_confidence (confidence c)) cands.

(** An edge of the high-confidence graph: a candidate whose confidence reaches
    the threshold joins the two SKUs. *)
Definition surviving_edge (cands : list DuplicateCandidate) (min_confidence : Q)
    (x y : string) : Prop :=
  exists c, c ∈ cands /\ (min_confidence <= confidence c)%Q /\ joins c x y.

(** A chain of surviving edges. *)
Definition linked (cands : list DuplicateCandidate) (min_confidence : Q)
  : relation string :=
  rtc (surviving_edge cands min_confidence).

(** The nodes of a graph and its edges. *)
Definition nodes (graph : list (string * list string)) : gset string :=
  list_to_set (keys graph).

(** [y] is a neighbour of [x]. *)
Definition adj (graph : list (string * list string)) (x y : string) : Prop :=
  y ∈ adjacent graph x.

(** Every visited node outside [P] has all its neighbours visited. *)
Definition closed_except (graph : list (string * list string))
    (P visited : gset string) : Prop :=
  forall x y, x ∈ visited -> x ∉ P -> adj graph x y -> y ∈ visited.

(** The body of the loop over the nodes, on the pair of [visited] and
    [groups]. *)
Definition visit (order : list string -> list string)
    (graph : list (string * list string))
    (acc : gset string * list (gset string)) (node : string)
  : gset string * list (gset string) :=
  if decide (node ∈ acc.1) then acc
  else
    let out := dfs order graph (length graph) node (acc.1, ∅) in
    (out.1, acc.2 ++ [out.2]).

(** What holds of [visited] and [groups] between two turns of the loop. *)
Definition components_so_far (graph : list (string * list string))
    (acc : gset string * list (gset string)) : Prop :=
  closed_except graph ∅ acc.1
  /\ acc.1 ⊆ nodes graph
  /\ (forall x, x ∈ acc.1 <-> exists g, g ∈ acc.2 /\ x ∈ g)
  /\ (forall i j g h x,
        acc.2 !! i = Some g -> acc.2 !! j = Some h -> x ∈ g -> x ∈ h -> i = j)
  /\ (forall g x, g ∈ acc.2 -> x ∈ g ->
        forall y, y ∈ g <-> rtc (adj graph) x y)
  /\ (forall g, g ∈ acc.2 -> exists x, x ∈ g).

(** The set of the words of a name, in lower case. *)
Definition words (name : string) : gset string :=
  list_to_set (split (lower name)).

(** Every row of the frame carries a text, not a missing cell, in the
    column. *)
Definition column_filled (c : string) (df : DataFrame) : Prop :=
  Forall (fun r => exists s, txt r c = Str s) (rows df).

(** What the fuzzy strategy asks of two rows: the normalised brands match,
    the normalised names are similar above 0.8, and the sizes or the prices
    match. *)
Definition fuzzy_requirements (df : DataFrame) (row1 row2 : Row) : Prop :=
  (exists brand1 brand2,
     "brand_name_normalized" ∈ columns df
     /\ txt row1 "brand_name_normalized" = Str brand1
     /\ txt row2 "brand_name_normalized" = Str brand2
     /\ _match_brand brand1 brand2 = true)
  /\ (exists name1 name2,
     "product_name_normalized" ∈ columns df
     /\ txt row1 "product_name_normalized" = Str name1
     /\ txt row2 "product_name_normalized" = Str name2
     /\ (0.8 < _calculate_name_similarity name1 name2)%Q)
  /\ (("size" ∈ columns df
       /\ _match_size (txt row1 "size") (txt row2 "size") = true)
      \/ ("price" ∈ columns df
          /\ _match_price (num row1 "price") (num row2 "price") 0.10 = true)).

(** The loop of a star, over the matcher of its body. *)
Definition star_loop
    (body : mstate -> (mstate -> option mstate) -> option mstate)
    (k : mstate -> option mstate) : nat -> mstate -> option mstate :=
  fix loop (n : nat) (st : mstate) : option mstate :=
    match n with
    | O => k st
    | S n' =>
        match body st (fun st' =>
                if (String.length (rest st') <? String.length (rest st))%nat
                then loop n' st' else None) with
        | Some out => Some out
        | None => k st
        end
    end.

(** Every character of the text is in the class. *)
Definition all_chars (p : ascii -> bool) (s : string) : bool :=
  forallb p (list_ascii_of_string s).

(** The text does not start with a character of the class. *)
Definition stops (p : ascii -> bool) (s : string) : bool :=
  match s with
  | EmptyString => true
  | String c _ => negb (p c)
  end.

(** The character before the position after reading [s]. *)
Fixpoint last_char (p : option ascii) (s : string) : option ascii :=
  match s with
  | EmptyString => p
  | String c t => last_char (Some c) t
  end.

(** The text of a number: digits, then nothing or a point and digits. *)
Definition number_text (digits fraction : string) : Prop :=
  digits <> "" /\ all_chars is_digit digits = true
  /\ (fraction = ""
      \/ exists more, fraction = String "." more /\ more <> ""
                      /\ all_chars is_digit more = true).

(** The rows of the pair query that carry a group id, in their order. *)
Definition rows_of (group_id : string) (results : list DuplicateGroups.PairRow)
  : list DuplicateGroups.PairRow :=
  List.filter
    (fun row => bool_decide (DuplicateGroups.row_group_id row = group_id))
    results.

(** The SKU is one of the two SKUs of a row of the list. *)
Definition sku_of_rows (rows : list DuplicateGroups.PairRow) (s : string)
  : Prop :=
  exists row, row ∈ rows
    /\ (s = DuplicateGroups.row_sku1 row \/ s = DuplicateGroups.row_sku2 row).

(** What a group of the result owes to its entry in the dictionary of the
    groups. *)
Definition built_from (order : list string -> list string)
    (order_values : list value -> list value)
    (get_product_details : list string -> option (list product))
    (entry : string * DuplicateGroups.group_data)
    (g : DuplicateGroups.DuplicateGroup) : Prop :=
  DuplicateGroups.group_id g = entry.1
  /\ get_product_details (order entry.2.1) = Some (DuplicateGroups.products g)
  /\ DuplicateGroups.confidence_score g = mean entry.2.2
  /\ _create_merge_recommendation order_values (DuplicateGroups.products g)
     = Some (DuplicateGroups.merge_recommendation g).

(** [a] stands before [b] in the list. *)
Definition before {A : Type} (l : list A) (a b : A) : Prop :=
  exists i j, (i < j)%nat /\ l !! i = Some a /\ l !! j = Some b.

(** * Sample inputs *)

(** Two products with one UPC and different prices. *)
Definition upc_catalog : DataFrame :=
  mkDF ["sku"; "upc"; "price"]
    [mkRow "A1" [("upc", Str "012345")] [("price", Some 50%Q)];
     mkRow "A2" [("upc", Str "012345")] [("price", Some 80%Q)]].

(** Two products without a name. *)
Definition nameless_catalog : DataFrame :=
  mkDF ["sku"; "product_name"]
    [mkRow "B1" [("product_name", NaN)] [];
     mkRow "B2" [("product_name", NaN)] []].

(** Two products with different brands and names that agree on model
    number, UPC, EAN, colour and material. *)
Definition identifiers_only_catalog : DataFrame :=
  mkDF ["sku"; "brand_name"; "product_name"; "model_number"; "upc"; "ean";
        "color"; "material"]
    [mkRow "P1"
       [("brand_name", Str "Acme"); ("product_name", Str "Trail Shoe");
        ("model_number", Str "TX-100"); ("upc", Str "012345678905");
        ("ean", Str "4006381333931"); ("color", Str "Red");
        ("material", Str "Leather")] [];
     mkRow "P2"
       [("brand_name", Str "Zenith"); ("product_name", Str "City Boot");
        ("model_number", Str "TX-100"); ("upc", Str "012345678905");
        ("ean", Str "4006381333931"); ("color", Str "Red");
        ("material", Str "Leather")] []].

(** A catalog where one product has no brand. *)
Definition missing_brand_catalog : DataFrame :=
  mkDF ["sku"; "brand_name"; "product_name"; "price"]
    [mkRow "A1" [("brand_name", NaN); ("product_name", Str "Air Max")]
       [("price", Some 50%Q)];
     mkRow "A2" [("brand_name", Str "Nike"); ("product_name", Str "air max")]
       [("price", Some 52%Q)]].

(** Two candidates of two strategies for the pair of A and B. *)
Definition fuzzy_AB : DuplicateCandidate :=
  mkCandidate "A" "B" 0.7 [("brand", true)] 0.7 "Fuzzy attribute matching".

Definition pattern_BA : DuplicateCandidate :=
  mkCandidate "B" "A" 0.85 [("sku_pattern", true)] 0.85 "Similar SKU pattern: P".

(** Two candidates for two pairs, with one confidence. *)
Definition r_AB : DuplicateCandidate :=
  mkCandidate "A" "B" 0.9 [] 0.9 "Similar SKU pattern: A".

Definition r_CD : DuplicateCandidate :=
  mkCandidate "C" "D" 0.9 [] 0.9 "Similar SKU pattern: C".

(** A candidate for a pair with a given score. *)
Definition pair_at (x y : string) (q : Q) : DuplicateCandidate :=
  mkCandidate x y q [] q "".

(** Two products that tie on the values of [rank]; the second one is the
    more complete. *)
Definition tie_products : list product :=
  [[("sku", VStr "B"); ("rank", VNum 0)];
   [("sku", VStr "A"); ("rank", VNum 1); ("brand_name", VStr "Acme")]].

(** The catalog of the end-to-end scenario. *)
Definition scenario_catalog : DataFrame :=
  mkDF ["sku"; "upc"; "brand"; "price"]
    [mkRow "A1" [("upc", Str "999"); ("brand", Str "Nike")]
       [("price", Some 50%Q)];
     mkRow "A2" [("upc", Str "999"); ("brand", Str "Nike Inc")]
       [("price", Some 52%Q)];
     mkRow "B1" [("upc", NaN); ("brand", Str "Adidas")]
       [("price", Some 80%Q)]].

(** The group of the end-to-end scenario, with an inventory on one side. *)
Definition scenario_group : list product :=
  [[("sku", VStr "A1"); ("upc", VStr "999"); ("brand", VStr "Nike");
    ("price", VNum 50); ("inventory_count", VNum 3)];
   [("sku", VStr "A2"); ("upc", VStr "999"); ("brand", VStr "Nike Inc");
    ("price", VNum 52)]].

(** Two rows of a catalog that carries the normalised brand and name. *)
Definition row_nike : Row :=
  mkRow "A1" [("brand_name_normalized", Str "nike");
              ("product_name_normalized", Str "air max")]
    [("price", Some 50%Q)].

Definition row_nike_inc : Row :=
  mkRow "A2" [("brand_name_normalized", Str "nike inc");
              ("product_name_normalized", Str "air max")]
    [("price", Some 52%Q)].

Definition normalized_catalog : DataFrame :=
  mkDF ["sku"; "brand_name_normalized"; "product_name_normalized"; "price"]
    [row_nike; row_nike_inc].

(** The candidate of the fuzzy strategy for these two rows. *)
Definition fuzzy_nike : DuplicateCandidate :=
  mkCandidate "A1" "A2" (0 + 0.25 + 0.05 + 0.2)
    [("brand", true); ("price", true)] (0 + 0.25 + 0.05 + 0.2)
    "Fuzzy attribute matching".

(** Three rows of a pair query, for two groups. *)
Definition pair_rows : list DuplicateGroups.PairRow :=
  [DuplicateGroups.mkPairRow "A" "B" 0.97 "1";
   DuplicateGroups.mkPairRow "A" "C" 0.96 "1";
   DuplicateGroups.mkPairRow "D" "E" 0.99 "2"].

(** A product table that knows the SKU of every product and nothing
    else. *)
Definition sku_only_details (skus : list string) : option (list product) :=
  Some (map (fun s => [("sku", VStr s)]) skus).

(** The groups of these rows. *)
Definition pair_groups : list DuplicateGroups.DuplicateGroup :=
  [DuplicateGroups.mkDuplicateGroup "1"
     [[("sku", VStr "A")]; [("sku", VStr "B")]; [("sku", VStr "C")]]
     (mean [0.97; 0.96]%Q)
     (mkRecommendation (VStr "A") [VStr "A"; VStr "B"; VStr "C"] 0 []
        "$100.00");
   DuplicateGroups.mkDuplicateGroup "2"
     [[("sku", VStr "D")]; [("sku", VStr "E")]]
     (mean [0.99%Q])
     (mkRecommendation (VStr "D") [VStr "D"; VStr "E"] 0 [] "$50.00")].

(** The merged candidates of the catalog of two products without a name. *)
Definition nameless_merged : list DuplicateCandidate :=
  [mkCandidate "B1" "B2" 0.80 [("name_pattern", true)]
     (0.80 + inject_Z 1 * 0.1) "Similar name pattern"].

(** * Properties *)

(** ** Lists, pairs and dictionaries *)

Section ListFacts.
Context {A : Type}.

Lemma pairs_split (l1 l2 l3 : list A) (a b : A) :
  (a, b) ∈ pairs (l1 ++ a :: l2 ++ b :: l3).
Proof.
  induction l1 as [|x l1 IH]; simpl.
  - apply elem_of_app. left. apply list_elem_of_fmap. exists b. split; [done|].
    apply elem_of_app. right. left.
  - apply elem_of_app. right. exact IH.
Qed.

Lemma lookup_lt_split (l : list A) (i j : nat) (a b : A) :
  (i < j)%nat -> l !! i = Some a -> l !! j = Some b ->
  exists l1 l2 l3, l = l1 ++ a :: l2 ++ b :: l3.
Proof.
  intros Hij Hi Hj.
  exists (take i l), (take (j - S i) (drop (S i) l)), (drop (S (j - S i)) (drop (S i) l)).
  assert (Hb : drop (S i) l !! (j - S i)%nat = Some b).
  { rewrite lookup_drop. replace (S i + (j - S i))%nat with j by lia. exact Hj. }
  rewrite (take_drop_middle _ _ _ Hb).
  symmetry. apply take_drop_middle. exact Hi.
Qed.

Lemma pairs_lookup (l : list A) (i j : nat) (a b : A) :
  (i < j)%nat -> l !! i = Some a -> l !! j = Some b -> (a, b) ∈ pairs l.
Proof.
  intros Hij Hi Hj.
  destruct (lookup_lt_split l i j a b Hij Hi Hj) as (l1 & l2 & l3 & ->).
  apply pairs_split.
Qed.

Lemma pairs_elem (l : list A) (a b : A) :
  (a, b) ∈ pairs l -> a ∈ l /\ b ∈ l.
Proof.
  induction l as [|x l IH]; simpl; [by intros ?%elem_of_nil|].
  intros [H|H]%elem_of_app.
  - apply list_elem_of_fmap in H as (y & [= -> ->] & Hy).
    split; [left | by right].
  - destruct (IH H). split; by right.
Qed.

Lemma filter_split (P : A -> bool) (l1 l2 l3 : list A) (a b : A) :
  P a = true -> P b = true ->
  List.filter P (l1 ++ a :: l2 ++ b :: l3) =
  List.filter P l1 ++ a :: List.filter P l2 ++ b :: List.filter P l3.
Proof.
  intros Ha Hb.
  rewrite List.filter_app. simpl. rewrite Ha.
  rewrite List.filter_app. simpl. rewrite Hb. reflexivity.
Qed.

End ListFacts.

Lemma insert_sorted_perm (x : string) (l : list string) :
  insert_sorted x l ≡ₚ x :: l.
Proof.
  induction l as [|y l IH]; simpl; [done|].
  destruct (String.leb x y); [done|].
  rewrite IH. apply Permutation_swap.
Qed.

Lemma sorted_perm (l : list string) : PyStr.sorted l ≡ₚ l.
Proof.
  induction l as [|x l IH]; simpl; [done|].
  rewrite insert_sorted_perm. by rewrite IH.
Qed.

Section DictFacts.
Context {K V : Type} `{EqDecision K}.

Lemma dict_get_elem (d : list (K * V)) (k : K) (v : V) :
  dict_get d k = Some v -> (k, v) ∈ d.
Proof.
  induction d as [|[k' v'] d IH]; simpl; [done|].
  destruct (decide (k' = k)) as [->|Hne].
  - intros [= ->]. left.
  - intros Hd. right. by apply IH.
Qed.

Lemma dl_append_get (d : list (K * list V)) (k k' : K) (v : V) :
  dict_get (dl_append d k v) k' =
  if decide (k = k') then
    Some (match dict_get d k with Some l => l | None => [] end ++ [v])
  else dict_get d k'.
Proof.
  induction d as [|[k0 l0] d IH]; simpl.
  - destruct (decide (k = k')); reflexivity.
  - destruct (decide (k0 = k)) as [->|Hne]; simpl.
    + destruct (decide (k = k')); reflexivity.
    + rewrite IH. destruct (decide (k0 = k')) as [->|?];
        destruct (decide (k = k')); congruence.
Qed.

(** A loop that appends each element to the list of its key collects, under
    every key, the elements of that key in their order. *)
Lemma group_fold_get (f : V -> option K)
    (step : list (K * list V) -> V -> list (K * list V)) :
  (forall d x, step d x =
     match f x with Some k => dl_append d k x | None => d end) ->
  forall (l : list V) (d0 : list (K * list V)) (k : K),
  dict_get (fold_left step l d0) k =
  match dict_get d0 k, List.filter (fun x => bool_decide (f x = Some k)) l with
  | None, [] => None
  | o, g => Some (match o with Some l0 => l0 | None => [] end ++ g)
  end.
Proof.
  intros Hstep l. induction l as [|x l IH]; intros d0 k; simpl.
  - destruct (dict_get d0 k); [by rewrite app_nil_r | done].
  - rewrite IH, Hstep. destruct (f x) as [kx|] eqn:Hfx.
    + rewrite dl_append_get. destruct (decide (kx = k)) as [->|Hne].
      * rewrite bool_decide_eq_true_2 by done.
        destruct (dict_get d0 k); simpl;
          destruct (List.filter _ l); simpl; by rewrite <- ?app_assoc.
      * rewrite bool_decide_eq_false_2 by congruence. reflexivity.
    + rewrite bool_decide_eq_false_2 by congruence. reflexivity.
Qed.

End DictFacts.

(** ** Strategy 2: exact identifiers *)

Lemma groupby_elem (col v : string) (rs : list Row) (r : Row) :
  r ∈ rs -> txt r col = Str v ->
  (v, List.filter (fun r' => bool_decide (txt r' col = Str v)) rs)
    ∈ groupby col rs.
Proof.
  intros Hr Hv. unfold groupby.
  apply list_elem_of_fmap. exists v. split; [done|].
  rewrite sorted_perm. apply elem_of_remove_dups.
  apply list_elem_of_omap. exists r. split; [done|]. by rewrite Hv.
Qed.

Lemma identifier_candidates_certain (df : DataFrame) (c : DuplicateCandidate) :
  c ∈ _find_by_identifiers df ->
  similarity_score c = 1.0%Q /\ confidence c = 1.0%Q.
Proof.
  unfold _find_by_identifiers. rewrite list_elem_of_In, in_flat_map.
  intros (col & _ & Hc). destruct (in_columns col df); [|done].
  apply in_flat_map in Hc as ([v g] & _ & Hc). simpl in Hc.
  destruct (1 <? length g)%nat; [|done].
  apply in_map_iff in Hc as (p & <- & _). done.
Qed.

(** C4. Two rows of the catalog that carry the same value, not missing, in
    an identifier column that the catalog has, give a candidate of the
    identifier strategy with similarity 1.0, confidence 1.0, the column as
    the only matching attribute and the reason naming the column and the
    value, whatever their other cells are; and the strategy gives no
    candidate with another similarity or confidence. *)
Theorem identifier_match_yields_certain_candidate
    (df : DataFrame) (col v : string) (i j : nat) (r1 r2 : Row) :
  col ∈ identifier_columns ->
  col ∈ columns df ->
  (i < j)%nat ->
  rows df !! i = Some r1 ->
  rows df !! j = Some r2 ->
  txt r1 col = Str v ->
  txt r2 col = Str v ->
  mkCandidate (sku r1) (sku r2) 1.0 [(col, true)] 1.0
    ("Exact " ++ col ++ " match: " ++ v)%string ∈ _find_by_identifiers df
  /\ forall c, c ∈ _find_by_identifiers df ->
       similarity_score c = 1.0%Q /\ confidence c = 1.0%Q.
Proof.
  intros Hid Hcol Hij Hi Hj Hv1 Hv2.
  split; [|apply identifier_candidates_certain].
  destruct (lookup_lt_split _ _ _ _ _ Hij Hi Hj) as (l1 & l2 & l3 & Hrows).
  unfold _find_by_identifiers.
  apply list_elem_of_In, in_flat_map. exists col.
  split; [by apply list_elem_of_In|].
  unfold in_columns. rewrite bool_decide_eq_true_2 by done.
  apply in_flat_map.
  set (present := List.filter (fun r => notna (txt r col)) (rows df)).
  assert (Hpresent : present =
            List.filter (fun r => notna (txt r col)) l1 ++ r1 ::
            List.filter (fun r => notna (txt r col)) l2 ++ r2 ::
            List.filter (fun r => notna (txt r col)) l3).
  { unfold present. rewrite Hrows.
    apply filter_split; [by rewrite Hv1 | by rewrite Hv2]. }
  exists (v, List.filter (fun r' => bool_decide (txt r' col = Str v)) present).
  split.
  { apply list_elem_of_In, (groupby_elem col v present r1); [|done].
    rewrite Hpresent. apply elem_of_app. right. left. }
  simpl. rewrite Hpresent.
  rewrite filter_split by (by apply bool_decide_eq_true_2).
  set (g1 := List.filter _ (List.filter _ l1)).
  set (g2 := List.filter _ (List.filter _ l2)).
  set (g3 := List.filter _ (List.filter _ l3)).
  replace (1 <? length (g1 ++ r1 :: g2 ++ r2 :: g3))%nat with true.
  2:{ symmetry. apply Nat.ltb_lt. rewrite length_app. simpl.
      rewrite length_app. simpl. lia. }
  apply in_map_iff. exists (sku r1, sku r2). split; [done|].
  apply list_elem_of_In.
  rewrite map_app. simpl. rewrite map_app. simpl. apply pairs_split.
Qed.

Lemma identifier_match_yields_certain_candidate_witness :
  mkCandidate "A1" "A2" 1.0 [("upc", true)] 1.0 "Exact upc match: 012345"
    ∈ _find_by_identifiers upc_catalog
  /\ forall c, c ∈ _find_by_identifiers upc_catalog ->
       similarity_score c = 1.0%Q /\ confidence c = 1.0%Q.
Proof.
  apply (identifier_match_yields_certain_candidate upc_catalog "upc" "012345"
           0 1 (mkRow "A1" [("upc", Str "012345")] [("price", Some 50%Q)])
               (mkRow "A2" [("upc", Str "012345")] [("price", Some 80%Q)])).
  - unfold identifier_columns. apply elem_of_cons. by left.
  - simpl. apply elem_of_cons. right. apply elem_of_cons. by left.
  - lia.
  - reflexivity.
  - reflexivity.
  - reflexivity.
  - reflexivity.
Defined.

(** ** Strategy 4: name patterns *)

Lemma name_patterns_get (rs : list Row) (k : string) :
  dict_get
    (fold_left (fun d row =>
       let clean_name := clean_name (txt row "product_name") in
       if truthy clean_name then dl_append d clean_name row else d) rs [])
    k =
  match List.filter (fun r => bool_decide (name_key r = Some k)) rs with
  | [] => None
  | g => Some g
  end.
Proof.
  rewrite (group_fold_get name_key).
  - simpl. by destruct (List.filter _ rs).
  - intros d x. unfold name_key. simpl.
    by destruct (truthy (clean_name (txt x "product_name"))).
Qed.

Lemma clean_name_nan : clean_name NaN = "nan".
Proof. vm_compute. reflexivity. Qed.

(** C10. A missing product name is turned into the text "nan" before it is
    cleaned, and "nan" is its own cleaned form; so two rows of a catalog with
    a product_name column whose names are both missing fall into one group
    of the name-pattern strategy, which gives for them a candidate of
    similarity 0.80 and confidence 0.80. *)
Theorem missing_names_are_name_pattern_duplicates
    (df : DataFrame) (i j : nat) (r1 r2 : Row) :
  "product_name" ∈ columns df ->
  (i < j)%nat ->
  rows df !! i = Some r1 ->
  rows df !! j = Some r2 ->
  txt r1 "product_name" = NaN ->
  txt r2 "product_name" = NaN ->
  py_str NaN = "nan"
  /\ clean_name (txt r1 "product_name") = "nan"
  /\ clean_name (txt r2 "product_name") = "nan"
  /\ mkCandidate (sku r1) (sku r2) 0.80 [("name_pattern", true)] 0.80
       "Similar name pattern" ∈ _find_by_patterns df.
Proof.
  intros Hcol Hij Hi Hj Hn1 Hn2.
  rewrite Hn1, Hn2. repeat split; try apply clean_name_nan.
  destruct (lookup_lt_split _ _ _ _ _ Hij Hi Hj) as (l1 & l2 & l3 & Hrows).
  unfold _find_by_patterns. apply elem_of_app. right.
  unfold in_columns. rewrite bool_decide_eq_true_2 by done.
  apply list_elem_of_In, in_flat_map.
  pose proof (name_patterns_get (rows df) "nan") as Hget.
  assert (Hkey : forall r, txt r "product_name" = NaN ->
                   bool_decide (name_key r = Some "nan") = true).
  { intros r Hr. apply bool_decide_eq_true_2. unfold name_key.
    rewrite Hr, clean_name_nan. reflexivity. }
  rewrite Hrows in Hget at 2.
  rewrite filter_split in Hget by auto.
  set (g1 := List.filter _ l1) in Hget.
  set (g2 := List.filter _ l2) in Hget.
  set (g3 := List.filter _ l3) in Hget.
  assert (Hget' : dict_get
    (fold_left (fun d row =>
       let clean_name := clean_name (txt row "product_name") in
       if truthy clean_name then dl_append d clean_name row else d)
       (rows df) []) "nan" = Some (g1 ++ r1 :: g2 ++ r2 :: g3)).
  { rewrite Hget. by destruct g1. }
  exists ("nan", g1 ++ r1 :: g2 ++ r2 :: g3).
  split; [apply list_elem_of_In, dict_get_elem, Hget'|].
  simpl.
  replace (1 <? length (g1 ++ r1 :: g2 ++ r2 :: g3))%nat with true.
  2:{ symmetry. apply Nat.ltb_lt. rewrite length_app. simpl.
      rewrite length_app. simpl. lia. }
  apply in_map_iff. exists (r1, r2). split; [done|].
  apply list_elem_of_In, pairs_split.
Qed.

Lemma missing_names_are_name_pattern_duplicates_witness :
  py_str NaN = "nan"
  /\ clean_name NaN = "nan"
  /\ clean_name NaN = "nan"
  /\ mkCandidate "B1" "B2" 0.80 [("name_pattern", true)] 0.80
       "Similar name pattern" ∈ _find_by_patterns nameless_catalog.
Proof.
  apply (missing_names_are_name_pattern_duplicates nameless_catalog 0 1
           (mkRow "B1" [("product_name", NaN)] [])
           (mkRow "B2" [("product_name", NaN)] [])).
  - simpl. apply elem_of_cons. right. apply elem_of_cons. by left.
  - lia.
  - reflexivity.
  - reflexivity.
  - reflexivity.
  - reflexivity.
Defined.

(** ** The size rule *)

(** The size rule does not accept 16 oz for 473 ml. *)
Lemma match_size_16oz_473ml_not_true :
  _match_size (Str "16 oz") (Str "473 ml") <> true.
Proof. vm_compute. discriminate. Qed.

(** C6, amended. The sizes "16 oz" and "473 ml" parse as (16, oz) and
    (473, ml); the units differ and oz to ml is in the conversion table with
    factor 29.5735; the converted magnitude is 473.176, which is 0.176 away
    from 473, not less than the tolerance 0.1: the rule returns false. A
    size within the tolerance of the converted magnitude, such as
    "473.2 ml", is accepted. *)
Theorem match_size_16oz_473ml :
  parse_size "16 oz" = Some (16%Q, "oz")
  /\ parse_size "473 ml" = Some (473%Q, "ml")
  /\ dict_get conversions ("oz", "ml") = Some 29.5735%Q
  /\ (16 * 29.5735 == 473.176)%Q
  /\ (Qabs (16 * 29.5735 - 473) == 0.176)%Q
  /\ Qltb 0.176 0.1 = false
  /\ _match_size (Str "16 oz") (Str "473 ml") = false
  /\ _match_size (Str "16 oz") (Str "473.2 ml") = true.
Proof. repeat split; vm_compute; reflexivity. Qed.

(** ** Strategy 3: the fuzzy score *)

(** What the loop body computes for two rows of a normalised frame with
    brand, size, price and name columns: the weights of brand, size and
    price and the name bonus, and nothing else. *)
Lemma fuzzy_pair_score (df : DataFrame) (row1 row2 : Row) (b1 b2 n1 n2 : string) :
  in_columns "brand_name_normalized" df = true ->
  in_columns "size" df = true ->
  in_columns "price" df = true ->
  in_columns "product_name_normalized" df = true ->
  txt row1 "brand_name_normalized" = Str b1 ->
  txt row2 "brand_name_normalized" = Str b2 ->
  txt row1 "product_name_normalized" = Str n1 ->
  txt row2 "product_name_normalized" = Str n2 ->
  let brand_match := _match_brand b1 b2 in
  let size_match := _match_size (txt row1 "size") (txt row2 "size") in
  let price_match := _match_price (num row1 "price") (num row2 "price") 0.10 in
  let s0 := if brand_match then (0 + 0.25)%Q else 0%Q in
  let s1 := if size_match then (s0 + 0.15)%Q else s0 in
  let s2 := if price_match then (s1 + 0.05)%Q else s1 in
  let score :=
    if Qltb 0.8 (_calculate_name_similarity n1 n2) then (s2 + 0.2)%Q else s2 in
  fuzzy_pair df row1 row2 =
  Some (if Qle_bool 0.5 score then
          Some (mkCandidate (sku row1) (sku row2) score
                  [("brand", brand_match); ("size", size_match);
                   ("price", price_match)]
                  score "Fuzzy attribute matching")
        else None).
Proof.
  intros Hb Hs Hp Hn Hb1 Hb2 Hn1 Hn2. unfold fuzzy_pair.
  rewrite Hb, Hs, Hp, Hn, Hb1, Hb2, Hn1, Hn2. simpl.
  destruct (_match_brand b1 b2), (_match_size _ _), (_match_price _ _ _);
    reflexivity.
Qed.

(** C5, the behaviour of the code. The weight table gives model_number
    0.20, upc 0.30, ean 0.30, color 0.10 and material 0.05, 0.95 together,
    and the colour and the material are normalised into columns of their
    own; but for two products that agree on exactly these five attributes
    the loop scores 0, records no matching attribute, and gives no
    candidate. *)
Theorem fuzzy_score_ignores_five_weights :
  (weight "model_number" + weight "upc" + weight "ean" + weight "color"
     + weight "material" == 0.95)%Q
  /\ (forall r, r ∈ rows (fst (_find_by_fuzzy_attributes identifiers_only_catalog)) ->
        txt r "color_normalized" = Str "red"
        /\ txt r "material_normalized" = Str "leather")
  /\ snd (_find_by_fuzzy_attributes identifiers_only_catalog) = Some [].
Proof.
  split; [vm_compute; reflexivity|]. split; [|vm_compute; reflexivity].
  intros r Hr. vm_compute in Hr.
  apply elem_of_cons in Hr as [->|Hr]; [by vm_compute|].
  apply elem_of_cons in Hr as [->|Hr]; [by vm_compute|].
  by apply elem_of_nil in Hr.
Qed.

Lemma contains_empty (b : string) : contains "" b = true.
Proof. destruct b; reflexivity. Qed.

(** C7, the behaviour of the code. A missing brand is normalised to the
    empty string, and the brand rule accepts the empty string against every
    brand, on either side; so the brand weight 0.25 is added for a pair in
    which a brand is missing. In the catalog [missing_brand_catalog] it
    lifts the pair from 0.25 to the threshold 0.5, and a candidate comes out
    with the brand recorded as matching. The size rule has a guard that
    rejects an empty size and the price rule rejects a missing price; two
    sizes that are both missing are read as the same text and match. *)
Theorem missing_brand_scores_as_match :
  strip (lower (py_str (fillna "" NaN))) = ""
  /\ (forall b, _match_brand "" b = true /\ _match_brand b "" = true)
  /\ (forall s, _match_size (Str "") s = false /\ _match_size s (Str "") = false)
  /\ (forall p t, _match_price None p t = false /\ _match_price p None t = false)
  /\ _match_size NaN NaN = true
  /\ snd (_find_by_fuzzy_attributes missing_brand_catalog) =
     Some [mkCandidate "A1" "A2" (0 + 0.25 + 0.05 + 0.2)
             [("brand", true); ("price", true)] (0 + 0.25 + 0.05 + 0.2)
             "Fuzzy attribute matching"].
Proof.
  split; [reflexivity|]. split.
  { intros b. unfold _match_brand. rewrite contains_empty.
    split.
    - destruct (String.eqb "" b); [done|]. by destruct (existsb _ _).
    - destruct (String.eqb b ""); [done|]. destruct (existsb _ _); [done|].
      by rewrite orb_true_r. }
  split.
  { intros s. unfold _match_size. simpl. split; [done|].
    destruct (cell_truthy s); reflexivity. }
  split.
  { intros p t. split; [done|]. by destruct p. }
  split; vm_compute; reflexivity.
Qed.

(** ** What candidate generation changes in the catalog *)

Lemma dict_set_get {V : Type} (d : list (string * V)) (k k' : string) (v : V) :
  dict_get (dict_set d k v) k' =
  if decide (k = k') then Some v else dict_get d k'.
Proof.
  induction d as [|[k0 v0] d IH]; simpl.
  - destruct (decide (k = k')); reflexivity.
  - destruct (decide (k0 = k)) as [->|Hne]; simpl.
    + destruct (decide (k = k')); reflexivity.
    + rewrite IH. destruct (decide (k0 = k')) as [->|?];
        destruct (decide (k = k')); congruence.
Qed.

Lemma txt_set_txt (r : Row) (c c' : string) (v : cell) :
  txt (set_txt r c v) c' = if decide (c = c') then v else txt r c'.
Proof.
  unfold txt, set_txt. simpl. rewrite dict_set_get.
  destruct (decide (c = c')); reflexivity.
Qed.

Lemma normalize_field_keeps_columns (df : DataFrame) (field c : string) :
  c ∈ columns df -> c ∈ columns (normalize_field df field).
Proof.
  intros Hc. unfold normalize_field. destruct (in_columns field df); [|done].
  unfold set_column. cbn [columns].
  destruct (in_columns _ df); [done|]. apply elem_of_app. by left.
Qed.

Lemma normalize_fields_keep_columns (fields : list string) (df : DataFrame)
    (c : string) :
  c ∈ columns df -> c ∈ columns (fold_left normalize_field fields df).
Proof.
  revert df. induction fields as [|f fields IH]; intros df Hc; [done|].
  cbn [fold_left]. by apply IH, normalize_field_keeps_columns.
Qed.

(** The columns of the frame after one field. *)
Lemma normalize_field_columns_eq (df : DataFrame) (field : string) :
  columns (normalize_field df field) =
  columns df
  ++ (if in_columns field df && negb (in_columns (field ++ "_normalized") df)
      then [(field ++ "_normalized")%string] else []).
Proof.
  unfold normalize_field. destruct (in_columns field df); cbn [andb].
  - unfold set_column. cbn [columns].
    destruct (in_columns _ df); cbn [negb]; [by rewrite app_nil_r | done].
  - by rewrite app_nil_r.
Qed.

Lemma in_columns_normalize_field (df : DataFrame) (field c : string) :
  c <> (field ++ "_normalized")%string ->
  in_columns c (normalize_field df field) = in_columns c df.
Proof.
  intros Hne. unfold in_columns. apply bool_decide_ext.
  rewrite normalize_field_columns_eq, elem_of_app. split; [|by left].
  intros [H|H]; [done|].
  destruct (_ && _); [|by apply elem_of_nil in H].
  by apply list_elem_of_singleton in H.
Qed.

Lemma filter_ext_elem {A : Type} (P Q : A -> bool) (l : list A) :
  (forall x, x ∈ l -> P x = Q x) -> List.filter P l = List.filter Q l.
Proof.
  intros H. apply List.filter_ext_in. intros x Hx. apply H.
  by apply list_elem_of_In.
Qed.

Lemma elem_of_filter_bool {A : Type} (P : A -> bool) (l : list A) (x : A) :
  x ∈ List.filter P l <-> x ∈ l /\ P x = true.
Proof. rewrite !list_elem_of_In. apply List.filter_In. Qed.

Lemma separate_tail (f : string) (fields : list string) :
  separate (f :: fields) ->
  separate fields
  /\ (forall g, g ∈ fields ->
        g <> (f ++ "_normalized")%string
        /\ (g ++ "_normalized")%string <> (f ++ "_normalized")%string).
Proof.
  intros [Hnd Hsep]. cbn [map] in Hnd. apply NoDup_cons in Hnd as [Hf Hnd].
  split; [split; [done|]|].
  - intros a b Ha Hb. apply Hsep; by right.
  - intros g Hg. split.
    + intros E. apply (Hsep g f); [by right | left | done].
    + intros E. apply Hf. rewrite <- E. apply list_elem_of_fmap. by exists g.
Qed.

Lemma normalize_fields_columns_eq (fields : list string) (df : DataFrame) :
  separate fields ->
  columns (fold_left normalize_field fields df) =
  columns df
  ++ List.filter (fun c => negb (in_columns c df))
       (map (fun field => (field ++ "_normalized")%string)
          (List.filter (fun field => in_columns field df) fields)).
Proof.
  revert df. induction fields as [|f fields IH]; intros df Hsep.
  { cbn. by rewrite app_nil_r. }
  destruct (separate_tail f fields Hsep) as [Htail Hf].
  cbn [fold_left]. rewrite (IH _ Htail), normalize_field_columns_eq.
  rewrite <- app_assoc. f_equal.
  rewrite (filter_ext_elem (fun field => in_columns field (normalize_field df f))
             (fun field => in_columns field df));
    [|intros g Hg; apply in_columns_normalize_field; by apply Hf].
  rewrite (filter_ext_elem (fun c => negb (in_columns c (normalize_field df f)))
             (fun c => negb (in_columns c df))).
  2:{ intros c (g & -> & [Hg _]%elem_of_filter_bool)%list_elem_of_fmap.
      f_equal. apply in_columns_normalize_field. by apply Hf. }
  cbn [List.filter]. destruct (in_columns f df); cbn [andb map List.filter];
    [|done].
  by destruct (in_columns (f ++ "_normalized") df).
Qed.

(** The rows of the frame after one field. *)
Lemma normalize_field_writes (df : DataFrame) (field : string) :
  exists h : Row -> Row,
    rows (normalize_field df field) = map h (rows df)
    /\ forall r,
         sku (h r) = sku r /\ nums (h r) = nums r
         /\ (in_columns field df = true ->
             txt (h r) (field ++ "_normalized") = normalized_cell (txt r field))
         /\ (forall c,
               (in_columns field df = true ->
                c <> (field ++ "_normalized")%string) ->
               txt (h r) c = txt r c).
Proof.
  unfold normalize_field. destruct (in_columns field df).
  - eexists. split; [reflexivity|]. intros r. cbn [sku nums set_txt].
    split; [done|]. split; [done|]. split.
    + intros _. by rewrite txt_set_txt, decide_True.
    + intros c Hc. rewrite txt_set_txt, decide_False; [done|].
      intros E. by apply Hc.
  - exists id. split; [by rewrite map_id|]. intros r.
    split; [done|]. split; [done|]. split; [done|]. done.
Qed.

Lemma normalize_fields_write (fields : list string) (df : DataFrame) :
  separate fields ->
  exists h : Row -> Row,
    rows (fold_left normalize_field fields df) = map h (rows df)
    /\ forall r,
         sku (h r) = sku r /\ nums (h r) = nums r
         /\ (forall field, field ∈ fields -> in_columns field df = true ->
               txt (h r) (field ++ "_normalized")
               = normalized_cell (txt r field))
         /\ (forall c,
               (forall field, field ∈ fields -> in_columns field df = true ->
                  c <> (field ++ "_normalized")%string) ->
               txt (h r) c = txt r c).
Proof.
  revert df. induction fields as [|f fields IH]; intros df Hsep.
  { exists id. split; [by rewrite map_id|]. intros r.
    split; [done|]. split; [done|]. split; [|done].
    by intros field ?%elem_of_nil. }
  destruct (separate_tail f fields Hsep) as [Htail Hf].
  destruct (normalize_field_writes df f) as (h1 & E1 & H1).
  destruct (IH (normalize_field df f) Htail) as (h2 & E2 & H2).
  exists (fun r => h2 (h1 r)). split.
  { cbn [fold_left]. by rewrite E2, E1, map_map. }
  intros r.
  destruct (H1 r) as (Hs1 & Hn1 & Hw1 & Ho1).
  destruct (H2 (h1 r)) as (Hs2 & Hn2 & Hw2 & Ho2).
  split; [congruence|]. split; [congruence|]. split.
  - intros field [->|Hfield]%elem_of_cons Hcol.
    + rewrite Ho2; [by apply Hw1|].
      intros g Hg _ E. by destruct (Hf g Hg) as [_ Hne].
    + destruct (Hf field Hfield) as [Hne1 Hne2].
      rewrite Hw2; [|done|by rewrite in_columns_normalize_field].
      f_equal. apply Ho1. by intros _.
  - intros c Hc. rewrite Ho2, Ho1; [done| |].
    + intros Hcol. apply (Hc f); [left | done].
    + intros g Hg Hcol. apply (Hc g); [by right|].
      destruct (Hf g Hg) as [Hne _].
      by rewrite in_columns_normalize_field in Hcol.
Qed.

Lemma text_fields_separate : separate text_fields.
Proof.
  split.
  - apply (bool_decide_unpack _). by vm_compute.
  - intros f g Hf Hg E. revert f g Hf Hg E.
    unfold text_fields. intros f g Hf Hg.
    repeat (apply elem_of_cons in Hf as [->|Hf]);
      try (by apply elem_of_nil in Hf);
      repeat (apply elem_of_cons in Hg as [->|Hg]);
      try (by apply elem_of_nil in Hg); done.
Qed.

Lemma normalize_text_fields_extension (df : DataFrame) :
  normalized_extension df (fold_left normalize_field text_fields df).
Proof.
  split.
  - apply normalize_fields_columns_eq, text_fields_separate.
  - destruct (normalize_fields_write text_fields df text_fields_separate)
      as (h & -> & H).
    apply Forall2_fmap_r, Forall2_same_length_lookup_2; [done|].
    intros i r r' Hr Hr'. rewrite Hr in Hr'. injection Hr' as <-.
    destruct (H r) as (Hs & Hn & Hw & Ho).
    split; [done|]. split; [done|]. split.
    + intros field [Hfield Hcol]%elem_of_filter_bool. by apply Hw.
    + intros c Hc. apply Ho. intros field Hfield Hcol ->. apply Hc.
      apply list_elem_of_fmap. exists field. split; [done|].
      by apply elem_of_filter_bool.
Qed.

Lemma normalize_fields_columns (fields : list string) (df : DataFrame)
    (field : string) :
  (forall f, f ∈ fields -> f ∈ text_fields) ->
  field ∈ fields -> field ∈ columns df ->
  (field ++ "_normalized")%string
    ∈ columns (fold_left normalize_field fields df).
Proof.
  intros _. revert df. induction fields as [|f fields IH]; intros df Hf Hin;
    [by apply elem_of_nil in Hf|].
  cbn [fold_left]. apply elem_of_cons in Hf as [->|Hf].
  - apply normalize_fields_keep_columns.
    rewrite normalize_field_columns_eq. unfold in_columns at 1.
    rewrite bool_decide_eq_true_2 by done. cbn [andb].
    unfold in_columns. case_bool_decide; cbn [negb].
    + apply elem_of_app. by left.
    + apply elem_of_app. right. left.
  - apply IH; [done|]. by apply normalize_field_keeps_columns.
Qed.

Lemma detect_frame (order : list string -> list string)
    (products_df embeddings_df : DataFrame) (threshold : Q) :
  fst (detect_duplicates_multi_strategy order products_df embeddings_df
         threshold) =
  fold_left normalize_field text_fields products_df.
Proof. reflexivity. Qed.

(** The pipeline changes the catalog it is given. *)
Lemma detect_mutates_catalog :
  fst (detect_duplicates_multi_strategy remove_dups missing_brand_catalog
         missing_brand_catalog 0.85) <> missing_brand_catalog.
Proof. vm_compute. discriminate. Qed.

(** C8, amended. Candidate generation changes the catalog it is given, and
    only as follows. For each of brand_name, product_name, color and
    material that is a column of the catalog, the fuzzy strategy writes the
    column <field>_normalized, which holds in every row the text of the
    field, or the empty text for a missing value, in lower case and
    stripped; the column is overwritten if the catalog has it, and is
    otherwise added after the columns of the catalog, in the order of the
    four fields. Nothing else changes: the catalog keeps its columns and
    gets no other column, and keeps its rows in their order, each with its
    SKU, its numeric cells and its text cells in every other column, also in
    the normalised column of a field that the catalog does not have. The
    detection as a whole changes the catalog in this way and in no other. *)
Theorem detect_only_adds_normalized_columns
    (order : list string -> list string)
    (products_df embeddings_df : DataFrame) (threshold : Q) :
  normalized_extension products_df
    (fst (_find_by_fuzzy_attributes products_df))
  /\ normalized_extension products_df
       (fst (detect_duplicates_multi_strategy order products_df embeddings_df
               threshold)).
Proof.
  rewrite detect_frame. split; apply normalize_text_fields_extension.
Qed.

(** ** Numbers *)

Lemma Qltb_lt (a b : Q) : Qltb a b = true <-> (a < b)%Q.
Proof.
  unfold Qltb. rewrite negb_true_iff. split.
  - intros H. apply Qnot_le_lt. intros Hle.
    apply Qle_bool_iff in Hle. congruence.
  - intros H. destruct (Qle_bool b a) eqn:E; [|done].
    apply Qle_bool_iff in E. apply Qlt_not_le in H. contradiction.
Qed.

Lemma Qltb_ge (a b : Q) : Qltb a b = false <-> (b <= a)%Q.
Proof.
  unfold Qltb. rewrite negb_false_iff. apply Qle_bool_iff.
Qed.

Lemma max2_cases (a b : Q) :
  (max2 a b = a /\ (b <= a)%Q) \/ (max2 a b = b /\ (a < b)%Q).
Proof.
  unfold max2. destruct (Qltb a b) eqn:E.
  - right. split; [done|]. by apply Qltb_lt.
  - left. split; [done|]. by apply Qltb_ge.
Qed.

Lemma min2_Qmin (a b : Q) : (min2 a b == Qmin a b)%Q.
Proof.
  unfold min2. destruct (Qltb b a) eqn:E.
  - apply Qltb_lt in E. symmetry. apply Q.min_r. by apply Qlt_le_weak.
  - apply Qltb_ge in E. symmetry. by apply Q.min_l.
Qed.

Lemma fold_max2_bounds (l : list Q) (x : Q) :
  (x <= fold_left max2 l x)%Q
  /\ (forall y, y ∈ l -> (y <= fold_left max2 l x)%Q)
  /\ fold_left max2 l x ∈ x :: l.
Proof.
  revert x. induction l as [|y l IH]; intros x; simpl.
  - split; [apply Qle_refl|]. split; [by intros ? ?%elem_of_nil | left].
  - destruct (IH (max2 x y)) as (Hge & Hall & Hin).
    destruct (max2_cases x y) as [[Hm Hle]|[Hm Hlt]]; rewrite Hm in *.
    + split; [done|]. split.
      * intros z [->|Hz]%elem_of_cons; [by eapply Qle_trans | by apply Hall].
      * apply elem_of_cons in Hin as [->|Hin]; [left | by do 2 right].
    + split; [eapply Qle_trans; [by apply Qlt_le_weak|done]|]. split.
      * intros z [->|Hz]%elem_of_cons; [done | by apply Hall].
      * apply elem_of_cons in Hin as [->|Hin]; [right; left | by do 2 right].
Qed.

Lemma max_of_upper (l : list Q) (y : Q) : y ∈ l -> (y <= max_of l)%Q.
Proof.
  destruct l as [|x l]; [by intros ?%elem_of_nil|]. simpl.
  destruct (fold_max2_bounds l x) as (Hge & Hall & _).
  intros [->|Hy]%elem_of_cons; auto.
Qed.

Lemma max_of_elem (l : list Q) : l <> [] -> max_of l ∈ l.
Proof.
  destruct l as [|x l]; [done|]. intros _. simpl.
  apply fold_max2_bounds.
Qed.

(** The maximum does not depend on the order, up to the value. *)
Lemma max_of_subset (l l' : list Q) :
  l <> [] -> (forall y, y ∈ l -> y ∈ l') -> (max_of l <= max_of l')%Q.
Proof.
  intros Hne Hsub. apply max_of_upper, Hsub, max_of_elem, Hne.
Qed.

(** ** Merging *)

Lemma insert_by_confidence_perm (x : DuplicateCandidate)
    (l : list DuplicateCandidate) :
  insert_by_confidence x l ≡ₚ x :: l.
Proof.
  induction l as [|y l IH]; simpl; [done|].
  destruct (Qltb _ _); [|done].
  rewrite IH. apply Permutation_swap.
Qed.

Lemma sort_by_confidence_perm (l : list DuplicateCandidate) :
  sort_by_confidence l ≡ₚ l.
Proof.
  induction l as [|x l IH]; simpl; [done|].
  rewrite insert_by_confidence_perm. by rewrite IH.
Qed.

Lemma insert_by_confidence_sorted (x : DuplicateCandidate)
    (l : list DuplicateCandidate) :
  StronglySorted by_confidence l ->
  StronglySorted by_confidence (insert_by_confidence x l).
Proof.
  induction 1 as [|y l Hs IH Hall]; simpl.
  - constructor; [constructor | constructor].
  - destruct (Qltb (confidence x) (confidence y)) eqn:E.
    + constructor; [done|].
      rewrite Forall_forall. intros z Hz.
      rewrite insert_by_confidence_perm in Hz.
      apply elem_of_cons in Hz as [->|Hz].
      * apply Qltb_lt in E. by apply Qlt_le_weak.
      * rewrite Forall_forall in Hall. by apply Hall.
    + apply Qltb_ge in E. constructor; [by constructor|].
      constructor; [done|].
      rewrite Forall_forall in Hall. rewrite Forall_forall. intros z Hz.
      unfold by_confidence in *. eapply Qle_trans; [by apply Hall | done].
Qed.

Lemma sort_by_confidence_sorted (l : list DuplicateCandidate) :
  StronglySorted by_confidence (sort_by_confidence l).
Proof.
  induction l as [|x l IH]; simpl; [constructor|].
  by apply insert_by_confidence_sorted.
Qed.

Section DictKeys.
Context {K V : Type} `{EqDecision K}.

Lemma dl_append_keys (d : list (K * list V)) (k : K) (v : V) :
  keys (dl_append d k v) =
  if bool_decide (k ∈ keys d) then keys d else keys d ++ [k].
Proof.
  induction d as [|[k' l] d IH]; simpl; [done|].
  destruct (decide (k' = k)) as [->|Hne]; simpl.
  - rewrite bool_decide_eq_true_2; [done | left].
  - change (keys ((k', l) :: dl_append d k v))
      with (k' :: keys (dl_append d k v)).
    change (keys ((k', l) :: d)) with (k' :: keys d).
    rewrite IH. destruct (decide (k ∈ keys d)) as [Hin|Hin].
    + rewrite !bool_decide_eq_true_2; [done | by right | done].
    + rewrite !bool_decide_eq_false_2; [done | | done].
      intros [?|?]%elem_of_cons; [congruence | contradiction].
Qed.

Lemma dl_append_NoDup (d : list (K * list V)) (k : K) (v : V) :
  NoDup (keys d) -> NoDup (keys (dl_append d k v)).
Proof.
  intros Hnd. rewrite dl_append_keys. case_bool_decide as Hin; [done|].
  apply NoDup_app. split; [done|]. split.
  - intros x Hx ->%list_elem_of_singleton. contradiction.
  - apply NoDup_singleton.
Qed.

Lemma dict_elem_get (d : list (K * V)) (k : K) (v : V) :
  NoDup (keys d) -> (k, v) ∈ d -> dict_get d k = Some v.
Proof.
  induction d as [|[k' v'] d IH]; simpl; [by intros _ ?%elem_of_nil|].
  intros [Hnotin Hnd]%NoDup_cons [[= -> ->]|Hin]%elem_of_cons.
  - by rewrite decide_True.
  - rewrite decide_False; [by apply IH|].
    intros ->. apply Hnotin. unfold keys.
    apply list_elem_of_fmap. by exists (k, v).
Qed.

End DictKeys.

Lemma pair_map_get (cands : list DuplicateCandidate) (k : string * string) :
  dict_get (pair_map cands) k =
  match group_of cands k with [] => None | g => Some g end.
Proof.
  unfold pair_map, group_of.
  rewrite (group_fold_get (fun c => Some (pair_key c))) by done. simpl.
  rewrite (List.filter_ext _ (fun c => bool_decide (pair_key c = k))).
  - by destruct (List.filter _ cands).
  - intros c. apply bool_decide_ext. split; congruence.
Qed.

Lemma pair_map_NoDup (cands : list DuplicateCandidate) :
  NoDup (keys (pair_map cands)).
Proof.
  unfold pair_map.
  assert (H : forall d0 : list ((string * string) * list DuplicateCandidate),
            NoDup (keys d0) ->
            NoDup (keys (fold_left (fun d c => dl_append d (pair_key c) c)
                           cands d0))).
  { induction cands as [|c cands IH]; intros d0 Hd0; simpl; [done|].
    apply IH. by apply dl_append_NoDup. }
  apply H. constructor.
Qed.

Lemma pair_map_elem (cands : list DuplicateCandidate) (k : string * string)
    (g : list DuplicateCandidate) :
  (k, g) ∈ pair_map cands <-> g = group_of cands k /\ g <> [].
Proof.
  split.
  - intros Hin. apply dict_elem_get in Hin; [|apply pair_map_NoDup].
    rewrite pair_map_get in Hin.
    destruct (group_of cands k); [done|]. by injection Hin as <-.
  - intros [-> Hne]. apply dict_get_elem. rewrite pair_map_get.
    by destruct (group_of cands k).
Qed.

(** The lists that [pair_map] holds are not empty. *)
Lemma pair_map_nonempty (cands : list DuplicateCandidate)
    (k : string * string) (g : list DuplicateCandidate) :
  (k, g) ∈ pair_map cands -> g <> [].
Proof. by intros [_ ?]%pair_map_elem. Qed.

Lemma merge_elem (order : list string -> list string)
    (cands : list DuplicateCandidate) (df : DataFrame)
    (m : DuplicateCandidate) :
  m ∈ _merge_candidates order cands df <->
  exists k, group_of cands k <> [] /\ m = merge_pair order k (group_of cands k).
Proof.
  unfold _merge_candidates. rewrite sort_by_confidence_perm.
  rewrite list_elem_of_fmap. split.
  - intros ([k g] & -> & [-> Hne]%pair_map_elem). by exists k.
  - intros (k & Hne & ->). exists (k, group_of cands k).
    split; [done|]. by apply pair_map_elem.
Qed.

Lemma group_of_app (l1 l2 : list DuplicateCandidate) (k : string * string) :
  group_of (l1 ++ l2) k = group_of l1 k ++ group_of l2 k.
Proof. apply List.filter_app. Qed.

Lemma group_of_elem (cands : list DuplicateCandidate) (k : string * string)
    (c : DuplicateCandidate) :
  c ∈ group_of cands k <-> c ∈ cands /\ pair_key c = k.
Proof.
  unfold group_of. rewrite !list_elem_of_In, filter_In.
  by rewrite bool_decide_eq_true.
Qed.

Lemma inject_nat_le (n n' : nat) :
  (n <= n')%nat -> (inject_Z (Z.of_nat n) <= inject_Z (Z.of_nat n'))%Q.
Proof. intros H. unfold Qle. simpl. lia. Qed.

Lemma merge_pair_key (order : list string -> list string)
    (k : string * string) (g : list DuplicateCandidate) :
  (sku1 (merge_pair order k g), sku2 (merge_pair order k g)) = k.
Proof. by destruct k. Qed.

Lemma merge_pair_confidence (order : list string -> list string)
    (k : string * string) (g : list DuplicateCandidate) :
  (confidence (merge_pair order k g) ==
   Qmin (max_of (map similarity_score g)
           + 0.1 * inject_Z (Z.of_nat (distinct_reasons g))) 1)%Q.
Proof.
  unfold merge_pair, distinct_reasons. simpl. rewrite min2_Qmin.
  apply Q.min_compat; [|reflexivity]. ring.
Qed.

Lemma merge_pair_mono (order : list string -> list string)
    (k : string * string) (g g' : list DuplicateCandidate) :
  g <> [] -> (forall c, c ∈ g -> c ∈ g') ->
  (confidence (merge_pair order k g) <= confidence (merge_pair order k g'))%Q.
Proof.
  intros Hne Hsub.
  rewrite (merge_pair_confidence order k g), (merge_pair_confidence order k g').
  apply Q.min_le_compat_r.
  assert (Hmax : (max_of (map similarity_score g)
                    <= max_of (map similarity_score g'))%Q).
  { apply max_of_subset; [by destruct g|].
    intros y (c & -> & Hc)%list_elem_of_fmap.
    apply list_elem_of_fmap. exists c. auto. }
  assert (Hn : (inject_Z (Z.of_nat (distinct_reasons g))
                  <= inject_Z (Z.of_nat (distinct_reasons g')))%Q).
  { apply inject_nat_le. unfold distinct_reasons. apply subseteq_size.
    intros r. rewrite !elem_of_list_to_set.
    intros (c & -> & Hc)%list_elem_of_fmap.
    apply list_elem_of_fmap. exists c. auto. }
  lra.
Qed.

(** C3. Every pair that has a candidate has a merged record. The merged
    record of a pair carries as similarity the largest similarity of the
    candidates of the pair and as confidence the minimum of 1 and that
    similarity plus 0.1 for each distinct reason of these candidates. The
    confidence is at most 1, and at least 0 when no candidate of the pair
    has a negative similarity. One more candidate for the pair, wherever it
    stands in the input, does not lower the confidence of the pair, and when
    its reason is new the count of distinct reasons goes up by one. *)
Theorem merged_confidence_formula
    (order : list string -> list string) (df : DataFrame) :
  (forall cands c,
     c ∈ cands ->
     exists m, m ∈ _merge_candidates order cands df
               /\ (sku1 m, sku2 m) = pair_key c)
  /\ (forall cands m,
     m ∈ _merge_candidates order cands df ->
     let group := group_of cands (sku1 m, sku2 m) in
     group <> []
     /\ similarity_score m ∈ map similarity_score group
     /\ (forall c, c ∈ group -> (similarity_score c <= similarity_score m)%Q)
     /\ (confidence m ==
         Qmin (similarity_score m
                 + 0.1 * inject_Z (Z.of_nat (distinct_reasons group))) 1)%Q
     /\ (confidence m <= 1)%Q
     /\ ((forall c, c ∈ group -> (0 <= similarity_score c)%Q) ->
         (0 <= confidence m)%Q))
  /\ (forall cands1 cands2 c m m',
        m ∈ _merge_candidates order (cands1 ++ cands2) df ->
        m' ∈ _merge_candidates order (cands1 ++ c :: cands2) df ->
        (sku1 m, sku2 m) = pair_key c ->
        (sku1 m', sku2 m') = pair_key c ->
        (confidence m <= confidence m')%Q
        /\ (reason c ∉ map reason (group_of (cands1 ++ cands2) (pair_key c)) ->
            distinct_reasons (group_of (cands1 ++ c :: cands2) (pair_key c)) =
            S (distinct_reasons (group_of (cands1 ++ cands2) (pair_key c))))).
Proof.
  split; [|split].
  - intros cands c Hc.
    exists (merge_pair order (pair_key c) (group_of cands (pair_key c))).
    split; [|apply merge_pair_key].
    apply merge_elem. exists (pair_key c). split; [|done].
    intros Hnil. assert (Hin : c ∈ group_of cands (pair_key c))
      by by apply group_of_elem.
    rewrite Hnil in Hin. by apply elem_of_nil in Hin.
  - intros cands m (k & Hne & ->)%merge_elem. simpl.
    replace (k.1, k.2) with k by by destruct k.
    set (g := group_of cands k) in *.
    assert (Hconf := merge_pair_confidence order k g).
    unfold merge_pair in Hconf |- *. simpl in Hconf |- *.
    split; [done|]. split; [apply max_of_elem; by destruct g|].
    split; [intros c Hc; apply max_of_upper, list_elem_of_fmap; eauto|].
    split; [exact Hconf|]. split.
    + rewrite Hconf. apply Q.le_min_r.
    + intros Hpos. rewrite Hconf. apply Q.min_glb; [|done].
      assert (Hm : (0 <= max_of (map similarity_score g))%Q).
      { assert (Hin : max_of (map similarity_score g) ∈ map similarity_score g)
          by (apply max_of_elem; by destruct g).
        apply list_elem_of_fmap in Hin as (c & -> & Hc). by apply Hpos. }
      assert (Hn := inject_nat_le 0 (distinct_reasons g) ltac:(lia)).
      change (inject_Z (Z.of_nat 0)) with 0%Q in Hn. lra.
  - intros cands1 cands2 c m m' (k & Hne & ->)%merge_elem
      (k' & Hne' & ->)%merge_elem.
    rewrite !merge_pair_key. intros -> ->. split.
    + apply merge_pair_mono; [done|].
      intros c0. rewrite !group_of_elem, !elem_of_app, elem_of_cons. tauto.
    + intros Hnew. unfold distinct_reasons.
      rewrite (group_of_app cands1 (c :: cands2)).
      unfold group_of at 2. simpl. rewrite bool_decide_eq_true_2 by done.
      fold (group_of cands2 (pair_key c)).
      rewrite group_of_app in Hnew |- *.
      rewrite !map_app. simpl. rewrite !list_to_set_app_L. simpl.
      rewrite map_app in Hnew.
      assert (Heq : list_to_set (map reason (group_of cands1 (pair_key c)))
                ∪ ({[reason c]} ∪ list_to_set (map reason (group_of cands2 (pair_key c))))
              = ({[reason c]} : gset string)
                ∪ (list_to_set (map reason (group_of cands1 (pair_key c)))
                   ∪ list_to_set (map reason (group_of cands2 (pair_key c))))).
      { apply set_eq. intros x. rewrite !elem_of_union. tauto. }
      rewrite Heq. rewrite size_union.
      * by rewrite size_singleton.
      * apply disjoint_singleton_l. rewrite elem_of_union.
        rewrite !elem_of_list_to_set. rewrite elem_of_app in Hnew. tauto.
Qed.

Lemma merged_confidence_formula_witness :
  (confidence (merge_pair remove_dups ("A", "B") [fuzzy_AB]) ==
   Qmin (0.7 + 0.1 * inject_Z (Z.of_nat 1)) 1)%Q
  /\ (confidence (merge_pair remove_dups ("A", "B") [fuzzy_AB]) <=
      confidence (merge_pair remove_dups ("A", "B") [fuzzy_AB; pattern_BA]))%Q.
Proof.
  pose proof (merged_confidence_formula remove_dups (mkDF [] []))
    as (_ & Hf & Hm).
  split.
  - refine (proj1 (proj2 (proj2 (proj2
      (Hf [fuzzy_AB] (merge_pair remove_dups ("A", "B") [fuzzy_AB]) _))))).
    vm_compute. left.
  - refine (proj1 (Hm [fuzzy_AB] [] pattern_BA
      (merge_pair remove_dups ("A", "B") [fuzzy_AB])
      (merge_pair remove_dups ("A", "B") [fuzzy_AB; pattern_BA]) _ _ _ _)).
    + vm_compute. left.
    + vm_compute. left.
    + reflexivity.
    + reflexivity.
Defined.

(** *** The order of the input *)

Lemma filter_perm {A : Type} (P : A -> bool) (l l' : list A) :
  l ≡ₚ l' -> List.filter P l ≡ₚ List.filter P l'.
Proof.
  induction 1 as [|x l l' _ IH|x y l|l l' l'' _ IH1 _ IH2]; simpl.
  - done.
  - destruct (P x); [by constructor | done].
  - destruct (P x), (P y); try done. apply Permutation_swap.
  - by etransitivity.
Qed.

Lemma max_of_perm (l l' : list Q) : l ≡ₚ l' -> (max_of l == max_of l')%Q.
Proof.
  intros Hp. destruct l as [|x l].
  - apply Permutation_nil_l in Hp. by subst.
  - apply Qle_antisym; apply max_of_subset.
    + done.
    + intros y Hy. by rewrite <- Hp.
    + intros ->. by apply Permutation_nil_r in Hp.
    + intros y Hy. by rewrite Hp.
Qed.

Lemma dict_set_keys {V : Type} (d : list (string * V)) (k a : string) (v : V) :
  a ∈ keys (dict_set d k v) <-> a = k \/ a ∈ keys d.
Proof.
  induction d as [|[k' v'] d IH]; simpl.
  - unfold keys. simpl. rewrite list_elem_of_singleton, elem_of_nil. tauto.
  - destruct (decide (k' = k)) as [->|Hne]; unfold keys in *; simpl.
    + rewrite !elem_of_cons. tauto.
    + rewrite !elem_of_cons, IH. tauto.
Qed.

Lemma dict_update_keys {V : Type} (e d : list (string * V)) (a : string) :
  a ∈ keys (dict_update d e) <-> a ∈ keys d \/ a ∈ keys e.
Proof.
  unfold dict_update. revert d. induction e as [|[k v] e IH]; intros d; simpl.
  - change (keys []) with (@nil string). rewrite elem_of_nil. tauto.
  - change (keys ((k, v) :: e)) with (k :: keys e).
    rewrite IH, dict_set_keys, elem_of_cons. tauto.
Qed.

Lemma all_matches_keys (g : list DuplicateCandidate)
    (d : list (string * bool)) (a : string) :
  a ∈ keys (fold_left (fun d c => dict_update d (matching_attributes c)) g d)
  <-> a ∈ keys d \/ exists c, c ∈ g /\ a ∈ keys (matching_attributes c).
Proof.
  revert d. induction g as [|c g IH]; intros d; simpl.
  - split; [by left|]. intros [?|(c & ?%elem_of_nil & _)]; done.
  - rewrite IH, dict_update_keys. split.
    + intros [[?|?]|(c' & ? & ?)]; [by left| |].
      * right. exists c. split; [left | done].
      * right. exists c'. split; [by right | done].
    + intros [?|(c' & [->|?]%elem_of_cons & ?)].
      * by do 2 left.
      * left. by right.
      * right. by exists c'.
Qed.

Lemma pair_map_keys (cands : list DuplicateCandidate) (k : string * string) :
  k ∈ keys (pair_map cands) <-> exists c, c ∈ cands /\ pair_key c = k.
Proof.
  unfold keys. rewrite list_elem_of_fmap. split.
  - intros ([k' g] & -> & [-> Hne]%pair_map_elem). simpl.
    destruct (group_of cands k') as [|c g] eqn:E; [done|].
    exists c. apply group_of_elem. rewrite E. left.
  - intros (c & Hc & <-). exists (pair_key c, group_of cands (pair_key c)).
    split; [done|]. apply pair_map_elem. split; [done|].
    intros Hnil. assert (Hin : c ∈ group_of cands (pair_key c))
      by by apply group_of_elem.
    rewrite Hnil in Hin. by apply elem_of_nil in Hin.
Qed.

Lemma merge_keys (order : list string -> list string)
    (cands : list DuplicateCandidate) (df : DataFrame) :
  map (fun m => (sku1 m, sku2 m)) (_merge_candidates order cands df)
    ≡ₚ keys (pair_map cands).
Proof.
  unfold _merge_candidates. rewrite sort_by_confidence_perm.
  rewrite map_map. unfold keys.
  rewrite (map_ext _ fst); [done|]. intros [k g]. apply merge_pair_key.
Qed.

(** Two inputs that are permutations of each other are merged into
    different lists. *)
Lemma merge_depends_on_input_order :
  ~ (forall l1 l2 : list DuplicateCandidate,
       l1 ≡ₚ l2 ->
       _merge_candidates remove_dups l1 (mkDF [] []) =
       _merge_candidates remove_dups l2 (mkDF [] [])).
Proof.
  intros H. specialize (H [r_AB; r_CD] [r_CD; r_AB] (Permutation_swap _ _ _)).
  vm_compute in H. discriminate H.
Qed.

(** C2, amended. The merged lists of two inputs that are permutations of
    each other hold the same pairs, each pair once, and are both sorted by
    falling confidence; the two records of a pair have the same similarity
    and the same confidence, name the same matching attributes, and their
    reason texts join the same reasons. (The order of records of equal
    confidence, the truth value kept for an attribute on which candidates
    disagree, and the order of the reasons in the text follow the order of
    the input.) *)
Theorem merge_invariant_under_permutation
    (order : list string -> list string) (df : DataFrame)
    (l1 l2 : list DuplicateCandidate) :
  l1 ≡ₚ l2 ->
  let out1 := _merge_candidates order l1 df in
  let out2 := _merge_candidates order l2 df in
  NoDup (map (fun m => (sku1 m, sku2 m)) out1)
  /\ map (fun m => (sku1 m, sku2 m)) out1
       ≡ₚ map (fun m => (sku1 m, sku2 m)) out2
  /\ StronglySorted by_confidence out1
  /\ StronglySorted by_confidence out2
  /\ forall m1 m2,
       m1 ∈ out1 -> m2 ∈ out2 ->
       (sku1 m1, sku2 m1) = (sku1 m2, sku2 m2) ->
       (similarity_score m1 == similarity_score m2)%Q
       /\ (confidence m1 == confidence m2)%Q
       /\ (forall a, a ∈ keys (matching_attributes m1)
                     <-> a ∈ keys (matching_attributes m2))
       /\ exists rs1 rs2,
            rs1 ≡ₚ rs2
            /\ reason m1 = join "; " (order rs1)
            /\ reason m2 = join "; " (order rs2).
Proof.
  intros Hp out1 out2. unfold out1, out2.
  assert (Hnd : forall l, NoDup (map (fun m => (sku1 m, sku2 m))
                                   (_merge_candidates order l df))).
  { intros l. rewrite merge_keys. apply pair_map_NoDup. }
  split; [apply Hnd|]. split.
  { apply NoDup_Permutation; [apply Hnd | apply Hnd |].
    intros k. rewrite !merge_keys, !pair_map_keys.
    split; intros (c & Hc & Hk); exists c; split; auto.
    - by rewrite <- Hp.
    - by rewrite Hp. }
  split; [apply sort_by_confidence_sorted|].
  split; [apply sort_by_confidence_sorted|].
  intros m1 m2 (k1 & Hne1 & ->)%merge_elem (k2 & Hne2 & ->)%merge_elem.
  rewrite !merge_pair_key. intros <-.
  assert (Hg : group_of l1 k1 ≡ₚ group_of l2 k1) by by apply filter_perm.
  split; [|split; [|split]].
  - unfold merge_pair. simpl. apply max_of_perm. by rewrite Hg.
  - rewrite !merge_pair_confidence.
    assert (Hm := max_of_perm _ _
              (Permutation_map similarity_score Hg)).
    assert (Hn : distinct_reasons (group_of l1 k1)
                 = distinct_reasons (group_of l2 k1)).
    { unfold distinct_reasons. f_equal.
      apply list_to_set_perm_L. by rewrite Hg. }
    rewrite Hn, Hm. reflexivity.
  - intros a. unfold merge_pair. simpl. rewrite !all_matches_keys.
    split; (intros [?|(c & Hc & Ha)]; [by left|]); right; exists c;
      split; auto.
    + by rewrite <- Hg.
    + by rewrite Hg.
  - exists (map reason (group_of l1 k1)), (map reason (group_of l2 k1)).
    split; [by rewrite Hg | done].
Qed.

Lemma merge_invariant_under_permutation_witness :
  let out1 := _merge_candidates remove_dups [r_AB; r_CD] (mkDF [] []) in
  let out2 := _merge_candidates remove_dups [r_CD; r_AB] (mkDF [] []) in
  NoDup (map (fun m => (sku1 m, sku2 m)) out1)
  /\ map (fun m => (sku1 m, sku2 m)) out1
       ≡ₚ map (fun m => (sku1 m, sku2 m)) out2
  /\ StronglySorted by_confidence out1
  /\ StronglySorted by_confidence out2
  /\ forall m1 m2,
       m1 ∈ out1 -> m2 ∈ out2 ->
       (sku1 m1, sku2 m1) = (sku1 m2, sku2 m2) ->
       (similarity_score m1 == similarity_score m2)%Q
       /\ (confidence m1 == confidence m2)%Q
       /\ (forall a, a ∈ keys (matching_attributes m1)
                     <-> a ∈ keys (matching_attributes m2))
       /\ exists rs1 rs2,
            rs1 ≡ₚ rs2
            /\ reason m1 = join "; " (remove_dups rs1)
            /\ reason m2 = join "; " (remove_dups rs2).
Proof.
  apply (merge_invariant_under_permutation remove_dups (mkDF [] [])
           [r_AB; r_CD] [r_CD; r_AB]).
  apply Permutation_swap.
Defined.

(** ** The merge recommendation *)

Lemma value_eqb_refl (v : value) : value_eqb v v = true.
Proof.
  destruct v; simpl; [done | apply String.eqb_refl |].
  apply Qeq_bool_iff. reflexivity.
Qed.

Lemma value_eqb_congr (v w z : value) :
  value_eqb v w = true -> value_eqb v z = value_eqb w z.
Proof.
  destruct v, w; simpl; try discriminate; try done.
  - intros ->%String.eqb_eq. reflexivity.
  - intros Hxy%Qeq_bool_iff. destruct z; try done.
    destruct (Qeq_bool x0 x1) eqn:E.
    + apply Qeq_bool_iff. apply Qeq_bool_iff in E. by rewrite Hxy.
    + destruct (Qeq_bool x x1) eqn:E'; [|done].
      apply Qeq_bool_iff in E'. rewrite Hxy in E'.
      apply Qeq_bool_iff in E'. congruence.
Qed.

Lemma count_congr (l : list value) (v w : value) :
  value_eqb v w = true -> count l v = count l w.
Proof.
  intros H. unfold count. f_equal. apply List.filter_ext.
  intros z. by apply value_eqb_congr.
Qed.

Lemma max_by_spec (f : value -> nat) (l : list value) (best : value) :
  max_by f best l ∈ best :: l
  /\ forall w, w ∈ best :: l -> (f w <= f (max_by f best l))%nat.
Proof.
  unfold max_by. revert best. induction l as [|v l IH]; intros best; simpl.
  - split; [left|]. by intros w ->%list_elem_of_singleton.
  - destruct (IH (if (f best <? f v)%nat then v else best)) as [Hin Hmax].
    destruct (f best <? f v)%nat eqn:E.
    + apply Nat.ltb_lt in E. split.
      * apply elem_of_cons in Hin as [->|Hin]; [right; left | by do 2 right].
      * intros w [->|Hw]%elem_of_cons; [|by apply Hmax].
        specialize (Hmax v ltac:(left)). lia.
    + apply Nat.ltb_ge in E. split.
      * apply elem_of_cons in Hin as [->|Hin]; [left | by do 2 right].
      * intros w [->|[->|Hw]%elem_of_cons]%elem_of_cons.
        -- apply Hmax. left.
        -- specialize (Hmax best ltac:(left)). lia.
        -- apply Hmax. by right.
Qed.

Lemma argmax_from_spec (l pre : list nat) (best_i best : nat) :
  pre !! best_i = Some best ->
  (forall x, x ∈ pre -> (x <= best)%nat) ->
  exists m, (pre ++ l) !! argmax_from (length pre) best_i best l = Some m
            /\ forall x, x ∈ pre ++ l -> (x <= m)%nat.
Proof.
  revert pre best_i best. induction l as [|x l IH]; intros pre bi b Hb Hmax;
    simpl.
  - exists b. rewrite app_nil_r. auto.
  - replace (S (length pre)) with (length (pre ++ [x]))
      by (rewrite length_app; simpl; lia).
    replace (pre ++ x :: l) with ((pre ++ [x]) ++ l)
      by by rewrite <- app_assoc.
    destruct (b <? x)%nat eqn:E.
    + apply Nat.ltb_lt in E. apply IH.
      * rewrite lookup_app_r by done. by rewrite Nat.sub_diag.
      * intros y [Hy| ->%list_elem_of_singleton]%elem_of_app; [|done].
        specialize (Hmax y Hy). lia.
    + apply Nat.ltb_ge in E. apply IH.
      * apply lookup_app_l_Some. done.
      * intros y [Hy| ->%list_elem_of_singleton]%elem_of_app; auto.
Qed.

Lemma argmax_spec (l : list nat) :
  l <> [] ->
  exists i m, argmax l = Some i /\ l !! i = Some m
              /\ forall x, x ∈ l -> (x <= m)%nat.
Proof.
  destruct l as [|x l]; [done|]. intros _. simpl.
  destruct (argmax_from_spec l [x] 0 x) as (m & Hm & Hmax).
  - reflexivity.
  - by intros y ->%list_elem_of_singleton.
  - exists (argmax_from 1 0 x l), m. auto.
Qed.

Lemma sum_values_spec (l : list value) (acc : Q) :
  Forall (fun v => is_number v = true) l ->
  sum_values acc l = Some (fold_left Qplus (numbers l) acc).
Proof.
  revert acc. induction l as [|v l IH]; intros acc Hall; simpl; [done|].
  inversion Hall as [|? ? Hv Hl]; subst. destruct v; try discriminate.
  simpl. by apply IH.
Qed.

Lemma sum_values_numbers (l : list value) (acc t : Q) :
  sum_values acc l = Some t -> Forall (fun v => is_number v = true) l.
Proof.
  revert acc. induction l as [|v l IH]; intros acc; simpl; [constructor|].
  destruct v; try discriminate. intros H. constructor; [done|]. by eapply IH.
Qed.

(** The value that the loop keeps for a key. *)
Lemma merged_value_spec (order : list value -> list value)
    (products : list product) (key : string) :
  visits_inserted order ->
  let values := values_of products key in
  match merged_value order products key with
  | None => values = []
  | Some v =>
      values <> []
      /\ (if String.eqb key "price" && forallb is_number values
          then v = VNum (mean (numbers values))
          else v ∈ values
               /\ forall w, w ∈ values ->
                    (count values w <= count values v)%nat)
  end.
Proof.
  intros Hord values. unfold merged_value. fold (values_of products key).
  fold values. destruct values as [|v0 vs] eqn:Ev; [done|].
  rewrite <- Ev. assert (Hne : values <> []) by by rewrite Ev.
  destruct (String.eqb key "price" && forallb is_number values); [done|].
  destruct (Hord values) as [Hsub Hrep].
  destruct (order values) as [|b rest] eqn:Eo.
  - destruct (Hrep v0) as (y & Hy & _); [rewrite Ev; left|].
    by apply elem_of_nil in Hy.
  - split; [done|].
    destruct (max_by_spec (count values) rest b) as [Hin Hmax].
    split; [by apply Hsub|].
    intros w Hw. destruct (Hrep w Hw) as (y & Hy & Heq).
    rewrite (count_congr values w y Heq). by apply Hmax.
Qed.

Lemma merged_attributes_get (order : list value -> list value)
    (products : list product) (ks : list string)
    (acc : list (string * value)) (key : string) :
  dict_get
    (fold_left (fun merged key =>
        if bool_decide (key ∉ ["sku"; "inventory_count"]) then
          match merged_value order products key with
          | Some v => dict_set merged key v
          | None => merged
          end
        else merged) ks acc) key =
  if bool_decide (key ∈ ks /\ key ∉ ["sku"; "inventory_count"]) then
    match merged_value order products key with
    | Some v => Some v
    | None => dict_get acc key
    end
  else dict_get acc key.
Proof.
  revert acc. induction ks as [|k ks IH]; intros acc; cbn [fold_left].
  - rewrite bool_decide_eq_false_2; [done|]. by intros [?%elem_of_nil _].
  - rewrite IH. clear IH.
    destruct (decide (k = key)) as [->|Hne].
    + destruct (decide (key ∉ ["sku"; "inventory_count"])) as [Hok|Hbad].
      * rewrite (bool_decide_eq_true_2 (key ∉ _)) by done.
        rewrite (bool_decide_eq_true_2 (key ∈ key :: ks /\ _))
          by (split; [left | done]).
        destruct (merged_value order products key) as [v|]; [|by case_bool_decide].
        rewrite dict_set_get, decide_True by done. by case_bool_decide.
      * rewrite (bool_decide_eq_false_2 (key ∉ _)) by done.
        rewrite !bool_decide_eq_false_2; [done | tauto | tauto].
    + assert (Hget : dict_get
                (if bool_decide (k ∉ ["sku"; "inventory_count"])
                 then match merged_value order products k with
                      | Some v => dict_set acc k v
                      | None => acc
                      end
                 else acc) key = dict_get acc key).
      { case_bool_decide; [|done].
        destruct (merged_value order products k); [|done].
        by rewrite dict_set_get, decide_False. }
      rewrite Hget.
      rewrite (bool_decide_ext (key ∈ ks /\ key ∉ ["sku"; "inventory_count"])
                 (key ∈ k :: ks /\ key ∉ ["sku"; "inventory_count"])); [done|].
      rewrite (elem_of_cons ks key k).
      split; [tauto|]. intros [[?|?] ?]; [congruence|tauto].
Qed.

Lemma first_seen_visits_inserted : visits_inserted first_seen.
Proof.
  intros l. induction l as [|v l [IH1 IH2]]; simpl.
  - split; [done|]. by intros x ?%elem_of_nil.
  - split.
    + intros x [->|Hx]%elem_of_cons; [left|].
      apply list_elem_of_In, filter_In in Hx as [Hx _].
      right. by apply IH1, list_elem_of_In.
    + intros x [->|Hx]%elem_of_cons.
      * exists v. split; [left | apply value_eqb_refl].
      * destruct (IH2 x Hx) as (y & Hy & Hxy).
        destruct (value_eqb v y) eqn:E.
        -- exists v. split; [left|].
           rewrite <- (value_eqb_refl v).
           rewrite (value_eqb_congr v y v E).
           by rewrite (value_eqb_congr x y v Hxy).
        -- exists y. split; [|done]. right.
           apply list_elem_of_In, filter_In. rewrite E.
           split; [by apply list_elem_of_In | done].
Qed.

(** The tie between the two ranks goes to the value that the set gives
    first, not to the value of the primary record. *)
Lemma tie_not_broken_towards_primary :
  exists rec primary,
    _create_merge_recommendation first_seen tie_products = Some rec
    /\ tie_products !! 1%nat = Some primary
    /\ dict_get primary "sku" = Some (primary_sku rec)
    /\ count (values_of tie_products "rank") (get primary "rank")
       = count (values_of tie_products "rank") (VNum 0)
    /\ dict_get (merged_attributes rec) "rank" = Some (VNum 0)
    /\ dict_get (merged_attributes rec) "rank" <> Some (get primary "rank").
Proof.
  eexists _, _. split; [vm_compute; reflexivity|].
  split; [reflexivity|]. vm_compute. repeat split. discriminate.
Qed.

Lemma create_merge_recommendation_unfold (order : list value -> list value)
    (products : list product) :
  _create_merge_recommendation order products =
  (primary_idx ← argmax (map completeness products);
   primary_product ← products !! primary_idx;
   total_inventory ← sum_values 0 (map inventory_or_zero products);
   primary ← dict_get primary_product "sku";
   skus ← mapM (fun p : product => dict_get p "sku") products;
   Some (mkRecommendation primary skus total_inventory
           (fold_left (fun merged key =>
              if bool_decide (key ∉ ["sku"; "inventory_count"]) then
                match merged_value order products key with
                | Some v => dict_set merged key v
                | None => merged
                end
              else merged) (keys primary_product) [])
           ("$" ++ pretty ((length products - 1) * 50)%nat ++ ".00")%string)).
Proof. reflexivity. Qed.

(** C9, amended. For a group that is not empty, where every inventory count
    that is present is a number and every product has a SKU, the
    recommendation exists; its primary record is a product of the group of
    the largest completeness; total_inventory is the sum of the inventory
    counts, an absent one counting as 0. merged_attributes holds a value for
    a field exactly when the field is a field of the primary record other
    than sku and inventory_count and some member has a value for it that is
    not None; for price, when all these values are numbers, it is their
    arithmetic mean; for every other field it is one of these values and no
    value occurs more often among the members (which of several most
    frequent values it is follows the iteration order of the set of the
    values, not the primary record). *)
Theorem merge_recommendation_attributes
    (order : list value -> list value) (products : list product) :
  visits_inserted order ->
  products <> [] ->
  Forall (fun p => is_number (inventory_or_zero p) = true) products ->
  Forall (fun p => is_Some (dict_get p "sku")) products ->
  exists rec primary,
    _create_merge_recommendation order products = Some rec
    /\ primary ∈ products
    /\ (forall p, p ∈ products -> (completeness p <= completeness primary)%nat)
    /\ dict_get primary "sku" = Some (primary_sku rec)
    /\ total_inventory rec =
       fold_left Qplus (numbers (map inventory_or_zero products)) 0%Q
    /\ (forall key,
         let values := values_of products key in
         match dict_get (merged_attributes rec) key with
         | None =>
             key ∉ keys primary \/ key ∈ ["sku"; "inventory_count"]
             \/ values = []
         | Some v =>
             key ∈ keys primary /\ (key ∉ ["sku"; "inventory_count"])
             /\ values <> []
             /\ (if String.eqb key "price" && forallb is_number values
                 then v = VNum (mean (numbers values))
                 else v ∈ values
                      /\ forall w, w ∈ values ->
                           (count values w <= count values v)%nat)
         end).
Proof.
  intros Hord Hne Hinv Hsku.
  destruct (argmax_spec (map completeness products)) as (i & m & Hi & Hm & Hmax).
  { by destruct products. }
  rewrite list_lookup_fmap in Hm.
  destruct (products !! i) as [primary|] eqn:Hp; [|done].
  injection Hm as <-.
  assert (Hprim : primary ∈ products) by by eapply list_elem_of_lookup_2.
  assert (Hs : is_Some (dict_get primary "sku")).
  { rewrite Forall_forall in Hsku. by apply Hsku. }
  destruct Hs as [s Hs].
  assert (Hskus : is_Some (mapM (fun p : product => dict_get p "sku") products)).
  { apply mapM_is_Some. exact Hsku. }
  destruct Hskus as [skus Hskus].
  assert (Hinv' : Forall (fun v => is_number v = true)
                    (map inventory_or_zero products)).
  { apply Forall_forall. intros v (p & -> & Hpin)%list_elem_of_fmap.
    rewrite Forall_forall in Hinv. by apply Hinv. }
  eexists _, primary. split.
  { rewrite create_merge_recommendation_unfold. unfold product in *.
    rewrite Hi. simpl. rewrite Hp. simpl.
    rewrite (sum_values_spec _ 0%Q Hinv'). simpl.
    rewrite Hs. simpl. rewrite Hskus. simpl. reflexivity. }
  cbn [primary_sku total_inventory merged_attributes].
  split; [done|]. split.
  { intros p Hin. apply Hmax. apply list_elem_of_fmap. by exists p. }
  split; [exact Hs|]. split; [reflexivity|].
  intros key. set (values := values_of products key).
  rewrite merged_attributes_get. cbn [dict_get].
  pose proof (merged_value_spec order products key Hord) as Hmv.
  cbv zeta in Hmv. fold values in Hmv.
  case_bool_decide as Hk.
  - destruct Hk as [Hk1 Hk2].
    destruct (merged_value order products key) as [v|]; [|tauto].
    destruct Hmv as [Hv Hrest]. auto.
  - apply not_and_l in Hk as [Hk|Hk]; [by left|].
    right. left. by apply dec_stable.
Qed.

Lemma merge_recommendation_attributes_witness :
  exists rec primary,
    _create_merge_recommendation first_seen scenario_group = Some rec
    /\ primary ∈ scenario_group
    /\ (forall p, p ∈ scenario_group ->
          (completeness p <= completeness primary)%nat)
    /\ dict_get primary "sku" = Some (primary_sku rec)
    /\ total_inventory rec =
       fold_left Qplus (numbers (map inventory_or_zero scenario_group)) 0%Q
    /\ (forall key,
         let values := values_of scenario_group key in
         match dict_get (merged_attributes rec) key with
         | None =>
             key ∉ keys primary \/ key ∈ ["sku"; "inventory_count"]
             \/ values = []
         | Some v =>
             key ∈ keys primary /\ (key ∉ ["sku"; "inventory_count"])
             /\ values <> []
             /\ (if String.eqb key "price" && forallb is_number values
                 then v = VNum (mean (numbers values))
                 else v ∈ values
                      /\ forall w, w ∈ values ->
                           (count values w <= count values v)%nat)
         end).
Proof.
  apply (merge_recommendation_attributes first_seen scenario_group).
  - apply first_seen_visits_inserted.
  - discriminate.
  - repeat constructor.
  - repeat constructor; eexists; reflexivity.
Defined.

(** ** Grouping: the traversal *)

#[local] Set Warnings "-clear-no-such-hyp".

Section Traversal.
Variable order : list string -> list string.
Hypothesis order_elem : forall l x, x ∈ order l <-> x ∈ l.
Variable graph : list (string * list string).

Hypothesis adj_nodes : forall x y, adj graph x y -> y ∈ nodes graph.
Hypothesis adj_sym : forall x y, adj graph x y -> adj graph y x.

Lemma dfs_new (fuel : nat) (node : string) (st : gset string * gset string) :
  exists N : gset string,
    dfs order graph fuel node st = (st.1 ∪ N, st.2 ∪ N)
    /\ forall y, y ∈ N -> (y ∉ st.1) /\ rtc (adj graph) node y.
Proof.
  revert node st. induction fuel as [|fuel IH]; intros node [vis grp].
  - exists ∅. simpl. split; [|set_solver]. f_equal; set_solver.
  - simpl. destruct (decide (node ∈ vis)) as [Hin|Hnotin].
    + exists ∅. simpl. split; [|set_solver]. f_equal; set_solver.
    + assert (Hfold : forall l st',
                (forall z, z ∈ l -> adj graph node z) ->
                exists N : gset string,
                  fold_left (fun st' nb => dfs order graph fuel nb st') l st'
                  = (st'.1 ∪ N, st'.2 ∪ N)
                  /\ forall y, y ∈ N -> (y ∉ st'.1) /\ rtc (adj graph) node y).
      { induction l as [|z l IHl]; intros [v g] Hl.
        - exists ∅. simpl. split; [|set_solver]. f_equal; set_solver.
        - simpl. destruct (IH z (v, g)) as (N1 & E1 & H1).
          simpl in E1, H1. rewrite E1.
          destruct (IHl (v ∪ N1, g ∪ N1)) as (N2 & E2 & H2).
          { intros w Hw. apply Hl. by right. }
          simpl in E2, H2.
          exists (N1 ∪ N2). rewrite E2. split.
          { f_equal; set_solver. }
          intros y [Hy|Hy]%elem_of_union.
          + destruct (H1 y Hy) as [Hv Hr]. split; [done|].
            eapply rtc_l; [|exact Hr]. apply Hl. left.
          + destruct (H2 y Hy) as [Hv Hr]. split; [|done]. set_solver. }
      destruct (Hfold (order (adjacent graph node))
                  (vis ∪ {[node]}, grp ∪ {[node]})) as (N & E & HN).
      { intros z Hz. unfold adj. by apply order_elem. }
      simpl in E, HN. exists ({[node]} ∪ N). rewrite E. split.
      { f_equal; set_solver. }
      intros y [->%elem_of_singleton|Hy]%elem_of_union; [done|].
      destruct (HN y Hy) as [Hv Hr]. split; [set_solver | done].
Qed.

Lemma dfs_closed (fuel : nat) (node : string) (st : gset string * gset string)
    (P : gset string) :
  node ∈ nodes graph ->
  st.1 ⊆ nodes graph ->
  size (nodes graph ∖ st.1) <= fuel ->
  closed_except graph P st.1 ->
  node ∈ (dfs order graph fuel node st).1
  /\ closed_except graph P (dfs order graph fuel node st).1
  /\ (dfs order graph fuel node st).1 ⊆ nodes graph.
Proof.
  revert node st P. induction fuel as [|fuel IH];
    intros node [vis grp] P Hnode Hsub Hsize Hclosed; simpl in *.
  - split; [|done].
    assert (Hempty : nodes graph ∖ vis = ∅).
    { apply leibniz_equiv, size_empty_iff. lia. }
    destruct (decide (node ∈ vis)); [done|]. set_solver.
  - destruct (decide (node ∈ vis)) as [Hin|Hnotin]; [done|].
    assert (Hfold : forall l st',
              (forall z, z ∈ l -> adj graph node z) ->
              st'.1 ⊆ nodes graph ->
              size (nodes graph ∖ st'.1) <= fuel ->
              closed_except graph (P ∪ {[node]}) st'.1 ->
              let out :=
                fold_left (fun st' nb => dfs order graph fuel nb st') l st' in
              st'.1 ⊆ out.1 /\ (forall z, z ∈ l -> z ∈ out.1)
              /\ closed_except graph (P ∪ {[node]}) out.1 /\ out.1 ⊆ nodes graph).
    { induction l as [|z l IHl]; intros st' Hl Hs Hsz Hcl; simpl.
      - split; [done|]. split; [by intros z ?%elem_of_nil | done].
      - destruct (IH z st' (P ∪ {[node]})) as (Hz & Hcl' & Hs'); auto.
        { eapply adj_nodes, Hl. left. }
        destruct (dfs_new fuel z st') as (N & E & _).
        assert (Hmono : st'.1 ⊆ (dfs order graph fuel z st').1).
        { rewrite E. simpl. set_solver. }
        destruct (IHl (dfs order graph fuel z st')) as (H1 & H2 & H3 & H4);
          auto.
        { intros w Hw. apply Hl. by right. }
        { etransitivity; [|exact Hsz]. apply subseteq_size. set_solver. }
        split; [set_solver|]. split; [|done].
        intros w [->|Hw]%elem_of_cons; [set_solver | by apply H2]. }
    destruct (Hfold (order (adjacent graph node))
                (vis ∪ {[node]}, grp ∪ {[node]})) as (H1 & H2 & H3 & H4).
    + intros z Hz. unfold adj. by apply order_elem.
    + simpl. set_solver.
    + simpl. assert (Hlt : size (nodes graph ∖ (vis ∪ {[node]})) < size (nodes graph ∖ vis)).
      { apply subset_size. set_solver. }
      lia.
    + simpl. intros x y Hx HxP Hxy. apply elem_of_union. left.
      apply (Hclosed x y); set_solver.
    + simpl in *. split; [set_solver|]. split; [|done].
      intros x y Hx HxP Hxy. destruct (decide (x = node)) as [->|Hne].
      * apply H2. by apply order_elem.
      * apply (H3 x y); [done | set_solver | done].
Qed.

End Traversal.

(** ** Grouping: the graph *)

Lemma set_add_elem (s : list string) (v y : string) :
  y ∈ set_add s v <-> y ∈ s \/ y = v.
Proof.
  unfold set_add. case_bool_decide as Hin.
  - split; [by left|]. intros [?| ->]; done.
  - rewrite elem_of_app, list_elem_of_singleton. tauto.
Qed.

Lemma graph_add_adjacent (g : list (string * list string)) (k v x y : string) :
  y ∈ adjacent (graph_add g k v) x <-> y ∈ adjacent g x \/ (x = k /\ y = v).
Proof.
  unfold adjacent. induction g as [|[k' s] g IH]; simpl.
  - destruct (decide (k = x)) as [->|Hne].
    + rewrite list_elem_of_singleton, elem_of_nil. tauto.
    + rewrite elem_of_nil. split; [done|]. intros [?|[-> _]]; done.
  - destruct (decide (k' = k)) as [->|Hne]; simpl.
    + destruct (decide (k = x)) as [->|Hne'].
      * rewrite set_add_elem. tauto.
      * split; [by left|]. intros [?|[-> _]]; done.
    + destruct (decide (k' = x)) as [->|Hne'].
      * split; [by left|]. intros [?|[-> _]]; done.
      * exact IH.
Qed.

Lemma graph_add_keys (g : list (string * list string)) (k v : string) :
  keys (graph_add g k v) =
  if bool_decide (k ∈ keys g) then keys g else keys g ++ [k].
Proof.
  induction g as [|[k' s] g IH]; simpl; [done|].
  destruct (decide (k' = k)) as [->|Hne].
  - rewrite bool_decide_eq_true_2; [done | left].
  - change (keys ((k', s) :: graph_add g k v))
      with (k' :: keys (graph_add g k v)).
    change (keys ((k', s) :: g)) with (k' :: keys g).
    rewrite IH. destruct (decide (k ∈ keys g)) as [Hin|Hin].
    + rewrite !bool_decide_eq_true_2; [done | by right | done].
    + rewrite !bool_decide_eq_false_2; [done | | done].
      intros [?|?]%elem_of_cons; [congruence | contradiction].
Qed.

Lemma graph_add_wf (g : list (string * list string)) (k v : string) :
  graph_wf g -> graph_wf (graph_add g k v).
Proof.
  intros [Hnd Hkeys]. split.
  - rewrite graph_add_keys. case_bool_decide as Hin; [done|].
    apply NoDup_app. split; [done|]. split; [|apply NoDup_singleton].
    intros x Hx ->%list_elem_of_singleton. contradiction.
  - intros x. rewrite graph_add_keys. split.
    + intros Hx.
      assert (Hx' : x ∈ keys g \/ x = k).
      { case_bool_decide; [by left|].
        apply elem_of_app in Hx as [?| ->%list_elem_of_singleton]; auto. }
      destruct Hx' as [Hx'| ->].
      * apply Hkeys in Hx' as [y Hy]. exists y.
        apply graph_add_adjacent. by left.
      * exists v. apply graph_add_adjacent. by right.
    + intros [y [Hy|[-> ->]]%graph_add_adjacent].
      * assert (x ∈ keys g) by (apply Hkeys; by exists y).
        case_bool_decide; [done|]. apply elem_of_app. by left.
      * case_bool_decide; [done|]. apply elem_of_app. right. left.
Qed.

Lemma build_graph_from (hc : list DuplicateCandidate)
    (g0 : list (string * list string)) :
  graph_wf g0 ->
  let g := fold_left (fun graph c =>
             graph_add (graph_add graph (sku1 c) (sku2 c)) (sku2 c) (sku1 c))
             hc g0 in
  graph_wf g
  /\ forall x y, y ∈ adjacent g x <->
       y ∈ adjacent g0 x \/ exists c, c ∈ hc /\ joins c x y.
Proof.
  revert g0. induction hc as [|c hc IH]; intros g0 Hwf; simpl.
  - split; [done|]. intros x y. split; [by left|].
    intros [?|(c & ?%elem_of_nil & _)]; done.
  - destruct (IH (graph_add (graph_add g0 (sku1 c) (sku2 c)) (sku2 c) (sku1 c)))
      as [Hwf' Hadj].
    { by do 2 apply graph_add_wf. }
    split; [exact Hwf'|]. intros x y. rewrite Hadj, !graph_add_adjacent.
    unfold joins. split.
    + intros [[[?|[-> ->]]|[-> ->]]|(c' & Hc' & Hj)].
      * by left.
      * right. exists c. split; [left | by left].
      * right. exists c. split; [left | by right].
      * right. exists c'. split; [by right | done].
    + intros [?|(c' & [->|Hc']%elem_of_cons & Hj)].
      * by do 3 left.
      * left. destruct Hj as [[<- <-]|[<- <-]]; [left; by right | by right].
      * right. by exists c'.
Qed.

Lemma build_graph_spec (hc : list DuplicateCandidate) :
  graph_wf (build_graph hc)
  /\ forall x y, y ∈ adjacent (build_graph hc) x <->
       exists c, c ∈ hc /\ joins c x y.
Proof.
  destruct (build_graph_from hc []) as [Hwf Hadj].
  { split; [constructor|]. intros x. split; [by intros ?%elem_of_nil|].
    by intros [y ?%elem_of_nil]. }
  split; [exact Hwf|]. intros x y. unfold build_graph. rewrite Hadj.
  split; [|by right]. intros [?%elem_of_nil|?]; done.
Qed.

(** ** Grouping: the loop over the nodes *)

Section Components.
Variable order : list string -> list string.
Hypothesis order_elem : forall l x, x ∈ order l <-> x ∈ l.
Variable graph : list (string * list string).
Hypothesis keys_nodup : NoDup (keys graph).
Hypothesis adj_nodes : forall x y, adj graph x y -> y ∈ nodes graph.
Hypothesis adj_sym : forall x y, adj graph x y -> adj graph y x.

Lemma reach_sym (x y : string) : rtc (adj graph) x y -> rtc (adj graph) y x.
Proof.
  induction 1 as [|x z y Hxz _ IH]; [done|].
  eapply rtc_r; [exact IH|]. by apply adj_sym.
Qed.

Lemma closed_reach (S : gset string) (x y : string) :
  closed_except graph ∅ S -> x ∈ S -> rtc (adj graph) x y -> y ∈ S.
Proof.
  intros Hcl Hx Hr. induction Hr as [|x z y Hxz _ IH]; [done|].
  apply IH. apply (Hcl x z); [done | set_solver | done].
Qed.

Lemma visit_spec (acc : gset string * list (gset string)) (node : string) :
  components_so_far graph acc -> node ∈ nodes graph ->
  components_so_far graph (visit order graph acc node)
  /\ node ∈ (visit order graph acc node).1
  /\ acc.1 ⊆ (visit order graph acc node).1.
Proof.
  destruct acc as [vis groups].
  intros (Hcl & Hsub & Hcover & Hdisj & Hcomp & Hfull) Hnode.
  unfold visit. simpl in *.
  destruct (decide (node ∈ vis)) as [Hin|Hnotin].
  { split; [|split; [done | set_solver]].
    repeat split; auto; by apply Hcover || by apply Hcomp. }
  destruct (dfs_new order order_elem graph adj_nodes adj_sym (length graph)
              node (vis, ∅)) as (N & E & HN).
  destruct (dfs_closed order order_elem graph adj_nodes adj_sym
              (length graph) node (vis, ∅) ∅) as (Hn & Hcl' & Hsub');
    simpl; auto.
  { transitivity (size (nodes graph)).
    - apply subseteq_size. set_solver.
    - unfold nodes. rewrite size_list_to_set by done.
      unfold keys. by rewrite length_map. }
  rewrite E in *. simpl in *.
  replace (∅ ∪ N) with N by set_solver.
  assert (HnodeN : node ∈ N) by set_solver.
  assert (HNreach : forall y, y ∈ N <-> rtc (adj graph) node y).
  { intros y. split; [intros Hy; apply (HN y Hy)|]. intros Hr.
    assert (Hy : y ∈ vis ∪ N) by by eapply closed_reach.
    apply elem_of_union in Hy as [Hy|Hy]; [|done].
    exfalso. apply Hnotin. eapply closed_reach; [exact Hcl | exact Hy |].
    by apply reach_sym. }
  split; [|split; [done | set_solver]].
  split; [done|]. split; [done|]. split; [|split; [|split]]; simpl.
  - intros x. rewrite elem_of_union, Hcover. split.
    + intros [(g & Hg & Hx)|Hx].
      * exists g. split; [apply elem_of_app; by left | done].
      * exists N. split; [apply elem_of_app; right; left | done].
    + intros (g & [Hg| ->%list_elem_of_singleton]%elem_of_app & Hx).
      * left. by exists g.
      * by right.
  - intros i j g h x Hi Hj Hg Hh.
    assert (Hold : forall k f, groups !! k = Some f -> x ∈ f -> x ∈ vis).
    { intros k f Hk Hf. apply Hcover. exists f.
      split; [by eapply list_elem_of_lookup_2 | done]. }
    assert (Hlast : forall k f, (groups ++ [N]) !! k = Some f ->
              (groups !! k = Some f) \/ (k = length groups /\ f = N)).
    { intros k f Hk. apply lookup_app_Some in Hk as [Hk|[Hlen Hk]]; [by left|].
      right. apply list_lookup_singleton_Some in Hk as [Hk <-].
      split; [lia | done]. }
    destruct (Hlast i g Hi) as [Hi'|[-> ->]];
      destruct (Hlast j h Hj) as [Hj'|[-> ->]].
    + by eapply Hdisj.
    + exfalso. destruct (HN x Hh) as [Hx _]. apply Hx. by eapply Hold.
    + exfalso. destruct (HN x Hg) as [Hx _]. apply Hx. by eapply Hold.
    + done.
  - intros g x [Hg| ->%list_elem_of_singleton]%elem_of_app Hx y.
    + by apply Hcomp.
    + rewrite HNreach. apply HNreach in Hx. split; intros Hr.
      * etransitivity; [by apply reach_sym | done].
      * by etransitivity.
  - intros g [Hg| ->%list_elem_of_singleton]%elem_of_app.
    + by apply Hfull.
    + by exists node.
Qed.

Lemma visit_all (ks : list string) (acc : gset string * list (gset string)) :
  components_so_far graph acc ->
  (forall k, k ∈ ks -> k ∈ nodes graph) ->
  components_so_far graph (fold_left (visit order graph) ks acc)
  /\ (forall k, k ∈ ks -> k ∈ (fold_left (visit order graph) ks acc).1)
  /\ acc.1 ⊆ (fold_left (visit order graph) ks acc).1.
Proof.
  revert acc. induction ks as [|k ks IH]; intros acc Hinv Hks; simpl.
  - split; [done|]. split; [by intros k ?%elem_of_nil | done].
  - destruct (visit_spec acc k Hinv) as (Hinv' & Hk & Hmono).
    { apply Hks. left. }
    destruct (IH (visit order graph acc k) Hinv') as (H1 & H2 & H3).
    { intros k' Hk'. apply Hks. by right. }
    split; [done|]. split; [|set_solver].
    intros k' [->|Hk']%elem_of_cons; [set_solver | by apply H2].
Qed.

Lemma components_start : components_so_far graph (∅, []).
Proof.
  clear. repeat split; simpl; try done; try set_solver.
Qed.

End Components.

(** ** Grouping: the groups are the connected components *)

Lemma group_duplicates_unfold (order : list string -> list string)
    (cands : list DuplicateCandidate) (min_confidence : Q) :
  group_duplicates order cands min_confidence =
  (fold_left (visit order (build_graph (high_confidence cands min_confidence)))
     (keys (build_graph (high_confidence cands min_confidence))) (∅, [])).2.
Proof. reflexivity. Qed.

Lemma adj_surviving (cands : list DuplicateCandidate) (min_confidence : Q)
    (x y : string) :
  adj (build_graph (high_confidence cands min_confidence)) x y
  <-> surviving_edge cands min_confidence x y.
Proof.
  unfold adj, surviving_edge.
  rewrite (proj2 (build_graph_spec _)). unfold high_confidence.
  split; intros (c & Hc & Hj); exists c.
  - apply list_elem_of_In, filter_In in Hc as [Hc Hq].
    apply Qle_bool_iff in Hq. by rewrite list_elem_of_In.
  - destruct Hj as [Hq Hj]. split; [|done].
    apply list_elem_of_In, filter_In. rewrite <- list_elem_of_In.
    by rewrite Qle_bool_iff.
Qed.

Lemma joins_sym (c : DuplicateCandidate) (x y : string) :
  joins c x y -> joins c y x.
Proof. unfold joins. tauto. Qed.

Lemma reach_linked (cands : list DuplicateCandidate) (min_confidence : Q)
    (x y : string) :
  rtc (adj (build_graph (high_confidence cands min_confidence))) x y
  <-> linked cands min_confidence x y.
Proof.
  unfold linked.
  split; apply rtc_subrel; intros a b; apply adj_surviving.
Qed.

(** C1. For every list of candidates and every threshold, whatever the
    order in which the neighbours of a node are visited: no SKU is in two
    groups; a group is not empty; every SKU of a group is an end of a
    surviving edge, and the group is the set of the SKUs linked to it by a
    chain of surviving edges; the two ends of a surviving edge are together
    in some group, so a SKU without a surviving edge is in no group and every
    SKU with one is in a group. For candidates (a, b) and (b, c) at 0.9 and
    the threshold 0.85, a and c are in one group. *)
Theorem groups_are_connected_components
    (order : list string -> list string)
    (cands : list DuplicateCandidate) (min_confidence : Q) :
  (forall l x, x ∈ order l <-> x ∈ l) ->
  let groups := group_duplicates order cands min_confidence in
  (forall i j g h x,
     groups !! i = Some g -> groups !! j = Some h -> x ∈ g -> x ∈ h -> i = j)
  /\ (forall g, g ∈ groups -> exists x, x ∈ g)
  /\ (forall g x, g ∈ groups -> x ∈ g ->
        (exists y, surviving_edge cands min_confidence x y)
        /\ forall y, y ∈ g <-> linked cands min_confidence x y)
  /\ (forall x y, surviving_edge cands min_confidence x y ->
        exists g, g ∈ groups /\ x ∈ g /\ y ∈ g)
  /\ (forall a b c,
        exists g, g ∈ group_duplicates order [pair_at a b 0.9; pair_at b c 0.9] 0.85
                  /\ a ∈ g /\ c ∈ g).
Proof.
  intros Horder.
  assert (Hgen : forall cands min_confidence,
    let groups := group_duplicates order cands min_confidence in
    (forall i j g h x,
       groups !! i = Some g -> groups !! j = Some h -> x ∈ g -> x ∈ h -> i = j)
    /\ (forall g, g ∈ groups -> exists x, x ∈ g)
    /\ (forall g x, g ∈ groups -> x ∈ g ->
          (exists y, surviving_edge cands min_confidence x y)
          /\ forall y, y ∈ g <-> linked cands min_confidence x y)
    /\ (forall x y, surviving_edge cands min_confidence x y ->
          exists g, g ∈ groups /\ x ∈ g /\ y ∈ g)).
  { clear cands min_confidence. intros cands min_confidence groups.
    unfold groups. rewrite group_duplicates_unfold.
    set (graph := build_graph (high_confidence cands min_confidence)).
    destruct (build_graph_spec (high_confidence cands min_confidence))
      as [[Hnd Hkeys] Hadj]. fold graph in Hnd, Hkeys, Hadj.
    assert (Hsym : forall x y, adj graph x y -> adj graph y x).
    { intros x y. unfold adj. rewrite !Hadj.
      intros (c & Hc & Hj). exists c. split; [done | by apply joins_sym]. }
    assert (Hnodes : forall x, x ∈ nodes graph <-> exists y, adj graph x y).
    { intros x. unfold nodes. rewrite elem_of_list_to_set. apply Hkeys. }
    assert (Hadjn : forall x y, adj graph x y -> y ∈ nodes graph).
    { intros x y Hxy. apply Hnodes. exists x. by apply Hsym. }
    destruct (visit_all order Horder graph Hnd Hadjn Hsym (keys graph) (∅, []))
      as ((Hcl & Hsub & Hcover & Hdisj & Hcomp & Hfull) & Hall & _).
    { apply components_start. }
    { intros k Hk. unfold nodes. by apply elem_of_list_to_set. }
    set (out := fold_left (visit order graph) (keys graph) (∅, [])) in *.
    split; [exact Hdisj|]. split; [exact Hfull|]. split.
    - intros g x Hg Hx. split.
      + assert (Hxn : x ∈ nodes graph).
        { apply Hsub, Hcover. by exists g. }
        apply Hnodes in Hxn as [y Hy]. exists y. by apply adj_surviving.
      + intros y. rewrite (Hcomp g x Hg Hx). apply reach_linked.
    - intros x y Hxy. apply adj_surviving in Hxy. fold graph in Hxy.
      assert (Hx : x ∈ out.1).
      { apply Hall. apply Hkeys. by exists y. }
      apply Hcover in Hx as (g & Hg & Hx). exists g.
      split; [done|]. split; [done|].
      apply (Hcomp g x Hg Hx). by apply rtc_once. }
  destruct (Hgen cands min_confidence) as (H1 & H2 & H3 & H4).
  split; [exact H1|]. split; [exact H2|]. split; [exact H3|].
  split; [exact H4|].
  intros a b c.
  destruct (Hgen [pair_at a b 0.9; pair_at b c 0.9] 0.85%Q)
    as (_ & _ & H3' & H4').
  assert (Hab : surviving_edge [pair_at a b 0.9; pair_at b c 0.9] 0.85 a b).
  { exists (pair_at a b 0.9). split; [left|]. split; [by vm_compute|].
    by left. }
  assert (Hbc : surviving_edge [pair_at a b 0.9; pair_at b c 0.9] 0.85 b c).
  { exists (pair_at b c 0.9). split; [right; left|]. split; [by vm_compute|].
    by left. }
  destruct (H4' a b Hab) as (g & Hg & Ha & Hb).
  exists g. split; [done|]. split; [done|].
  apply (H3' g a Hg Ha). unfold linked.
  eapply rtc_l; [exact Hab|]. by apply rtc_once.
Qed.

Lemma groups_are_connected_components_witness :
  let cands := [pair_at "A" "B" 0.9; pair_at "B" "C" 0.9; pair_at "D" "E" 0.5] in
  let groups := group_duplicates remove_dups cands 0.85 in
  (forall i j g h x,
     groups !! i = Some g -> groups !! j = Some h -> x ∈ g -> x ∈ h -> i = j)
  /\ (forall g, g ∈ groups -> exists x, x ∈ g)
  /\ (forall g x, g ∈ groups -> x ∈ g ->
        (exists y, surviving_edge cands 0.85 x y)
        /\ forall y, y ∈ g <-> linked cands 0.85 x y)
  /\ (forall x y, surviving_edge cands 0.85 x y ->
        exists g, g ∈ groups /\ x ∈ g /\ y ∈ g)
  /\ (forall a b c,
        exists g, g ∈ group_duplicates remove_dups
                        [pair_at a b 0.9; pair_at b c 0.9] 0.85
                  /\ a ∈ g /\ c ∈ g).
Proof.
  apply (groups_are_connected_components remove_dups
           [pair_at "A" "B" 0.9; pair_at "B" "C" 0.9; pair_at "D" "E" 0.5]
           0.85).
  intros l x. apply elem_of_remove_dups.
Defined.

(** ** The end-to-end scenario *)

(** The catalog of three products, two of them with one UPC, gives one
    merged candidate, for A1 and A2, of confidence 1.0; one group, of A1 and
    A2, without B1; and a recommendation that sums the inventory and
    averages the prices to 51. *)
Example end_to_end_scenario :
  exists merged g rec p,
    snd (detect_duplicates_multi_strategy remove_dups scenario_catalog
           scenario_catalog 0.85) = Some merged
    /\ map (fun m => (sku1 m, sku2 m, confidence m)) merged
       = [("A1", "A2", 1.0%Q)]
    /\ group_duplicates remove_dups merged 0.85 = [g]
    /\ "A1" ∈ g /\ "A2" ∈ g /\ ("B1" ∉ g)
    /\ _create_merge_recommendation first_seen scenario_group = Some rec
    /\ (total_inventory rec == 3)%Q
    /\ dict_get (merged_attributes rec) "price" = Some (VNum p)
    /\ (p == 51)%Q.
Proof.
  eexists _, _, _, _.
  split; [vm_compute; reflexivity|].
  split; [vm_compute; reflexivity|].
  split; [reflexivity|].
  split; [apply (bool_decide_unpack _); vm_compute; exact I|].
  split; [apply (bool_decide_unpack _); vm_compute; exact I|].
  split; [apply (bool_decide_unpack _); vm_compute; exact I|].
  split; [vm_compute; reflexivity|].
  split; [vm_compute; reflexivity|].
  split; [vm_compute; reflexivity|].
  vm_compute. reflexivity.
Qed.

(** * Further properties *)

(** ** The matching rules *)

Lemma existsb_ext_in {A : Type} (f g : A -> bool) (l : list A) :
  (forall x, f x = g x) -> existsb f l = existsb g l.
Proof.
  intros H. induction l as [|x l IH]; simpl; [done|]. by rewrite H, IH.
Qed.

(** X1. The brand rule accepts a brand against itself and does not depend on the
    order of its two arguments. *)
Theorem match_brand_reflexive_symmetric (brand1 brand2 : string) :
  _match_brand brand1 brand1 = true
  /\ _match_brand brand1 brand2 = _match_brand brand2 brand1.
Proof.
  split.
  - unfold _match_brand. by rewrite String.eqb_refl.
  - unfold _match_brand. rewrite (String.eqb_sym brand1 brand2).
    rewrite (existsb_ext_in
               (fun entry => bool_decide (brand1 ∈ entry.2)
                             && bool_decide (brand2 ∈ entry.2))
               (fun entry => bool_decide (brand2 ∈ entry.2)
                             && bool_decide (brand1 ∈ entry.2)))
      by (intros x; apply andb_comm).
    by rewrite (orb_comm (contains brand1 brand2)).
Qed.

Lemma contains_prefix_step (a : string) (c : ascii) (b : string) :
  contains a b = true -> contains a (String c b) = true.
Proof. intros H. simpl. rewrite H. apply orb_true_r. Qed.

Lemma prefix_app (b post : string) : String.prefix b (b ++ post)%string = true.
Proof.
  induction b as [|c b IH]; simpl; [by destruct post|].
  destruct (ascii_dec c c) as [_|n]; [apply IH | by destruct n].
Qed.

Lemma contains_app_l (b post : string) : contains b (b ++ post)%string = true.
Proof.
  destruct b as [|a b]; [apply contains_empty|].
  change (String.prefix (String a b) (String a b ++ post)%string
          || contains (String a b) (b ++ post)%string = true).
  by rewrite prefix_app.
Qed.

(** X2. A brand that occurs inside the other brand matches it: the text of one
    followed or preceded by more text. *)
Theorem match_brand_substring (pre brand post : string) :
  _match_brand brand (pre ++ brand ++ post)%string = true
  /\ _match_brand (pre ++ brand ++ post)%string brand = true.
Proof.
  assert (Hc : contains brand (pre ++ brand ++ post)%string = true).
  { induction pre as [|c pre IH].
    - exact (contains_app_l brand post).
    - by apply (contains_prefix_step brand c). }
  unfold _match_brand. rewrite Hc. split.
  - destruct (String.eqb _ _); [done|]. by destruct (existsb _ _).
  - destruct (String.eqb _ _); [done|]. destruct (existsb _ _); [done|].
    by rewrite orb_true_r.
Qed.

Lemma max2_Qmax (a b : Q) : (max2 a b == Qmax a b)%Q.
Proof.
  destruct (max2_cases a b) as [[-> H]|[-> H]].
  - symmetry. by apply Q.max_l.
  - symmetry. apply Q.max_r. by apply Qlt_le_weak.
Qed.

(** X4. The price rule does not depend on the order of the two prices, whatever
    they are: missing, zero, negative or positive; and a pair that it accepts at
    a tolerance is accepted at every larger tolerance. *)
Theorem match_price_symmetric_monotone (price1 price2 : option Q) (tolerance : Q) :
  _match_price price1 price2 tolerance = _match_price price2 price1 tolerance
  /\ forall larger,
       (tolerance <= larger)%Q ->
       _match_price price1 price2 tolerance = true ->
       _match_price price1 price2 larger = true.
Proof.
  destruct price1 as [p1|], price2 as [p2|]; try done.
  unfold _match_price. rewrite (orb_comm (Qeq_bool p1 0)).
  destruct (Qeq_bool p2 0 || Qeq_bool p1 0); [done|]. cbv zeta. split.
  - assert (Hmax : (max2 p1 p2 == max2 p2 p1)%Q).
    { by rewrite !max2_Qmax, Q.max_comm. }
    apply eq_true_iff_eq. rewrite !Qle_bool_iff.
    by rewrite (Qabs_Qminus p1 p2), Hmax.
  - intros larger Hle. rewrite !Qle_bool_iff. intros H.
    by apply Qle_trans with tolerance.
Qed.

(** X5. Two negative prices are always within tolerance of each other: the
    relative difference is divided by the larger price, which is negative, so it
    is at most zero. *)
Theorem match_price_negative_prices_match (p1 p2 tolerance : Q) :
  (p1 < 0)%Q -> (p2 < 0)%Q -> (0 <= tolerance)%Q ->
  _match_price (Some p1) (Some p2) tolerance = true.
Proof.
  intros H1 H2 Ht.
  assert (Hn : forall p, (p < 0)%Q -> Qeq_bool p 0 = false).
  { intros p Hp. destruct (Qeq_bool p 0) eqn:E; [|done].
    apply Qeq_bool_iff in E. rewrite E in Hp. by apply Qlt_irrefl in Hp. }
  unfold _match_price. rewrite (Hn p1 H1), (Hn p2 H2). cbn [orb]. cbv zeta.
  apply Qle_bool_iff.
  assert (Hmax : (max2 p1 p2 < 0)%Q).
  { by destruct (max2_cases p1 p2) as [[-> _]|[-> _]]. }
  apply Qle_trans with 0%Q; [|done].
  assert (E : (Qabs (p1 - p2) / max2 p1 p2
               == - (Qabs (p1 - p2) / - max2 p1 p2))%Q).
  { field. intros E. rewrite E in Hmax. by apply Qlt_irrefl in Hmax. }
  rewrite E.
  assert (H0 : (0 <= Qabs (p1 - p2) / - max2 p1 p2)%Q).
  { apply Qle_shift_div_l; [lra|]. rewrite Qmult_0_l. apply Qabs_nonneg. }
  lra.
Qed.

Lemma match_price_negative_prices_match_witness :
  _match_price (Some (-5)%Q) (Some (-1000)%Q) 0.1 = true.
Proof.
  apply (match_price_negative_prices_match (-5) (-1000) 0.1);
    [reflexivity | reflexivity | by vm_compute].
Defined.

(** X6. A missing size is compared as the text nan: it matches another missing
    size and the sizes that read nan in some case, and nothing else. *)
Theorem match_size_missing_is_text_nan (size : cell) :
  (_match_size NaN size = true <-> lower (py_str size) = "nan")
  /\ (_match_size size NaN = true <-> lower (py_str size) = "nan").
Proof.
  assert (Hnan : parse_size "nan" = None) by (vm_compute; reflexivity).
  destruct size as [|s]; [by split|].
  unfold _match_size. cbn [cell_truthy py_str negb orb].
  change (lower "nan") with "nan".
  destruct s as [|c s]; [by split|].
  cbn [truthy negb orb]. rewrite Hnan. split.
  - destruct (String.eqb_spec "nan" (lower (String c s))) as [E|E];
      [done|]. split; [done|]. intros E'. by destruct E.
  - destruct (String.eqb_spec (lower (String c s)) "nan") as [E|E];
      [done|]. split; [|done].
    destruct (parse_size (String c s)) as [[v u]|]; done.
Qed.

(** ** The size pattern *)

Lemma exec_star (a : regex) (st : mstate) (k : mstate -> option mstate) :
  exec (Star a) st k = star_loop (exec a) k (String.length (rest st)) st.
Proof. reflexivity. Qed.

Lemma exec_seq (a b : regex) (st : mstate) (k : mstate -> option mstate) :
  exec (Seq a b) st k = exec a st (fun st' => exec b st' k).
Proof. reflexivity. Qed.

Lemma exec_grp (n : nat) (a : regex) (st : mstate)
    (k : mstate -> option mstate) :
  exec (Grp n a) st k =
  exec a st (fun st' =>
    k (MState (prev st') (rest st')
         ((n, consumed (rest st) (rest st')) :: caps st'))).
Proof. reflexivity. Qed.

Lemma exec_opt (a : regex) (st : mstate) (k : mstate -> option mstate) :
  exec (Opt a) st k =
  match exec a st k with Some out => Some out | None => k st end.
Proof. reflexivity. Qed.

Lemma exec_chr (p : ascii -> bool) (pv : option ascii) (c : ascii)
    (t : string) (cs : list (nat * string)) (k : mstate -> option mstate) :
  exec (Chr p) (MState pv (String c t) cs) k =
  if p c then k (MState (Some c) t cs) else None.
Proof. reflexivity. Qed.

Lemma exec_chr_stops (p : ascii -> bool) (pv : option ascii) (s : string)
    (cs : list (nat * string)) (k : mstate -> option mstate) :
  stops p s = true -> exec (Chr p) (MState pv s cs) k = None.
Proof.
  destruct s as [|c t]; [done|]. simpl. by intros ->%negb_true_iff.
Qed.

Lemma append_cons (c : ascii) (a b : string) :
  (String c a ++ b)%string = String c (a ++ b)%string.
Proof. reflexivity. Qed.

Lemma append_nil (b : string) : ("" ++ b)%string = b.
Proof. reflexivity. Qed.

Lemma string_length_app (a b : string) :
  String.length (a ++ b)%string = (String.length a + String.length b)%nat.
Proof.
  induction a as [|c a IH]; [done|]. rewrite append_cons. simpl. by rewrite IH.
Qed.

Lemma string_app_assoc (a b c : string) :
  ((a ++ b) ++ c = a ++ b ++ c)%string.
Proof.
  induction a as [|x a IH]; [done|]. rewrite !append_cons. by rewrite IH.
Qed.

Lemma string_app_nil_r (a : string) : (a ++ "")%string = a.
Proof.
  induction a as [|x a IH]; [done|]. rewrite append_cons. by rewrite IH.
Qed.

Lemma consumed_app (a b : string) : consumed (a ++ b)%string b = a.
Proof.
  unfold consumed. rewrite string_length_app.
  replace (String.length a + String.length b - String.length b)%nat
    with (String.length a) by lia.
  apply prefix_correct, prefix_app.
Qed.

Lemma consumed_all (a : string) : consumed a "" = a.
Proof.
  unfold consumed. simpl. rewrite Nat.sub_0_r.
  pose proof (prefix_app a "") as H. apply prefix_correct in H.
  by rewrite string_app_nil_r in H.
Qed.

(** A star over a class of characters reads the longest run of the class,
    when the rest of the pattern matches after it. *)
Lemma star_chr_greedy (p : ascii -> bool) (run tail : string)
    (pv : option ascii) (cs : list (nat * string))
    (k : mstate -> option mstate) (n : nat) :
  all_chars p run = true -> stops p tail = true ->
  (String.length (run ++ tail)%string <= n)%nat ->
  is_Some (k (MState (last_char pv run) tail cs)) ->
  star_loop (exec (Chr p)) k n (MState pv (run ++ tail)%string cs)
  = k (MState (last_char pv run) tail cs).
Proof.
  revert pv n. induction run as [|c run IH]; intros pv n Hrun Htail Hn Hk.
  - rewrite append_nil in *. cbn [last_char] in *.
    destruct n as [|n]; [done|].
    cbn [star_loop]. by rewrite exec_chr_stops.
  - rewrite append_cons in *. cbn [last_char] in *.
    destruct n as [|n]; [simpl in Hn; lia|].
    unfold all_chars in Hrun. cbn [list_ascii_of_string forallb] in Hrun.
    apply andb_true_iff in Hrun as [Hc Hrun].
    cbn [star_loop]. rewrite exec_chr, Hc. cbn [rest String.length].
    rewrite (proj2 (Nat.ltb_lt _ _)) by lia.
    fold (star_loop (exec (Chr p)) k).
    rewrite IH; [|done|done|simpl in Hn; lia|done].
    by destruct Hk as [out ->].
Qed.

Lemma exec_star_chr (p : ascii -> bool) (run tail : string)
    (pv : option ascii) (cs : list (nat * string))
    (k : mstate -> option mstate) :
  all_chars p run = true -> stops p tail = true ->
  is_Some (k (MState (last_char pv run) tail cs)) ->
  exec (Star (Chr p)) (MState pv (run ++ tail)%string cs) k
  = k (MState (last_char pv run) tail cs).
Proof.
  intros Hrun Htail Hk. rewrite exec_star. by apply star_chr_greedy.
Qed.

Lemma exec_plus_chr (p : ascii -> bool) (run tail : string)
    (pv : option ascii) (cs : list (nat * string))
    (k : mstate -> option mstate) :
  run <> "" -> all_chars p run = true -> stops p tail = true ->
  is_Some (k (MState (last_char pv run) tail cs)) ->
  exec (Plus (Chr p)) (MState pv (run ++ tail)%string cs) k
  = k (MState (last_char pv run) tail cs).
Proof.
  intros Hne Hrun Htail Hk. destruct run as [|c run]; [done|].
  unfold all_chars in Hrun. cbn [list_ascii_of_string forallb] in Hrun.
  apply andb_true_iff in Hrun as [Hc Hrun].
  unfold Plus. rewrite exec_seq, append_cons, exec_chr, Hc.
  change (last_char pv (String c run)) with (last_char (Some c) run) in *.
  by apply exec_star_chr.
Qed.

Lemma char_classes (c : ascii) :
  (is_space c = true -> is_digit c = false /\ is_alpha c = false
                        /\ Ascii.eqb "." c = false)
  /\ (is_alpha c = true -> is_digit c = false /\ is_space c = false
                           /\ Ascii.eqb "." c = false)
  /\ (Ascii.eqb "." c = true -> is_digit c = false).
Proof.
  destruct c as [[] [] [] [] [] [] [] []]; vm_compute; repeat split; congruence.
Qed.

Lemma stops_app (p q : ascii -> bool) (a b : string) :
  (forall c, q c = true -> p c = false) ->
  all_chars q a = true -> stops p b = true -> stops p (a ++ b)%string = true.
Proof.
  intros Hpq Ha Hb. destruct a as [|c a]; [done|].
  unfold all_chars in Ha. cbn [list_ascii_of_string forallb] in Ha.
  apply andb_true_iff in Ha as [Hc _]. rewrite append_cons. cbn [stops].
  by rewrite (Hpq c Hc).
Qed.

Ltac class_facts c Hc :=
  let H1 := fresh in
  let H2 := fresh in
  destruct (char_classes c) as (H1 & H2 & _);
  first [ by destruct (H1 Hc) as (? & ? & ?)
        | by destruct (H2 Hc) as (? & ? & ?) ].

Lemma stops_class (p q : ascii -> bool) (a : string) :
  (forall c, q c = true -> p c = false) ->
  all_chars q a = true -> stops p a = true.
Proof.
  intros Hpq Ha. rewrite <- (string_app_nil_r a). by apply (stops_app p q).
Qed.

Lemma unit_group (pv : option ascii) (unit : string)
    (cs : list (nat * string)) :
  all_chars is_alpha unit = true ->
  exec (Grp 2 (Star (Chr is_alpha))) (MState pv unit cs) Some
  = Some (MState (last_char pv unit) "" ((2, unit) :: cs)).
Proof.
  intros Hu. rewrite exec_grp. cbn [rest].
  rewrite <- (string_app_nil_r unit) at 1.
  rewrite exec_star_chr; [|done|done|by eexists].
  cbn [prev rest caps]. by rewrite consumed_all.
Qed.

Lemma spaces_and_unit (pv : option ascii) (spaces unit : string)
    (cs : list (nat * string)) :
  all_chars is_space spaces = true -> all_chars is_alpha unit = true ->
  exec (Seq (Star (Chr is_space)) (Grp 2 (Star (Chr is_alpha))))
    (MState pv (spaces ++ unit)%string cs) Some
  = Some (MState (last_char (last_char pv spaces) unit) ""
            ((2, unit) :: cs)).
Proof.
  intros Hs Hu. rewrite exec_seq.
  assert (Hstop : stops is_space unit = true).
  { apply (stops_class _ is_alpha); [|done].
    intros c Hc. class_facts c Hc. }
  rewrite exec_star_chr; [by apply unit_group | done | done |].
  rewrite unit_group by done. by eexists.
Qed.

(** The size pattern on a number, optional spaces and a unit of letters:
    the first group is the number and the second group is the unit. *)
Lemma re_match_size (digits fraction spaces unit : string) :
  number_text digits fraction ->
  all_chars is_space spaces = true -> all_chars is_alpha unit = true ->
  exists pv,
    re_match size_pattern (digits ++ fraction ++ spaces ++ unit)%string
    = Some (MState pv "" [(2%nat, unit); (1%nat, (digits ++ fraction)%string)]).
Proof.
  intros (Hne & Hd & Hfrac) Hs Hu.
  set (s := (digits ++ fraction ++ spaces ++ unit)%string).
  assert (Hstop_su : forall p,
            (forall c, is_space c = true -> p c = false) ->
            (forall c, is_alpha c = true -> p c = false) ->
            stops p (spaces ++ unit)%string = true).
  { intros p Hp1 Hp2. apply (stops_app p is_space); [done|done|].
    by apply (stops_class p is_alpha). }
  assert (Hcons : consumed s (spaces ++ unit)%string
                  = (digits ++ fraction)%string).
  { unfold s. rewrite <- (string_app_assoc digits fraction).
    apply consumed_app. }
  pose (K1 := fun st' : mstate =>
    exec (Seq (Star (Chr is_space)) (Grp 2 (Star (Chr is_alpha))))
      (MState (prev st') (rest st')
         ((1%nat, consumed s (rest st')) :: caps st')) Some).
  assert (HK1 : forall pv,
            K1 (MState pv (spaces ++ unit)%string [])
            = Some (MState (last_char (last_char pv spaces) unit) ""
                      [(2%nat, unit); (1%nat, (digits ++ fraction)%string)])).
  { intros pv. unfold K1. cbn [prev rest caps]. rewrite Hcons.
    by apply spaces_and_unit. }
  assert (Hopt : forall pv, exists pv',
            exec (Opt (Seq (chr_eq ".") (Plus (Chr is_digit))))
              (MState pv (fraction ++ spaces ++ unit)%string []) K1
            = Some (MState pv' ""
                      [(2%nat, unit); (1%nat, (digits ++ fraction)%string)])).
  { intros pv. rewrite exec_opt, exec_seq.
    destruct Hfrac as [->|(more & -> & Hmne & Hmore)].
    - rewrite append_nil. unfold chr_eq. rewrite exec_chr_stops.
      + rewrite HK1. by eexists.
      + apply Hstop_su; intros c Hc; cbv beta; class_facts c Hc.
    - rewrite append_cons. unfold chr_eq. rewrite exec_chr.
      cbn [Ascii.eqb Bool.eqb andb].
      rewrite exec_plus_chr; [| done | done | | rewrite HK1; by eexists].
      + rewrite HK1. by eexists.
      + apply Hstop_su; intros c Hc; cbv beta; class_facts c Hc. }
  unfold re_match, run, size_pattern.
  rewrite exec_seq, exec_grp, exec_seq. cbn [rest]. fold s. fold K1.
  destruct (Hopt (last_char None digits)) as [pv' Hpv'].
  exists pv'. unfold s at 1.
  rewrite exec_plus_chr; [done | done | done | | by rewrite Hpv'].
  destruct Hfrac as [->|(more & -> & _)].
  - rewrite append_nil. apply Hstop_su; intros c Hc; cbv beta; class_facts c Hc.
  - rewrite append_cons. reflexivity.
Qed.

Lemma parse_size_number_unit (digits fraction spaces unit : string) :
  number_text digits fraction ->
  all_chars is_space spaces = true -> all_chars is_alpha unit = true ->
  parse_size (digits ++ fraction ++ spaces ++ unit)%string
  = Some (float_of (digits ++ fraction)%string, lower unit).
Proof.
  intros Hn Hs Hu. unfold parse_size.
  destruct (re_match_size digits fraction spaces unit Hn Hs Hu) as [pv ->].
  reflexivity.
Qed.

Lemma lower_char_classes (c : ascii) :
  (is_digit c = true -> lower_char c = c)
  /\ (is_space c = true -> lower_char c = c)
  /\ (Ascii.eqb "." c = true -> lower_char c = c)
  /\ (is_alpha c = true -> is_alpha (lower_char c) = true)
  /\ lower_char (lower_char c) = lower_char c.
Proof.
  destruct c as [[] [] [] [] [] [] [] []]; vm_compute; repeat split; congruence.
Qed.

Lemma lower_app (a b : string) : lower (a ++ b) = (lower a ++ lower b)%string.
Proof.
  induction a as [|c a IH]; [done|].
  rewrite append_cons. cbn [lower]. by rewrite IH, append_cons.
Qed.

Lemma lower_unchanged (p : ascii -> bool) (s : string) :
  (forall c, p c = true -> lower_char c = c) ->
  all_chars p s = true -> lower s = s.
Proof.
  intros Hp. induction s as [|c s IH]; [done|].
  unfold all_chars. cbn [list_ascii_of_string forallb lower].
  intros [Hc Hs]%andb_true_iff. by rewrite (Hp c Hc), (IH Hs).
Qed.

Lemma lower_unit (unit : string) :
  all_chars is_alpha unit = true ->
  all_chars is_alpha (lower unit) = true /\ lower (lower unit) = lower unit.
Proof.
  induction unit as [|c unit IH]; [done|].
  unfold all_chars. cbn [list_ascii_of_string forallb lower].
  intros [Hc Hs]%andb_true_iff. destruct (IH Hs) as [IH1 IH2].
  destruct (lower_char_classes c) as (_ & _ & _ & Ha & Hl).
  split; [|by rewrite Hl, IH2].
  apply andb_true_iff. split; [by apply Ha | exact IH1].
Qed.

(** Lower case changes only the unit of a size. *)
Lemma lower_size (digits fraction spaces unit : string) :
  number_text digits fraction -> all_chars is_space spaces = true ->
  lower (digits ++ fraction ++ spaces ++ unit)
  = (digits ++ fraction ++ spaces ++ lower unit)%string.
Proof.
  intros (_ & Hd & Hf) Hs. rewrite !lower_app.
  rewrite (lower_unchanged is_digit digits), (lower_unchanged is_space spaces);
    [|intros c; apply lower_char_classes | done
     |intros c; apply lower_char_classes | done].
  destruct Hf as [->|(more & -> & _ & Hm)]; [done|].
  cbn [lower]. rewrite (lower_unchanged is_digit more);
    [done | intros c; apply lower_char_classes | done].
Qed.

Lemma lower_size_unit
    (digits1 fraction1 spaces1 unit1 : string)
    (digits2 fraction2 spaces2 unit2 : string) :
  number_text digits1 fraction1 ->
  all_chars is_space spaces1 = true -> all_chars is_alpha unit1 = true ->
  number_text digits2 fraction2 ->
  all_chars is_space spaces2 = true -> all_chars is_alpha unit2 = true ->
  lower (digits1 ++ fraction1 ++ spaces1 ++ unit1)
  = lower (digits2 ++ fraction2 ++ spaces2 ++ unit2) ->
  lower unit1 = lower unit2.
Proof.
  intros Hn1 Hs1 Hu1 Hn2 Hs2 Hu2 E.
  rewrite !lower_size in E by done.
  destruct (lower_unit unit1 Hu1) as [Ha1 Hl1].
  destruct (lower_unit unit2 Hu2) as [Ha2 Hl2].
  pose proof (parse_size_number_unit _ _ _ _ Hn1 Hs1 Ha1) as Hp1.
  pose proof (parse_size_number_unit _ _ _ _ Hn2 Hs2 Ha2) as Hp2.
  rewrite E, Hp2, Hl1, Hl2 in Hp1. by injection Hp1.
Qed.

(** X7. For two sizes written as a number, optional spaces and a unit of
    letters, the size rule reads the number and the unit of each, whatever the
    case of the unit and the spaces. It accepts the pair when the units are
    equal up to case and the numbers have the same value, however the two
    sizes are spelled (the numbers are taken up to 1e308, which float() reads
    as finite). It rejects the pair when the units differ and the conversion
    table has no factor from the first unit to the second, whatever the
    numbers are. *)
Theorem match_size_number_unit
    (digits1 fraction1 spaces1 unit1 : string)
    (digits2 fraction2 spaces2 unit2 : string) :
  number_text digits1 fraction1 ->
  all_chars is_space spaces1 = true -> all_chars is_alpha unit1 = true ->
  number_text digits2 fraction2 ->
  all_chars is_space spaces2 = true -> all_chars is_alpha unit2 = true ->
  let size1 := (digits1 ++ fraction1 ++ spaces1 ++ unit1)%string in
  let size2 := (digits2 ++ fraction2 ++ spaces2 ++ unit2)%string in
  let val1 := float_of (digits1 ++ fraction1)%string in
  let val2 := float_of (digits2 ++ fraction2)%string in
  parse_size size1 = Some (val1, lower unit1)
  /\ parse_size size2 = Some (val2, lower unit2)
  /\ (lower unit1 = lower unit2 -> (val1 == val2)%Q ->
      (val1 <= 10 ^ 308)%Q ->
      _match_size (Str size1) (Str size2) = true)
  /\ (lower unit1 <> lower unit2 ->
      dict_get conversions (lower unit1, lower unit2) = None ->
      _match_size (Str size1) (Str size2) = false).
Proof.
  intros Hn1 Hs1 Hu1 Hn2 Hs2 Hu2. cbv zeta.
  pose proof (parse_size_number_unit _ _ _ _ Hn1 Hs1 Hu1) as Hp1.
  pose proof (parse_size_number_unit _ _ _ _ Hn2 Hs2 Hu2) as Hp2.
  split; [done|]. split; [done|].
  assert (Ht : forall d f w u, d <> "" ->
            truthy (d ++ f ++ w ++ u)%string = true).
  { intros d f w u Hd. by destruct d. }
  unfold _match_size. cbn [cell_truthy py_str].
  rewrite (Ht digits1), (Ht digits2) by apply Hn1 || apply Hn2.
  cbn [negb orb]. rewrite Hp1, Hp2. split.
  - intros Hu Hv _. destruct (String.eqb _ _); [done|].
    rewrite Hu, String.eqb_refl. apply Qltb_lt.
    assert (E : (float_of (digits1 ++ fraction1)
                 - float_of (digits2 ++ fraction2) == 0)%Q)
      by (rewrite Hv; ring).
    by rewrite E.
  - intros Hu Hc.
    destruct (String.eqb (lower _) (lower _)) eqn:E.
    { apply String.eqb_eq in E. exfalso. apply Hu.
      by apply (lower_size_unit digits1 fraction1 spaces1 unit1
                  digits2 fraction2 spaces2 unit2). }
    destruct (String.eqb_spec (lower unit1) (lower unit2)); [done|].
    by rewrite Hc.
Qed.

Lemma match_size_number_unit_witness :
  parse_size "16 oz" = Some (float_of "16", lower "oz")
  /\ parse_size "16.0OZ" = Some (float_of "16.0", lower "OZ")
  /\ (lower "oz" = lower "OZ" -> (float_of "16" == float_of "16.0")%Q ->
      (float_of "16" <= 10 ^ 308)%Q ->
      _match_size (Str "16 oz") (Str "16.0OZ") = true)
  /\ (lower "oz" <> lower "OZ" ->
      dict_get conversions (lower "oz", lower "OZ") = None ->
      _match_size (Str "16 oz") (Str "16.0OZ") = false).
Proof.
  apply (match_size_number_unit "16" "" " " "oz" "16" ".0" "" "OZ").
  - split; [done|]. split; [reflexivity|]. by left.
  - reflexivity.
  - reflexivity.
  - split; [done|]. split; [reflexivity|]. right. exists "0".
    split; [reflexivity|]. split; [done | reflexivity].
  - reflexivity.
  - reflexivity.
Defined.

(** ** The similarity of two names *)

Lemma name_similarity_unfold (name1 name2 : string) :
  _calculate_name_similarity name1 name2 =
  if bool_decide (words name1 = ∅) || bool_decide (words name2 = ∅) then 0%Q
  else (inject_Z (Z.of_nat (size (words name1 ∩ words name2)))
        / inject_Z (Z.of_nat (size (words name1 ∪ words name2))))%Q.
Proof. reflexivity. Qed.

Lemma inject_nat_pos (n : nat) : (0 < n)%nat -> (0 < inject_Z (Z.of_nat n))%Q.
Proof.
  intros H. change 0%Q with (inject_Z 0). rewrite <- Zlt_Qlt. lia.
Qed.

Lemma union_size_pos (w1 w2 : gset string) :
  w1 <> ∅ -> (0 < size (w1 ∪ w2))%nat.
Proof.
  intros H. destruct (decide (size (w1 ∪ w2) = 0)) as [E|E]; [|lia].
  apply size_empty_iff in E. destruct H. apply leibniz_equiv.
  intros x. split; [|by rewrite elem_of_empty].
  intros Hx. apply (E x). apply elem_of_union. by left.
Qed.

Lemma inter_size_le_union (w1 w2 : gset string) :
  (size (w1 ∩ w2) <= size (w1 ∪ w2))%nat.
Proof.
  apply subseteq_size. intros x Hx. apply elem_of_intersection in Hx.
  apply elem_of_union. left. tauto.
Qed.

(** X8. The similarity of two names is the share of their words that they have
    in common: it does not depend on the order of the names, it lies between 0
    and 1, and it is 0 when a name has no word. *)
Theorem name_similarity_symmetric_bounded (name1 name2 : string) :
  _calculate_name_similarity name1 name2
  = _calculate_name_similarity name2 name1
  /\ (0 <= _calculate_name_similarity name1 name2 <= 1)%Q
  /\ (words name1 = ∅ \/ words name2 = ∅ ->
      _calculate_name_similarity name1 name2 = 0%Q).
Proof.
  rewrite !name_similarity_unfold. split; [|split].
  - rewrite (orb_comm (bool_decide (words name2 = ∅))).
    by rewrite (comm_L (∩) (words name2)), (comm_L (∪) (words name2)).
  - destruct (decide (words name1 = ∅)) as [E1|E1].
    { rewrite (bool_decide_eq_true_2 _ E1). done. }
    rewrite (bool_decide_eq_false_2 _ E1).
    destruct (decide (words name2 = ∅)) as [E2|E2].
    { rewrite (bool_decide_eq_true_2 _ E2). done. }
    rewrite (bool_decide_eq_false_2 _ E2). cbn [orb].
    pose proof (inject_nat_pos _ (union_size_pos _ (words name2) E1)) as Hu.
    split.
    + apply Qle_shift_div_l; [done|]. rewrite Qmult_0_l.
      change 0%Q with (inject_Z 0). rewrite <- Zle_Qle. lia.
    + apply Qle_shift_div_r; [done|]. rewrite Qmult_1_l.
      apply inject_nat_le, inter_size_le_union.
  - intros [E|E].
    + by rewrite (bool_decide_eq_true_2 _ E).
    + by rewrite (bool_decide_eq_true_2 _ E), orb_true_r.
Qed.

Lemma name_similarity_ratio (name1 name2 : string) :
  words name1 <> ∅ -> words name2 <> ∅ ->
  _calculate_name_similarity name1 name2 =
  (inject_Z (Z.of_nat (size (words name1 ∩ words name2)))
   / inject_Z (Z.of_nat (size (words name1 ∪ words name2))))%Q.
Proof.
  intros E1 E2. rewrite name_similarity_unfold.
  by rewrite (bool_decide_eq_false_2 _ E1), (bool_decide_eq_false_2 _ E2).
Qed.

(** X9. The similarity is 1 exactly when the two names have the same words, and
    at least one word. *)
Theorem name_similarity_one_iff_same_words (name1 name2 : string) :
  (_calculate_name_similarity name1 name2 == 1)%Q
  <-> words name1 = words name2 /\ words name1 <> ∅.
Proof.
  split.
  - intros H.
    destruct (decide (words name1 = ∅)) as [E1|E1].
    { rewrite name_similarity_unfold, (bool_decide_eq_true_2 _ E1) in H.
      by vm_compute in H. }
    destruct (decide (words name2 = ∅)) as [E2|E2].
    { rewrite name_similarity_unfold, (bool_decide_eq_true_2 _ E2),
        orb_true_r in H. by vm_compute in H. }
    split; [|done].
    rewrite (name_similarity_ratio _ _ E1 E2) in H.
    pose proof (inject_nat_pos _ (union_size_pos _ (words name2) E1)) as Hu.
    assert (Hs : size (words name1 ∩ words name2)
                 = size (words name1 ∪ words name2)).
    { assert (Hq : (inject_Z (Z.of_nat (size (words name1 ∩ words name2)))
                    == inject_Z (Z.of_nat (size (words name1 ∪ words name2))))%Q).
      { rewrite <- (Qmult_1_l (inject_Z (Z.of_nat (size (_ ∪ _))))).
        rewrite <- H. field. intros E0. rewrite E0 in Hu.
        by apply Qlt_irrefl in Hu. }
      unfold Qeq in Hq. cbn [Qnum Qden inject_Z] in Hq. lia. }
    assert (Heq : words name1 ∩ words name2 = words name1 ∪ words name2).
    { apply set_subseteq_size_eq; [|lia].
      intros x Hx. apply elem_of_intersection in Hx. apply elem_of_union.
      left. tauto. }
    apply leibniz_equiv. intros x. split; intros Hx.
    + assert (Hx' : x ∈ words name1 ∪ words name2)
        by (apply elem_of_union; by left).
      rewrite <- Heq in Hx'. apply elem_of_intersection in Hx'. tauto.
    + assert (Hx' : x ∈ words name1 ∪ words name2)
        by (apply elem_of_union; by right).
      rewrite <- Heq in Hx'. apply elem_of_intersection in Hx'. tauto.
  - intros [E E1]. rewrite name_similarity_ratio; [|done|by rewrite <- E].
    rewrite <- E.
    assert (E' : words name1 ∩ words name1 = words name1 ∪ words name1).
    { apply leibniz_equiv. intros x.
      rewrite elem_of_intersection, elem_of_union. tauto. }
    rewrite E'.
    pose proof (inject_nat_pos _ (union_size_pos _ (words name1) E1)) as Hu.
    field. intros E0. rewrite E0 in Hu. by apply Qlt_irrefl in Hu.
Qed.

Lemma ratio_above_four_fifths (i u : nat) :
  (0 < u)%nat ->
  (0.8 < inject_Z (Z.of_nat i) / inject_Z (Z.of_nat u))%Q
  <-> (4 * u < 5 * i)%nat.
Proof.
  intros Hu. pose proof (inject_nat_pos u Hu) as Hq.
  rewrite <- (Qmult_lt_r _ _ _ Hq).
  assert (E : (inject_Z (Z.of_nat i) / inject_Z (Z.of_nat u)
               * inject_Z (Z.of_nat u) == inject_Z (Z.of_nat i))%Q).
  { field. intros E0. rewrite E0 in Hq. by apply Qlt_irrefl in Hq. }
  rewrite E. unfold Qlt. cbn [Qnum Qden Qmult inject_Z]. lia.
Qed.

(** X10. The name bonus of the fuzzy strategy asks for a similarity above 0.8:
    more than four fifths of the words of the two names are common to both. For
    two names of at most five different words in all, this holds only when the
    names have the same words. *)
Theorem name_bonus_threshold (name1 name2 : string) :
  (Qltb 0.8 (_calculate_name_similarity name1 name2) = true
   <-> words name1 <> ∅ /\ words name2 <> ∅
       /\ (4 * size (words name1 ∪ words name2)
           < 5 * size (words name1 ∩ words name2))%nat)
  /\ (Qltb 0.8 (_calculate_name_similarity name1 name2) = true ->
      (size (words name1 ∪ words name2) <= 5)%nat ->
      words name1 = words name2).
Proof.
  assert (Hiff : Qltb 0.8 (_calculate_name_similarity name1 name2) = true
   <-> words name1 <> ∅ /\ words name2 <> ∅
       /\ (4 * size (words name1 ∪ words name2)
           < 5 * size (words name1 ∩ words name2))%nat).
  { rewrite Qltb_lt. split.
    - intros H.
      destruct (decide (words name1 = ∅)) as [E1|E1].
      { rewrite name_similarity_unfold, (bool_decide_eq_true_2 _ E1) in H.
        by vm_compute in H. }
      destruct (decide (words name2 = ∅)) as [E2|E2].
      { rewrite name_similarity_unfold, (bool_decide_eq_true_2 _ E2),
          orb_true_r in H. by vm_compute in H. }
      split; [done|]. split; [done|].
      rewrite (name_similarity_ratio _ _ E1 E2) in H.
      apply ratio_above_four_fifths in H; [done|].
      by apply union_size_pos.
    - intros (E1 & E2 & H). rewrite (name_similarity_ratio _ _ E1 E2).
      apply ratio_above_four_fifths; [|done]. by apply union_size_pos. }
  split; [exact Hiff|].
  intros H Hsize. apply Hiff in H as (E1 & E2 & H).
  pose proof (inter_size_le_union (words name1) (words name2)) as Hle.
  assert (Heq : words name1 ∩ words name2 = words name1 ∪ words name2).
  { apply set_subseteq_size_eq; [|lia].
    intros x Hx. apply elem_of_intersection in Hx. apply elem_of_union.
    left. tauto. }
  apply leibniz_equiv. intros x. split; intros Hx.
  + assert (Hx' : x ∈ words name1 ∪ words name2)
      by (apply elem_of_union; by left).
    rewrite <- Heq in Hx'. apply elem_of_intersection in Hx'. tauto.
  + assert (Hx' : x ∈ words name1 ∪ words name2)
      by (apply elem_of_union; by right).
    rewrite <- Heq in Hx'. apply elem_of_intersection in Hx'. tauto.
Qed.

Lemma name_bonus_threshold_witness :
  (Qltb 0.8 (_calculate_name_similarity "air max" "Max Air") = true
   <-> words "air max" <> ∅ /\ words "Max Air" <> ∅
       /\ (4 * size (words "air max" ∪ words "Max Air")
           < 5 * size (words "air max" ∩ words "Max Air"))%nat)
  /\ words "air max" = words "Max Air".
Proof.
  destruct (name_bonus_threshold "air max" "Max Air") as [H1 H2].
  split; [exact H1|]. apply H2; vm_compute; [reflexivity | lia].
Defined.

(** ** The candidates of the identifier and pattern strategies *)

Section PairsFacts.
Context {A : Type}.

Lemma pairs_inv (l : list A) (a b : A) :
  (a, b) ∈ pairs l ->
  exists i j, (i < j)%nat /\ l !! i = Some a /\ l !! j = Some b.
Proof.
  induction l as [|x l IH]; simpl; [by intros ?%elem_of_nil|].
  intros [Hin|Hin]%elem_of_app.
  - apply list_elem_of_fmap in Hin as (y & [= -> ->] & Hy).
    apply list_elem_of_lookup_1 in Hy as [j Hj].
    exists 0%nat, (S j). split; [lia|]. by split.
  - destruct (IH Hin) as (i & j & Hij & Hi & Hj).
    exists (S i), (S j). split; [lia|]. by split.
Qed.

Lemma pairs_length (l : list A) (a b : A) :
  (a, b) ∈ pairs l -> (1 <? length l)%nat = true.
Proof.
  intros (i & j & Hij & Hi & Hj)%pairs_inv. apply Nat.ltb_lt.
  apply lookup_lt_Some in Hj. lia.
Qed.

Lemma pairs_filter (P : A -> bool) (l : list A) (a b : A) :
  (a, b) ∈ pairs (List.filter P l) <->
  P a = true /\ P b = true /\ (a, b) ∈ pairs l.
Proof.
  split.
  - induction l as [|x l IH]; simpl; [by intros ?%elem_of_nil|].
    destruct (P x) eqn:Hx.
    + simpl. intros [Hin|Hin]%elem_of_app.
      * apply list_elem_of_fmap in Hin as (y & [= -> ->] & Hy).
        apply list_elem_of_In, filter_In in Hy as [Hy HPy].
        split; [done|]. split; [done|]. apply elem_of_app. left.
        apply list_elem_of_fmap. exists y. split; [done|].
        by apply list_elem_of_In.
      * destruct (IH Hin) as (Ha & Hb & Hab).
        split; [done|]. split; [done|]. apply elem_of_app. by right.
    + intros Hin. destruct (IH Hin) as (Ha & Hb & Hab).
      split; [done|]. split; [done|]. apply elem_of_app. by right.
  - intros (Ha & Hb & (i & j & Hij & Hi & Hj)%pairs_inv).
    destruct (lookup_lt_split _ _ _ _ _ Hij Hi Hj) as (l1 & l2 & l3 & ->).
    rewrite filter_split by done. apply pairs_split.
Qed.

End PairsFacts.

Lemma pairs_map {A B : Type} (h : A -> B) (l : list A) :
  pairs (map h l) = map (fun p => (h p.1, h p.2)) (pairs l).
Proof.
  induction l as [|x l IH]; simpl; [done|].
  rewrite map_app, IH, !map_map. done.
Qed.

(** The test on the length of a group does not change the pairs: a group
    of fewer than two elements has none. *)
Lemma pairs_of_group {A B : Type} (h : A * A -> B) (g : list A) (c : B) :
  In c (if (1 <? length g)%nat then map h (pairs g) else []) <->
  exists a b, (a, b) ∈ pairs g /\ c = h (a, b).
Proof.
  split.
  - destruct (1 <? length g)%nat; [|done].
    intros ([a b] & <- & Hp)%in_map_iff. exists a, b.
    split; [by apply list_elem_of_In | done].
  - intros (a & b & Hp & ->). rewrite (pairs_length _ _ _ Hp).
    apply in_map_iff. exists (a, b). split; [done | by apply list_elem_of_In].
Qed.

Section GroupFold.
Context {K V : Type} `{EqDecision K}.
Variable f : V -> option K.
Variable step : list (K * list V) -> V -> list (K * list V).
Hypothesis step_eq : forall d x,
  step d x = match f x with Some k => dl_append d k x | None => d end.

Lemma group_fold_NoDup (l : list V) (d0 : list (K * list V)) :
  NoDup (keys d0) -> NoDup (keys (fold_left step l d0)).
Proof.
  revert d0. induction l as [|x l IH]; intros d0 Hd0; simpl; [done|].
  apply IH. rewrite step_eq. destruct (f x); [|done].
  by apply dl_append_NoDup.
Qed.

Lemma group_fold_elem (l : list V) (k : K) (g : list V) :
  (k, g) ∈ fold_left step l [] <->
  g = List.filter (fun x => bool_decide (f x = Some k)) l /\ g <> [].
Proof.
  pose proof (group_fold_get f step step_eq l [] k) as Hget. simpl in Hget.
  split.
  - intros Hin. apply dict_elem_get in Hin.
    2:{ apply group_fold_NoDup. constructor. }
    rewrite Hget in Hin. destruct (List.filter _ l); [done|].
    by injection Hin as <-.
  - intros [-> Hne]. apply dict_get_elem. rewrite Hget.
    by destruct (List.filter _ l).
Qed.

End GroupFold.

Lemma groupby_inv (col v : string) (rs g : list Row) :
  (v, g) ∈ groupby col rs ->
  g = List.filter (fun r => bool_decide (txt r col = Str v)) rs.
Proof.
  unfold groupby. by intros (v' & [= -> ->] & _)%list_elem_of_fmap.
Qed.

Lemma identifier_candidates_inv (df : DataFrame) (c : DuplicateCandidate) :
  c ∈ _find_by_identifiers df ->
  exists col v i j r1 r2,
    col ∈ identifier_columns /\ col ∈ columns df
    /\ (i < j)%nat /\ rows df !! i = Some r1 /\ rows df !! j = Some r2
    /\ txt r1 col = Str v /\ txt r2 col = Str v
    /\ c = mkCandidate (sku r1) (sku r2) 1.0 [(col, true)] 1.0
             ("Exact " ++ col ++ " match: " ++ v)%string.
Proof.
  unfold _find_by_identifiers. rewrite list_elem_of_In, in_flat_map.
  intros (col & Hcol%list_elem_of_In & Hc).
  unfold in_columns in Hc. case_bool_decide as Hin; [|done].
  apply in_flat_map in Hc as ([v g] & Hg%list_elem_of_In & Hc).
  apply groupby_inv in Hg. cbn [fst snd] in Hc.
  rewrite <- (length_map sku g) in Hc.
  apply (pairs_of_group (identifier_candidate col v)) in Hc
    as (s1 & s2 & Hp & ->).
  rewrite pairs_map in Hp.
  apply list_elem_of_fmap in Hp as ([r1 r2] & [= -> ->] & Hp).
  rewrite Hg in Hp. apply pairs_filter in Hp as (H1 & H2 & Hp).
  apply pairs_filter in Hp as (_ & _ & Hp).
  apply pairs_inv in Hp as (i & j & Hij & Hi & Hj).
  apply bool_decide_eq_true in H1, H2.
  exists col, v, i, j, r1, r2. done.
Qed.

(** X11. Every candidate of the identifier strategy comes from two rows of the
    catalog, the first one before the second, that carry the same value, not
    missing, in one of the five identifier columns; the candidate names their
    SKUs in the order of the rows, the column and the value. *)
Theorem identifier_candidates_sound (df : DataFrame) (c : DuplicateCandidate) :
  c ∈ _find_by_identifiers df ->
  exists col v i j r1 r2,
    col ∈ identifier_columns /\ col ∈ columns df
    /\ (i < j)%nat /\ rows df !! i = Some r1 /\ rows df !! j = Some r2
    /\ txt r1 col = Str v /\ txt r2 col = Str v
    /\ c = mkCandidate (sku r1) (sku r2) 1.0 [(col, true)] 1.0
             ("Exact " ++ col ++ " match: " ++ v)%string.
Proof. apply identifier_candidates_inv. Qed.

Lemma identifier_candidates_sound_witness :
  exists col v i j r1 r2,
    col ∈ identifier_columns /\ col ∈ columns upc_catalog
    /\ (i < j)%nat /\ rows upc_catalog !! i = Some r1
    /\ rows upc_catalog !! j = Some r2
    /\ txt r1 col = Str v /\ txt r2 col = Str v
    /\ mkCandidate "A1" "A2" 1.0 [("upc", true)] 1.0 "Exact upc match: 012345"
       = mkCandidate (sku r1) (sku r2) 1.0 [(col, true)] 1.0
           ("Exact " ++ col ++ " match: " ++ v)%string.
Proof.
  apply (identifier_candidates_sound upc_catalog
           (mkCandidate "A1" "A2" 1.0 [("upc", true)] 1.0
              "Exact upc match: 012345")).
  vm_compute. left.
Defined.

Lemma pattern_candidates_elem (df : DataFrame) (c : DuplicateCandidate) :
  c ∈ _find_by_patterns df <->
  (exists i j r1 r2,
     "sku" ∈ columns df
     /\ (i < j)%nat /\ rows df !! i = Some r1 /\ rows df !! j = Some r2
     /\ base_pattern (sku r1) = base_pattern (sku r2)
     /\ c = mkCandidate (sku r1) (sku r2) 0.85 [("sku_pattern", true)] 0.85
              ("Similar SKU pattern: " ++ base_pattern (sku r1))%string)
  \/ (exists i j r1 r2,
     "product_name" ∈ columns df
     /\ (i < j)%nat /\ rows df !! i = Some r1 /\ rows df !! j = Some r2
     /\ clean_name (txt r1 "product_name") = clean_name (txt r2 "product_name")
     /\ clean_name (txt r1 "product_name") <> ""
     /\ c = mkCandidate (sku r1) (sku r2) 0.80 [("name_pattern", true)] 0.80
              "Similar name pattern").
Proof.
  unfold _find_by_patterns. rewrite elem_of_app.
  set (sku_step := fun (d : list (string * list Row)) (row : Row) =>
                     dl_append d (base_pattern (sku row)) row).
  set (name_step := fun (d : list (string * list Row)) (row : Row) =>
         let clean_name := clean_name (txt row "product_name") in
         if truthy clean_name then dl_append d clean_name row else d).
  set (sku_key := fun row : Row => Some (base_pattern (sku row))).
  assert (Hsku : forall d x, sku_step d x =
            match sku_key x with
            | Some k => dl_append d k x | None => d end) by done.
  assert (Hname : forall d x, name_step d x =
            match name_key x with
            | Some k => dl_append d k x | None => d end).
  { intros d x. unfold name_step, name_key. simpl.
    by destruct (truthy (clean_name (txt x "product_name"))). }
  assert (Hkey : forall r k, name_key r = Some k <->
            clean_name (txt r "product_name") = k /\ k <> "").
  { intros r k. unfold name_key.
    destruct (clean_name (txt r "product_name")) as [|a s] eqn:E; simpl.
    - split; [done|]. by intros [<- ?].
    - split; [by intros [= <-] | by intros [<- _]]. }
  apply Morphisms_Prop.or_iff_morphism.
  - unfold in_columns. case_bool_decide as Hcol.
    + rewrite list_elem_of_In, in_flat_map. split.
      * intros ([k g] & Hg%list_elem_of_In & Hc). cbn [fst snd] in Hc.
        apply (group_fold_elem sku_key sku_step Hsku) in Hg as [-> _].
        apply (pairs_of_group (sku_pattern_candidate k)) in Hc
          as (r1 & r2 & Hp & ->).
        apply pairs_filter in Hp as (H1 & H2 & Hp).
        apply bool_decide_eq_true in H1, H2.
        injection H1 as H1. injection H2 as H2.
        apply pairs_inv in Hp as (i & j & Hij & Hi & Hj).
        exists i, j, r1, r2. rewrite H1, H2. done.
      * intros (i & j & r1 & r2 & _ & Hij & Hi & Hj & Hbase & ->).
        set (k := base_pattern (sku r1)).
        exists (k, List.filter
                     (fun x => bool_decide (sku_key x = Some k))
                     (rows df)).
        assert (Hp : (r1, r2) ∈ pairs (List.filter
                     (fun x => bool_decide (sku_key x = Some k))
                     (rows df))).
        { apply pairs_filter. split; [by apply bool_decide_eq_true_2|].
          split; [apply bool_decide_eq_true_2; unfold sku_key, k; by rewrite Hbase|].
          by apply (pairs_lookup _ i j). }
        split.
        -- apply list_elem_of_In, (group_fold_elem sku_key sku_step Hsku).
           split; [done|]. intros E. rewrite E in Hp. by apply elem_of_nil in Hp.
        -- cbn [fst snd]. apply (pairs_of_group (sku_pattern_candidate k)).
           by exists r1, r2.
    + split; [by intros ?%elem_of_nil|].
      by intros (i & j & r1 & r2 & Hc & _).
  - unfold in_columns. case_bool_decide as Hcol.
    + rewrite list_elem_of_In, in_flat_map. split.
      * intros ([k g] & Hg%list_elem_of_In & Hc). cbn [fst snd] in Hc.
        apply (group_fold_elem name_key name_step Hname) in Hg as [-> _].
        apply (pairs_of_group name_pattern_candidate) in Hc
          as (r1 & r2 & Hp & ->).
        apply pairs_filter in Hp as (H1 & H2 & Hp).
        apply bool_decide_eq_true in H1, H2.
        apply Hkey in H1 as [H1 Hne], H2 as [H2 _].
        apply pairs_inv in Hp as (i & j & Hij & Hi & Hj).
        exists i, j, r1, r2. rewrite H1, H2. done.
      * intros (i & j & r1 & r2 & _ & Hij & Hi & Hj & Hclean & Hne & ->).
        set (k := clean_name (txt r1 "product_name")).
        exists (k, List.filter (fun x => bool_decide (name_key x = Some k))
                     (rows df)).
        assert (Hp : (r1, r2) ∈ pairs (List.filter
                     (fun x => bool_decide (name_key x = Some k)) (rows df))).
        { apply pairs_filter.
          split; [by apply bool_decide_eq_true_2, Hkey|].
          split; [apply bool_decide_eq_true_2, Hkey; by rewrite <- Hclean|].
          by apply (pairs_lookup _ i j). }
        split.
        -- apply list_elem_of_In, (group_fold_elem name_key name_step Hname).
           split; [done|]. intros E. rewrite E in Hp. by apply elem_of_nil in Hp.
        -- cbn [fst snd]. apply (pairs_of_group name_pattern_candidate).
           by exists r1, r2.
    + split; [by intros ?%elem_of_nil|].
      by intros (i & j & r1 & r2 & Hc & _).
Qed.

(** X12. The candidates of the pattern strategy are exactly these: for two rows
    of a catalog with a sku column, the first before the second, whose SKUs have
    the same base pattern, a candidate at 0.85 that names the pattern; and for
    two rows of a catalog with a product_name column, the first before the
    second, whose names have the same cleaned form, not empty, a candidate at
    0.80. *)
Theorem pattern_candidates_characterised (df : DataFrame)
    (c : DuplicateCandidate) :
  c ∈ _find_by_patterns df <->
  (exists i j r1 r2,
     "sku" ∈ columns df
     /\ (i < j)%nat /\ rows df !! i = Some r1 /\ rows df !! j = Some r2
     /\ base_pattern (sku r1) = base_pattern (sku r2)
     /\ c = mkCandidate (sku r1) (sku r2) 0.85 [("sku_pattern", true)] 0.85
              ("Similar SKU pattern: " ++ base_pattern (sku r1))%string)
  \/ (exists i j r1 r2,
     "product_name" ∈ columns df
     /\ (i < j)%nat /\ rows df !! i = Some r1 /\ rows df !! j = Some r2
     /\ clean_name (txt r1 "product_name") = clean_name (txt r2 "product_name")
     /\ clean_name (txt r1 "product_name") <> ""
     /\ c = mkCandidate (sku r1) (sku r2) 0.80 [("name_pattern", true)] 0.80
              "Similar name pattern").
Proof. apply pattern_candidates_elem. Qed.

(** ** The fuzzy strategy *)

Lemma fuzzy_pair_requirements (df : DataFrame) (row1 row2 : Row)
    (c : DuplicateCandidate) :
  fuzzy_pair df row1 row2 = Some (Some c) ->
  fuzzy_requirements df row1 row2
  /\ sku1 c = sku row1 /\ sku2 c = sku row2
  /\ confidence c = similarity_score c
  /\ reason c = "Fuzzy attribute matching"
  /\ (0.5 <= similarity_score c <= 0.65)%Q
  /\ dict_get (matching_attributes c) "brand" = Some true.
Proof.
  unfold fuzzy_requirements, fuzzy_pair, in_columns. intros H.
  destruct (decide ("brand_name_normalized" ∈ columns df)) as [Eb|Eb];
    [rewrite (bool_decide_eq_true_2 _ Eb) in H
    |rewrite (bool_decide_eq_false_2 _ Eb) in H];
  (destruct (decide ("size" ∈ columns df)) as [Es|Es];
    [rewrite (bool_decide_eq_true_2 _ Es) in H
    |rewrite (bool_decide_eq_false_2 _ Es) in H]);
  (destruct (decide ("price" ∈ columns df)) as [Ep|Ep];
    [rewrite (bool_decide_eq_true_2 _ Ep) in H
    |rewrite (bool_decide_eq_false_2 _ Ep) in H]);
  (destruct (decide ("product_name_normalized" ∈ columns df)) as [En|En];
    [rewrite (bool_decide_eq_true_2 _ En) in H
    |rewrite (bool_decide_eq_false_2 _ En) in H]);
  repeat match type of H with
    | context [as_str (txt ?r ?col)] =>
        destruct (txt r col) eqn:?; cbn [as_str mbind option_bind] in H
    end;
  try discriminate H;
  repeat match type of H with
    | context [_match_brand ?a ?b] => destruct (_match_brand a b) eqn:?
    | context [_match_size ?a ?b] => destruct (_match_size a b) eqn:?
    | context [_match_price ?a ?b ?t] => destruct (_match_price a b t) eqn:?
    | context [Qltb 0.8 ?x] => destruct (Qltb 0.8 x) eqn:?
    end;
  vm_compute in H; try discriminate H;
  injection H as <-;
  (split; [split; [eexists _, _; repeat split; eassumption|];
           split; [eexists _, _; repeat split;
                     [eassumption .. | by apply Qltb_lt]|];
           first [left; split; [assumption | reflexivity]
                 |right; split; [assumption | reflexivity]]|]);
  repeat split; by vm_compute.
Qed.

Lemma fuzzy_pair_sufficient (df : DataFrame) (row1 row2 : Row) :
  fuzzy_requirements df row1 row2 ->
  exists c, fuzzy_pair df row1 row2 = Some (Some c).
Proof.
  intros ((b1 & b2 & Hb & Hb1 & Hb2 & Hbm) & (n1 & n2 & Hn & Hn1 & Hn2 & Hnm)
          & Hsp).
  apply Qltb_lt in Hnm.
  unfold fuzzy_pair, in_columns.
  rewrite (bool_decide_eq_true_2 _ Hb), (bool_decide_eq_true_2 _ Hn).
  rewrite Hb1, Hb2, Hn1, Hn2. cbn [as_str mbind option_bind].
  rewrite Hbm, Hnm.
  destruct Hsp as [[Hs Hsm]|[Hp Hpm]].
  - rewrite (bool_decide_eq_true_2 _ Hs), Hsm.
    destruct (bool_decide ("price" ∈ columns df));
      [destruct (_match_price _ _ _)|]; by eexists.
  - rewrite (bool_decide_eq_true_2 _ Hp), Hpm.
    destruct (bool_decide ("size" ∈ columns df));
      [destruct (_match_size _ _)|]; by eexists.
Qed.

Lemma mapM_elem {A B : Type} (f : A -> option B) (l : list A) (k : list B)
    (y : B) :
  mapM f l = Some k -> y ∈ k -> exists x, x ∈ l /\ f x = Some y.
Proof.
  intros H%mapM_Some_1 Hy. apply list_elem_of_lookup_1 in Hy as [i Hi].
  destruct (Forall2_lookup_r _ _ _ _ _ H Hi) as (x & Hx & Hfx).
  exists x. split; [by eapply list_elem_of_lookup_2 | done].
Qed.

Lemma mapM_elem_of {A B : Type} (f : A -> option B) (l : list A) (k : list B)
    (x : A) :
  mapM f l = Some k -> x ∈ l -> exists y, y ∈ k /\ f x = Some y.
Proof.
  intros H%mapM_Some_1 Hx. apply list_elem_of_lookup_1 in Hx as [i Hi].
  destruct (Forall2_lookup_l _ _ _ _ _ H Hi) as (y & Hy & Hfx).
  exists y. split; [by eapply list_elem_of_lookup_2 | done].
Qed.

Lemma fuzzy_candidates_elem (df : DataFrame) (found : list DuplicateCandidate)
    (c : DuplicateCandidate) :
  snd (_find_by_fuzzy_attributes df) = Some found ->
  c ∈ found <->
  exists r1 r2,
    (r1, r2) ∈ pairs (rows (fst (_find_by_fuzzy_attributes df)))
    /\ fuzzy_pair (fst (_find_by_fuzzy_attributes df)) r1 r2 = Some (Some c).
Proof.
  unfold _find_by_fuzzy_attributes. cbn [fst snd].
  set (df' := fold_left normalize_field text_fields df).
  destruct (mapM _ (pairs (rows df'))) as [all|] eqn:E;
    cbn [mbind option_bind]; [|done].
  intros [= <-]. rewrite list_elem_of_omap. split.
  - intros (o & Ho & Hc). cbn in Hc. subst o.
    destruct (mapM_elem _ _ _ _ E Ho) as ([r1 r2] & Hp & Hf).
    by exists r1, r2.
  - intros (r1 & r2 & Hp & Hf).
    destruct (mapM_elem_of _ _ _ _ E Hp) as (o & Ho & Hf').
    cbn [fst snd] in Hf'. rewrite Hf in Hf'. injection Hf' as <-.
    by exists (Some c).
Qed.

(** X13. The candidates of the fuzzy strategy are the pairs of rows of the
    normalised catalog, the first before the second, whose brands match, whose
    names are similar above 0.8 and whose sizes or prices match; no other
    combination of the four tests reaches the score 0.5. A candidate names the
    SKUs of its rows in their order, its score lies between 0.5 and 0.65 and is
    its confidence, and its brand flag is set. *)
Theorem fuzzy_candidates_characterised (df : DataFrame)
    (found : list DuplicateCandidate) :
  snd (_find_by_fuzzy_attributes df) = Some found ->
  let df' := fst (_find_by_fuzzy_attributes df) in
  (forall c, c ∈ found ->
     exists i j row1 row2,
       (i < j)%nat /\ rows df' !! i = Some row1 /\ rows df' !! j = Some row2
       /\ fuzzy_requirements df' row1 row2
       /\ sku1 c = sku row1 /\ sku2 c = sku row2
       /\ confidence c = similarity_score c
       /\ reason c = "Fuzzy attribute matching"
       /\ (0.5 <= similarity_score c <= 0.65)%Q
       /\ dict_get (matching_attributes c) "brand" = Some true)
  /\ (forall i j row1 row2,
       (i < j)%nat -> rows df' !! i = Some row1 -> rows df' !! j = Some row2 ->
       fuzzy_requirements df' row1 row2 ->
       exists c, c ∈ found /\ sku1 c = sku row1 /\ sku2 c = sku row2).
Proof.
  intros Hfound df'. split.
  - intros c (r1 & r2 & Hp & Hf)%(fuzzy_candidates_elem df found c Hfound).
    apply pairs_inv in Hp as (i & j & Hij & Hi & Hj).
    exists i, j, r1, r2. split; [done|]. split; [done|]. split; [done|].
    by apply fuzzy_pair_requirements.
  - intros i j r1 r2 Hij Hi Hj Hreq.
    destruct (fuzzy_pair_sufficient _ _ _ Hreq) as [c Hc].
    exists c. split.
    + apply (fuzzy_candidates_elem df found c Hfound). exists r1, r2.
      split; [by apply (pairs_lookup _ i j) | done].
    + apply fuzzy_pair_requirements in Hc. tauto.
Qed.

Lemma fuzzy_candidates_characterised_witness :
  let df' := fst (_find_by_fuzzy_attributes normalized_catalog) in
  (forall c, c ∈ [fuzzy_nike] ->
     exists i j row1 row2,
       (i < j)%nat /\ rows df' !! i = Some row1 /\ rows df' !! j = Some row2
       /\ fuzzy_requirements df' row1 row2
       /\ sku1 c = sku row1 /\ sku2 c = sku row2
       /\ confidence c = similarity_score c
       /\ reason c = "Fuzzy attribute matching"
       /\ (0.5 <= similarity_score c <= 0.65)%Q
       /\ dict_get (matching_attributes c) "brand" = Some true)
  /\ (forall i j row1 row2,
       (i < j)%nat -> rows df' !! i = Some row1 -> rows df' !! j = Some row2 ->
       fuzzy_requirements df' row1 row2 ->
       exists c, c ∈ [fuzzy_nike] /\ sku1 c = sku row1 /\ sku2 c = sku row2).
Proof.
  apply (fuzzy_candidates_characterised normalized_catalog [fuzzy_nike]).
  vm_compute. reflexivity.
Defined.

Lemma normalize_field_columns (df : DataFrame) (field c : string) :
  c ∈ columns (normalize_field df field) <->
  c ∈ columns df \/ (field ∈ columns df /\ c = (field ++ "_normalized")%string).
Proof.
  unfold normalize_field, in_columns. case_bool_decide as Hf; [|tauto].
  unfold set_column, in_columns. cbn [columns].
  case_bool_decide as Hc.
  - split; [tauto|]. by intros [?|[_ ->]].
  - rewrite elem_of_app, list_elem_of_singleton. tauto.
Qed.

Lemma normalize_field_filled (df : DataFrame) (field : string) :
  field ∈ columns df ->
  column_filled (field ++ "_normalized") (normalize_field df field).
Proof.
  intros Hf. unfold normalize_field, in_columns.
  rewrite bool_decide_eq_true_2 by done.
  unfold column_filled, set_column. cbn [rows].
  apply Forall_forall. intros r' (r & -> & _)%list_elem_of_fmap.
  rewrite txt_set_txt, decide_True by done. by eexists.
Qed.

Lemma normalize_field_keeps_filled (df : DataFrame) (field c : string) :
  column_filled c df -> column_filled c (normalize_field df field).
Proof.
  intros H. unfold normalize_field. destruct (in_columns field df); [|done].
  unfold column_filled, set_column in *. cbn [rows].
  apply Forall_forall. intros r' (r & -> & Hr)%list_elem_of_fmap.
  rewrite txt_set_txt. destruct (decide _); [by eexists|].
  by apply (proj1 (Forall_forall _ _) H).
Qed.

Lemma normalize_fields_keep_filled (fields : list string) (df : DataFrame)
    (c : string) :
  column_filled c df -> column_filled c (fold_left normalize_field fields df).
Proof.
  revert df. induction fields as [|f fields IH]; intros df H; simpl; [done|].
  by apply IH, normalize_field_keeps_filled.
Qed.

Lemma normalize_fields_filled (fields : list string) (df : DataFrame)
    (field : string) :
  field ∈ fields -> field ∈ columns df ->
  column_filled (field ++ "_normalized") (fold_left normalize_field fields df).
Proof.
  revert df. induction fields as [|f fields IH]; intros df Hin Hcol;
    [by apply elem_of_nil in Hin|].
  simpl. apply elem_of_cons in Hin as [->|Hin].
  - by apply normalize_fields_keep_filled, normalize_field_filled.
  - apply IH; [done|]. apply normalize_field_columns. by left.
Qed.

Lemma normalize_fields_columns_inv (fields : list string) (df : DataFrame)
    (c : string) :
  c ∈ columns (fold_left normalize_field fields df) ->
  c ∈ columns df
  \/ exists field, field ∈ fields /\ c = (field ++ "_normalized")%string
       /\ (field ∈ columns df
           \/ exists g, g ∈ fields /\ field = (g ++ "_normalized")%string).
Proof.
  revert df. induction fields as [|f fields IH]; intros df; simpl; [by left|].
  intros [Hc|(field & Hin & -> & Hfield)]%IH.
  - apply normalize_field_columns in Hc as [Hc|[Hf ->]]; [by left|].
    right. exists f. split; [left|]. split; [done | by left].
  - right. exists field. split; [by right|]. split; [done|].
    destruct Hfield as [Hfield|(g & Hg & ->)].
    + apply normalize_field_columns in Hfield as [?|[Hf ->]]; [by left|].
      right. exists f. split; [left | done].
    + right. exists g. split; [by right | done].
Qed.

(** The normalised column of a text field is in the frame after the
    normalisation only if it was there before or the field is a column. *)
Lemma normalized_column_origin (df : DataFrame) (field : string) :
  field ∈ text_fields ->
  (field ++ "_normalized")%string
    ∈ columns (fold_left normalize_field text_fields df) ->
  (field ++ "_normalized")%string ∈ columns df \/ field ∈ columns df.
Proof.
  intros Hfield [Hc|(f & Hf & E & Hcol)]%normalize_fields_columns_inv;
    [by left|].
  right.
  assert (Hinj : f = field).
  { unfold text_fields in Hfield, Hf.
    repeat (apply elem_of_cons in Hfield as [->|Hfield]);
      try (by apply elem_of_nil in Hfield);
      repeat (apply elem_of_cons in Hf as [->|Hf]);
      try (by apply elem_of_nil in Hf); first [done | by simpl in E]. }
  subst f. destruct Hcol as [?|(g & Hg & ->)]; [done|].
  unfold text_fields in Hfield, Hg.
  repeat (apply elem_of_cons in Hg as [->|Hg]);
    try (by apply elem_of_nil in Hg);
    repeat (apply elem_of_cons in Hfield as [Hfield|Hfield]);
    try (by apply elem_of_nil in Hfield); by simpl in Hfield.
Qed.

Lemma fuzzy_pair_total (df : DataFrame) (row1 row2 : Row) :
  (in_columns "brand_name_normalized" df = true ->
   (exists s, txt row1 "brand_name_normalized" = Str s)
   /\ exists s, txt row2 "brand_name_normalized" = Str s) ->
  (in_columns "product_name_normalized" df = true ->
   (exists s, txt row1 "product_name_normalized" = Str s)
   /\ exists s, txt row2 "product_name_normalized" = Str s) ->
  is_Some (fuzzy_pair df row1 row2).
Proof.
  intros Hb Hn. unfold fuzzy_pair.
  destruct (in_columns "brand_name_normalized" df);
    [destruct (Hb eq_refl) as [[b1 ->] [b2 ->]]|];
    (destruct (in_columns "product_name_normalized" df);
      [destruct (Hn eq_refl) as [[n1 ->] [n2 ->]]|]);
    destruct (in_columns "size" df); destruct (in_columns "price" df);
    cbn [as_str mbind option_bind]; by eexists.
Qed.

(** X14. Missing cells do not make the detection fail. On a catalog of the data
    model (every row has a SKU, a cell of a text column is a text or is missing,
    a price is a number or is missing) that does not bring a normalised brand or
    name column without the column it is computed from, the fuzzy strategy, and
    with it the whole detection, returns a result, whichever cells are missing:
    the strategy fills a missing brand or name with the empty text before it
    compares two rows. *)
Theorem missing_cells_do_not_fail_detection (order : list string -> list string)
    (products_df embeddings_df : DataFrame) (threshold : Q) :
  ("brand_name_normalized" ∈ columns products_df ->
   "brand_name" ∈ columns products_df) ->
  ("product_name_normalized" ∈ columns products_df ->
   "product_name" ∈ columns products_df) ->
  is_Some (snd (_find_by_fuzzy_attributes products_df))
  /\ is_Some (snd (detect_duplicates_multi_strategy order products_df
                     embeddings_df threshold)).
Proof.
  intros Hb Hn.
  assert (Hfilled : forall field, field ∈ text_fields ->
            ((field ++ "_normalized")%string ∈ columns products_df ->
             field ∈ columns products_df) ->
            in_columns (field ++ "_normalized")
              (fold_left normalize_field text_fields products_df) = true ->
            column_filled (field ++ "_normalized")
              (fold_left normalize_field text_fields products_df)).
  { intros field Hfield Himp Hcol. apply bool_decide_eq_true in Hcol.
    apply normalized_column_origin in Hcol; [|done].
    destruct Hcol as [Hcol|Hcol].
    - by apply normalize_fields_filled, Himp.
    - by apply normalize_fields_filled. }
  assert (Hfuzzy : is_Some (snd (_find_by_fuzzy_attributes products_df))).
  { unfold _find_by_fuzzy_attributes. cbn [snd].
    set (df := fold_left normalize_field text_fields products_df) in *.
    assert (Hall : is_Some (mapM (fun p => fuzzy_pair df p.1 p.2)
                              (pairs (rows df)))).
    { apply mapM_is_Some, Forall_forall. intros [r1 r2] Hp.
      apply pairs_elem in Hp as [H1 H2]. cbn [fst snd compose].
      apply fuzzy_pair_total.
      - intros Hcol.
        pose proof (Hfilled "brand_name" ltac:(by left) Hb Hcol) as Hf.
        split; by apply (proj1 (Forall_forall _ _) Hf).
      - intros Hcol.
        pose proof (Hfilled "product_name" ltac:(right; by left) Hn Hcol)
          as Hf.
        split; by apply (proj1 (Forall_forall _ _) Hf). }
    destruct Hall as [found ->]. by eexists. }
  split; [done|].
  unfold detect_duplicates_multi_strategy.
  destruct (_find_by_fuzzy_attributes products_df) as [df' [found|]];
    [by eexists | by destruct Hfuzzy].
Qed.

Lemma missing_cells_do_not_fail_detection_witness :
  is_Some (snd (_find_by_fuzzy_attributes missing_brand_catalog))
  /\ is_Some (snd (detect_duplicates_multi_strategy remove_dups
                     missing_brand_catalog missing_brand_catalog 0.85)).
Proof.
  apply (missing_cells_do_not_fail_detection remove_dups missing_brand_catalog
           missing_brand_catalog 0.85).
  - intros _. apply (bool_decide_unpack _). vm_compute. exact I.
  - intros _. apply (bool_decide_unpack _). vm_compute. exact I.
Defined.

(** ** Running the detection again *)

Lemma dict_set_same {V : Type} (d : list (string * V)) (k : string) (v : V) :
  dict_get d k = Some v -> dict_set d k v = d.
Proof.
  induction d as [|[k' v'] d IH]; simpl; [done|].
  destruct (decide (k' = k)) as [->|Hne].
  - by intros [= ->].
  - intros H. by rewrite IH.
Qed.

Lemma set_txt_same (r : Row) (c : string) (v : cell) :
  dict_get (strs r) c = Some v -> set_txt r c v = r.
Proof.
  intros H. unfold set_txt. rewrite dict_set_same by done. by destruct r.
Qed.

Lemma normalize_field_fixed (df : DataFrame) (field : string) :
  (field ∈ columns df ->
   (field ++ "_normalized")%string ∈ columns df
   /\ Forall (fun r => dict_get (strs r) (field ++ "_normalized")%string
                       = Some (Str (strip (lower (py_str (fillna ""
                                                   (txt r field)))))))
        (rows df)) ->
  normalize_field df field = df.
Proof.
  intros H. unfold normalize_field, in_columns.
  case_bool_decide as Hf; [|done]. destruct (H Hf) as [Hc Hrows].
  unfold set_column, in_columns. rewrite bool_decide_eq_true_2 by done.
  destruct df as [cols rs]. cbn [columns rows] in *. f_equal.
  clear H Hf Hc. induction Hrows as [|r rs' Hr _ IH]; [done|].
  cbn [map]. rewrite IH. by rewrite set_txt_same.
Qed.

Lemma normalize_field_cell (df : DataFrame) (field : string) :
  field ∈ columns df ->
  (field ++ "_normalized")%string <> field ->
  Forall (fun r => dict_get (strs r) (field ++ "_normalized")%string
                   = Some (Str (strip (lower (py_str (fillna ""
                                               (txt r field)))))))
    (rows (normalize_field df field)).
Proof.
  intros Hf Hne. unfold normalize_field, in_columns.
  rewrite bool_decide_eq_true_2 by done. unfold set_column. cbn [rows].
  apply Forall_forall. intros r' (r & -> & _)%list_elem_of_fmap.
  unfold set_txt at 1. cbn [strs]. rewrite dict_set_get, decide_True by done.
  rewrite txt_set_txt. by rewrite decide_False.
Qed.

Lemma normalize_field_keeps_cell (df : DataFrame) (field other : string) :
  (other ++ "_normalized")%string <> (field ++ "_normalized")%string ->
  (other ++ "_normalized")%string <> field ->
  Forall (fun r => dict_get (strs r) (field ++ "_normalized")%string
                   = Some (Str (strip (lower (py_str (fillna ""
                                               (txt r field)))))))
    (rows df) ->
  Forall (fun r => dict_get (strs r) (field ++ "_normalized")%string
                   = Some (Str (strip (lower (py_str (fillna ""
                                               (txt r field)))))))
    (rows (normalize_field df other)).
Proof.
  intros Hn1 Hn2 H. unfold normalize_field.
  destruct (in_columns other df); [|done].
  unfold set_column. cbn [rows].
  apply Forall_forall. intros r' (r & -> & Hr)%list_elem_of_fmap.
  unfold set_txt at 1. cbn [strs]. rewrite dict_set_get, decide_False by done.
  rewrite txt_set_txt, decide_False by done.
  by apply (proj1 (Forall_forall _ _) H).
Qed.

Lemma normalize_fields_cell (fields : list string) (df : DataFrame)
    (field : string) :
  (forall g, g ∈ fields -> (g ++ "_normalized")%string <> field) ->
  (forall g, g ∈ fields -> g <> field ->
     (g ++ "_normalized")%string <> (field ++ "_normalized")%string) ->
  field ∈ fields -> field ∈ columns df ->
  Forall (fun r => dict_get (strs r) (field ++ "_normalized")%string
                   = Some (Str (strip (lower (py_str (fillna ""
                                               (txt r field)))))))
    (rows (fold_left normalize_field fields df)).
Proof.
  intros Hn1 Hn2.
  assert (Hkeep : forall fs d,
            (forall g, g ∈ fs -> g ∈ fields) ->
            Forall (fun r => dict_get (strs r) (field ++ "_normalized")%string
                     = Some (Str (strip (lower (py_str (fillna ""
                                                 (txt r field)))))))
              (rows d) ->
            Forall (fun r => dict_get (strs r) (field ++ "_normalized")%string
                     = Some (Str (strip (lower (py_str (fillna ""
                                                 (txt r field)))))))
              (rows (fold_left normalize_field fs d))).
  { induction fs as [|g fs IH]; intros d Hsub Hd; [done|].
    cbn [fold_left]. apply IH; [intros g' Hg'; apply Hsub; by right|].
    assert (Hg : g ∈ fields) by (apply Hsub; left).
    destruct (decide (g = field)) as [->|Hne].
    - destruct (decide (field ∈ columns d)) as [Hc|Hc].
      + apply normalize_field_cell; [done | by apply Hn1].
      + unfold normalize_field, in_columns.
        by rewrite bool_decide_eq_false_2.
    - apply normalize_field_keeps_cell; [by apply Hn2 | by apply Hn1 | done]. }
  assert (Hgen : forall fs d,
            (forall g, g ∈ fs -> g ∈ fields) -> field ∈ fs ->
            field ∈ columns d ->
            Forall (fun r => dict_get (strs r) (field ++ "_normalized")%string
                     = Some (Str (strip (lower (py_str (fillna ""
                                                 (txt r field)))))))
              (rows (fold_left normalize_field fs d))).
  { induction fs as [|g fs IH]; intros d Hsub Hin Hcol;
      [by apply elem_of_nil in Hin|].
    cbn [fold_left]. apply elem_of_cons in Hin as [->|Hin].
    - apply Hkeep; [intros g' Hg'; apply Hsub; by right|].
      apply normalize_field_cell; [done|]. apply Hn1, Hsub. left.
    - apply IH; [intros g' Hg'; apply Hsub; by right | done |].
      apply normalize_field_columns. by left. }
  intros Hin Hcol. by apply Hgen.
Qed.

Lemma text_fields_names (field other : string) :
  field ∈ text_fields -> other ∈ text_fields ->
  (other ++ "_normalized")%string <> field
  /\ (other <> field ->
      (other ++ "_normalized")%string <> (field ++ "_normalized")%string).
Proof.
  unfold text_fields. intros Hf Ho.
  repeat (apply elem_of_cons in Hf as [->|Hf]);
    try (by apply elem_of_nil in Hf);
    repeat (apply elem_of_cons in Ho as [->|Ho]);
    try (by apply elem_of_nil in Ho); split; done.
Qed.

Lemma text_field_origin (df : DataFrame) (field : string) :
  field ∈ text_fields ->
  field ∈ columns (fold_left normalize_field text_fields df) ->
  field ∈ columns df.
Proof.
  intros Hf [Hc|(g & Hg & E & _)]%normalize_fields_columns_inv; [done|].
  by destruct (text_fields_names field g Hf Hg) as [Hne _].
Qed.

Lemma normalisation_idempotent (df : DataFrame) :
  fold_left normalize_field text_fields
    (fold_left normalize_field text_fields df)
  = fold_left normalize_field text_fields df.
Proof.
  set (df1 := fold_left normalize_field text_fields df).
  assert (Hfix : forall field, field ∈ text_fields ->
            normalize_field df1 field = df1).
  { intros field Hf. apply normalize_field_fixed. intros Hc.
    apply text_field_origin in Hc; [|done]. split.
    - by apply normalize_fields_columns.
    - apply normalize_fields_cell; try done.
      + intros g Hg. by apply (text_fields_names field g).
      + intros g Hg. by apply (text_fields_names field g). }
  unfold text_fields at 1. cbn [fold_left].
  rewrite !Hfix; [done | | | |]; unfold text_fields;
    repeat first [by left | right].
Qed.

Lemma normalize_field_rows (df : DataFrame) (field : string) :
  exists h : Row -> Row,
    rows (normalize_field df field) = map h (rows df)
    /\ (forall r, sku (h r) = sku r)
    /\ (forall r c, c <> (field ++ "_normalized")%string ->
          txt (h r) c = txt r c).
Proof.
  unfold normalize_field. destruct (in_columns field df).
  - eexists. split; [reflexivity|]. split; [done|].
    intros r c Hc. rewrite txt_set_txt. by rewrite decide_False.
  - exists id. split; [by rewrite map_id|]. done.
Qed.

Lemma normalize_fields_rows (fields : list string) (df : DataFrame) :
  exists h : Row -> Row,
    rows (fold_left normalize_field fields df) = map h (rows df)
    /\ (forall r, sku (h r) = sku r)
    /\ (forall r c,
          (forall g, g ∈ fields -> c <> (g ++ "_normalized")%string) ->
          txt (h r) c = txt r c).
Proof.
  revert df. induction fields as [|g fields IH]; intros df.
  - exists id. split; [by rewrite map_id|]. done.
  - cbn [fold_left].
    destruct (normalize_field_rows df g) as (h1 & E1 & Hs1 & Ht1).
    destruct (IH (normalize_field df g)) as (h2 & E2 & Hs2 & Ht2).
    exists (fun r => h2 (h1 r)). split; [|split].
    + by rewrite E2, E1, map_map.
    + intros r. by rewrite Hs2, Hs1.
    + intros r c Hc. rewrite Ht2, Ht1; [done | |].
      * apply Hc. left.
      * intros g' Hg'. apply Hc. by right.
Qed.

Lemma flat_map_ext_elem {A B : Type} (f g : A -> list B) (l : list A) :
  (forall x, x ∈ l -> f x = g x) -> flat_map f l = flat_map g l.
Proof.
  induction l as [|x l IH]; intros H; [done|]. cbn [flat_map].
  rewrite (H x) by left. rewrite IH; [done|]. intros y Hy. apply H. by right.
Qed.

Lemma filter_map_comm {A : Type} (P : A -> bool) (h : A -> A) (l : list A) :
  (forall x, P (h x) = P x) ->
  List.filter P (map h l) = map h (List.filter P l).
Proof.
  intros H. induction l as [|x l IH]; [done|]. cbn [map List.filter].
  rewrite H, IH. by destruct (P x).
Qed.

Lemma omap_map_same {A B : Type} (f : A -> option B) (h : A -> A)
    (l : list A) :
  (forall x, f (h x) = f x) -> omap f (map h l) = omap f l.
Proof.
  intros H. induction l as [|x l IH]; [done|]. cbn. by rewrite H, IH.
Qed.

Lemma groupby_map (col : string) (h : Row -> Row) (rs : list Row) :
  (forall r, txt (h r) col = txt r col) ->
  groupby col (map h rs)
  = map (fun entry => (entry.1, map h entry.2)) (groupby col rs).
Proof.
  intros H. unfold groupby.
  rewrite (omap_map_same (fun r => as_str (txt r col)))
    by (intros r; by rewrite H).
  rewrite map_map. apply map_ext. intros v. cbn [fst snd]. f_equal.
  apply filter_map_comm. intros r. by rewrite H.
Qed.

(** The identifier strategy reads the SKU and the identifier cells only. *)
Lemma identifiers_row_map (h : Row -> Row) (df df' : DataFrame) :
  rows df' = map h (rows df) ->
  (forall r, sku (h r) = sku r) ->
  (forall r col, col ∈ identifier_columns -> txt (h r) col = txt r col) ->
  (forall col, col ∈ identifier_columns ->
     in_columns col df' = in_columns col df) ->
  _find_by_identifiers df' = _find_by_identifiers df.
Proof.
  intros Hrows Hsku Htxt Hcols. unfold _find_by_identifiers.
  apply flat_map_ext_elem. intros col Hcol. rewrite (Hcols col Hcol).
  destruct (in_columns col df); [|done]. rewrite Hrows.
  rewrite (filter_map_comm (fun r => notna (txt r col)))
    by (intros r; by rewrite Htxt).
  rewrite groupby_map by (intros r; by apply Htxt).
  generalize (groupby col
                (List.filter (fun r => notna (txt r col)) (rows df))).
  intros groups. induction groups as [|[v g] groups IH]; [done|].
  cbn [map flat_map fst snd]. rewrite IH. f_equal.
  rewrite length_map, map_map.
  by rewrite (map_ext (fun r => sku (h r)) sku) by done.
Qed.

(** X15. Running the detection again on the catalog that a first run has written
    to changes nothing: the catalog stays as the first run left it, and the
    result (a list of merged candidates, or a failure) is the one of the first
    run. The same holds of the fuzzy strategy alone. *)
Theorem detection_is_idempotent (order : list string -> list string)
    (products_df embeddings_df : DataFrame) (similarity_threshold : Q) :
  let first :=
    detect_duplicates_multi_strategy order products_df embeddings_df
      similarity_threshold in
  detect_duplicates_multi_strategy order first.1 embeddings_df
    similarity_threshold = first
  /\ _find_by_fuzzy_attributes (_find_by_fuzzy_attributes products_df).1
     = _find_by_fuzzy_attributes products_df.
Proof.
  assert (Hfuzzy : _find_by_fuzzy_attributes
                     (_find_by_fuzzy_attributes products_df).1
                   = _find_by_fuzzy_attributes products_df).
  { unfold _find_by_fuzzy_attributes. cbn [fst].
    by rewrite normalisation_idempotent. }
  split; [|done].
  assert (Hid : _find_by_identifiers (_find_by_fuzzy_attributes products_df).1
                = _find_by_identifiers products_df).
  { unfold _find_by_fuzzy_attributes. cbn [fst].
    destruct (normalize_fields_rows text_fields products_df)
      as (h & Hrows & Hsku & Htxt).
    apply (identifiers_row_map h); [done | done | |].
    - intros r col Hcol. apply Htxt. intros g Hg.
      unfold identifier_columns in Hcol. unfold text_fields in Hg.
      repeat (apply elem_of_cons in Hcol as [->|Hcol]);
        try (by apply elem_of_nil in Hcol);
        repeat (apply elem_of_cons in Hg as [->|Hg]);
        try (by apply elem_of_nil in Hg); done.
    - intros col Hcol. unfold in_columns. apply bool_decide_ext. split.
      + intros [Hc|(g & Hg & E & _)]%normalize_fields_columns_inv; [done|].
        exfalso.
        unfold identifier_columns in Hcol. unfold text_fields in Hg.
        repeat (apply elem_of_cons in Hcol as [->|Hcol]);
          try (by apply elem_of_nil in Hcol);
          repeat (apply elem_of_cons in Hg as [->|Hg]);
          try (by apply elem_of_nil in Hg); done.
      + intros Hc.
        by apply normalize_fields_keep_columns. }
  cbv zeta. unfold detect_duplicates_multi_strategy at 1.
  rewrite detect_frame.
  fold (_find_by_fuzzy_attributes products_df).1.
  change (fold_left normalize_field text_fields products_df)
    with (_find_by_fuzzy_attributes products_df).1.
  rewrite Hfuzzy, Hid. reflexivity.
Qed.

(** ** The merged records *)

Lemma sorted2_comm (a b : string) : sorted2 a b = sorted2 b a.
Proof.
  unfold sorted2, String.ltb. rewrite (String.compare_antisym a b).
  destruct (String.compare b a) eqn:E; simpl; try done.
  by apply String.compare_eq_iff in E as ->.
Qed.

Lemma sorted2_cases (a b : string) :
  sorted2 a b = (a, b) \/ sorted2 a b = (b, a).
Proof. unfold sorted2. destruct (String.ltb b a); auto. Qed.

Lemma sorted2_ordered (a b : string) :
  String.leb (sorted2 a b).1 (sorted2 a b).2 = true.
Proof.
  unfold sorted2, String.ltb, String.leb.
  destruct (String.compare b a) eqn:E; cbn [fst snd].
  - rewrite String.compare_antisym, E. done.
  - by rewrite E.
  - rewrite String.compare_antisym, E. done.
Qed.

Lemma pair_key_joins (c c' : DuplicateCandidate) :
  joins c' (sku1 c) (sku2 c) -> pair_key c' = pair_key c.
Proof.
  unfold pair_key. intros [[-> ->]|[-> ->]]; [done | apply sorted2_comm].
Qed.

Lemma merge_pair_similarity (order : list string -> list string)
    (k : string * string) (g : list DuplicateCandidate) :
  similarity_score (merge_pair order k g) = max_of (map similarity_score g).
Proof. reflexivity. Qed.

Lemma merged_record_of (order : list string -> list string)
    (cands : list DuplicateCandidate) (df : DataFrame)
    (c : DuplicateCandidate) :
  c ∈ cands ->
  merge_pair order (pair_key c) (group_of cands (pair_key c))
    ∈ _merge_candidates order cands df
  /\ c ∈ group_of cands (pair_key c).
Proof.
  intros Hc. assert (Hg : c ∈ group_of cands (pair_key c))
    by (by apply group_of_elem).
  split; [|done]. apply merge_elem. exists (pair_key c). split; [|done].
  intros E. rewrite E in Hg. by apply elem_of_nil in Hg.
Qed.

(** X16. The merged list has one record for each unordered pair of SKUs: a
    record names its two SKUs in increasing order, and two candidates that name
    the same two SKUs, in the same or in the opposite order, go into one record,
    whose similarity is at least theirs. *)
Theorem merged_records_are_unordered_pairs
    (order : list string -> list string)
    (cands : list DuplicateCandidate) (df : DataFrame) :
  (forall m, m ∈ _merge_candidates order cands df ->
     String.leb (sku1 m) (sku2 m) = true)
  /\ (forall c c', c ∈ cands -> c' ∈ cands -> joins c' (sku1 c) (sku2 c) ->
       exists m, m ∈ _merge_candidates order cands df
         /\ joins m (sku1 c) (sku2 c)
         /\ c ∈ group_of cands (sku1 m, sku2 m)
         /\ c' ∈ group_of cands (sku1 m, sku2 m)
         /\ (similarity_score c <= similarity_score m)%Q
         /\ (similarity_score c' <= similarity_score m)%Q)
  /\ (forall m m', m ∈ _merge_candidates order cands df ->
       m' ∈ _merge_candidates order cands df ->
       joins m' (sku1 m) (sku2 m) -> m = m').
Proof.
  split; [|split].
  - intros m (k & Hne & ->)%merge_elem.
    destruct (group_of cands k) as [|c g] eqn:E; [done|].
    assert (Hc : c ∈ group_of cands k) by (rewrite E; left).
    apply group_of_elem in Hc as [_ <-].
    pose proof (merge_pair_key order (pair_key c) (c :: g)) as Hk.
    pose proof (sorted2_ordered (sku1 c) (sku2 c)) as Ho.
    unfold pair_key in Hk at 3. rewrite <- Hk in Ho. exact Ho.
  - intros c c' Hc Hc' Hj.
    destruct (merged_record_of order cands df c Hc) as [Hm Hg].
    remember (merge_pair order (pair_key c) (group_of cands (pair_key c)))
      as m eqn:Em.
    assert (Hk : (sku1 m, sku2 m) = pair_key c)
      by (rewrite Em; apply merge_pair_key).
    assert (Hg' : c' ∈ group_of cands (pair_key c)).
    { apply group_of_elem. split; [done | by apply pair_key_joins]. }
    exists m. split; [done|]. split.
    { unfold joins. unfold pair_key in Hk.
      destruct (sorted2_cases (sku1 c) (sku2 c)) as [E|E]; rewrite E in Hk;
        injection Hk as E1 E2; auto. }
    rewrite Hk. split; [done|]. split; [done|].
    rewrite Em, merge_pair_similarity.
    split; apply max_of_upper, list_elem_of_fmap; eauto.
  - intros m m' (k & Hne & ->)%merge_elem (k' & Hne' & ->)%merge_elem Hj.
    assert (E : k = k'); [|by subst].
    destruct (group_of cands k) as [|c g] eqn:E; [done|].
    assert (Hc : c ∈ group_of cands k) by (rewrite E; left).
    apply group_of_elem in Hc as [_ Hk].
    destruct (group_of cands k') as [|c' g'] eqn:E'; [done|].
    assert (Hc' : c' ∈ group_of cands k') by (rewrite E'; left).
    apply group_of_elem in Hc' as [_ Hk'].
    pose proof (sorted2_ordered (sku1 c) (sku2 c)) as Ho.
    pose proof (sorted2_ordered (sku1 c') (sku2 c')) as Ho'.
    fold (pair_key c) in Ho. fold (pair_key c') in Ho'.
    rewrite Hk in Ho. rewrite Hk' in Ho'.
    destruct k as [a b], k' as [a' b']. cbn [fst snd] in Ho, Ho'.
    unfold joins in Hj. cbn in Hj.
    destruct Hj as [[-> ->]|[-> ->]]; [done|].
    by rewrite (String.leb_antisym _ _ Ho Ho').
Qed.

Lemma merged_records_are_unordered_pairs_witness :
  exists m, m ∈ _merge_candidates remove_dups [fuzzy_AB; pattern_BA] (mkDF [] [])
    /\ joins m (sku1 fuzzy_AB) (sku2 fuzzy_AB)
    /\ fuzzy_AB ∈ group_of [fuzzy_AB; pattern_BA] (sku1 m, sku2 m)
    /\ pattern_BA ∈ group_of [fuzzy_AB; pattern_BA] (sku1 m, sku2 m)
    /\ (similarity_score fuzzy_AB <= similarity_score m)%Q
    /\ (similarity_score pattern_BA <= similarity_score m)%Q.
Proof.
  destruct (merged_records_are_unordered_pairs remove_dups
              [fuzzy_AB; pattern_BA] (mkDF [] [])) as (_ & H & _).
  apply (H fuzzy_AB pattern_BA).
  - left.
  - right. left.
  - right. split; reflexivity.
Defined.

Lemma size_list_to_set_le (l : list (string * string)) :
  (size (list_to_set l : gset (string * string)) <= length l)%nat.
Proof.
  induction l as [|x l IH]; [done|].
  cbn [list_to_set length]. rewrite size_union_alt, size_singleton.
  assert (H : (size ((list_to_set l : gset (string * string)) ∖ {[x]})
               <= size (list_to_set l : gset (string * string)))%nat).
  { apply subseteq_size. intros y Hy. apply elem_of_difference in Hy. tauto. }
  lia.
Qed.

(** X17. The merged list has as many records as the candidates name distinct
    unordered pairs: never more records than candidates, and none only when
    there is no candidate. *)
Theorem merged_length (order : list string -> list string)
    (cands : list DuplicateCandidate) (df : DataFrame) :
  length (_merge_candidates order cands df)
  = size (list_to_set (map pair_key cands) : gset (string * string))
  /\ (length (_merge_candidates order cands df) <= length cands)%nat
  /\ (_merge_candidates order cands df = [] <-> cands = []).
Proof.
  assert (Hlen : length (_merge_candidates order cands df)
                 = length (keys (pair_map cands))).
  { rewrite <- (merge_keys order cands df). by rewrite length_map. }
  assert (Hset : (list_to_set (keys (pair_map cands)) : gset (string * string))
                 = list_to_set (map pair_key cands)).
  { apply leibniz_equiv. intros k. rewrite !elem_of_list_to_set.
    rewrite pair_map_keys, list_elem_of_fmap. split.
    - intros (c & Hc & <-). by exists c.
    - intros (c & -> & Hc). by exists c. }
  assert (Hsize : length (_merge_candidates order cands df)
    = size (list_to_set (map pair_key cands) : gset (string * string))).
  { rewrite Hlen, <- Hset. symmetry. apply size_list_to_set, pair_map_NoDup. }
  split; [done|]. split.
  - rewrite Hsize. rewrite <- (length_map pair_key cands).
    apply size_list_to_set_le.
  - split.
    + intros E. rewrite E in Hsize. cbn in Hsize. symmetry in Hsize.
      apply size_empty_iff in Hsize. destruct cands as [|c cands]; [done|].
      exfalso. apply (elem_of_empty (C := gset (string * string)) (pair_key c)).
      apply Hsize, elem_of_list_to_set. left.
    + by intros ->.
Qed.

(** ** The order of the merged records *)

Lemma insert_by_confidence_split (x : DuplicateCandidate)
    (l : list DuplicateCandidate) :
  exists l1 l2,
    l = l1 ++ l2 /\ insert_by_confidence x l = l1 ++ x :: l2
    /\ forall y, y ∈ l1 -> (confidence x < confidence y)%Q.
Proof.
  induction l as [|y l IH].
  - exists [], []. split; [done|]. split; [done|]. by intros y ?%elem_of_nil.
  - cbn [insert_by_confidence].
    destruct (Qltb (confidence x) (confidence y)) eqn:E.
    + destruct IH as (l1 & l2 & -> & -> & Hl1).
      exists (y :: l1), l2. split; [done|]. split; [done|].
      intros z [->|Hz]%elem_of_cons; [by apply Qltb_lt | by apply Hl1].
    + exists [], (y :: l). split; [done|]. split; [done|].
      by intros z ?%elem_of_nil.
Qed.

Lemma before_insert_middle {A : Type} (l1 l2 : list A) (x a b : A) :
  before (l1 ++ l2) a b -> before (l1 ++ x :: l2) a b.
Proof.
  intros (i & j & Hij & Hi & Hj).
  assert (Hshift : forall k c, (l1 ++ l2) !! k = Some c ->
            (l1 ++ x :: l2) !! (if decide (k < length l1)%nat then k else S k)
            = Some c).
  { intros k c Hk. destruct (decide (k < length l1)%nat) as [Hlt|Hge].
    - rewrite lookup_app_l in Hk by done. by rewrite lookup_app_l.
    - rewrite lookup_app_r in Hk by lia. rewrite lookup_app_r by lia.
      replace (S k - length l1)%nat with (S (k - length l1)) by lia. done. }
  exists (if decide (i < length l1)%nat then i else S i),
         (if decide (j < length l1)%nat then j else S j).
  split; [|split; by apply Hshift].
  destruct (decide (i < length l1)%nat), (decide (j < length l1)%nat); lia.
Qed.

Lemma before_insert_new (x b : DuplicateCandidate)
    (l : list DuplicateCandidate) :
  b ∈ l -> (confidence b <= confidence x)%Q ->
  before (insert_by_confidence x l) x b.
Proof.
  intros Hb Hle.
  destruct (insert_by_confidence_split x l) as (l1 & l2 & -> & -> & Hl1).
  apply elem_of_app in Hb as [Hb|Hb].
  { apply Hl1 in Hb. lra. }
  apply list_elem_of_lookup_1 in Hb as [j Hj].
  exists (length l1), (length l1 + S j)%nat. split; [lia|]. split.
  - rewrite lookup_app_r by done. by rewrite Nat.sub_diag.
  - rewrite lookup_app_r by lia.
    replace (length l1 + S j - length l1)%nat with (S j) by lia. done.
Qed.

(** The sort is stable: of two records, the first one stays first unless
    the second one has a greater confidence. *)
Lemma sort_by_confidence_stable (l : list DuplicateCandidate)
    (a b : DuplicateCandidate) :
  before l a b -> (confidence b <= confidence a)%Q ->
  before (sort_by_confidence l) a b.
Proof.
  intros Hab Hle. induction l as [|x l IH].
  { destruct Hab as (i & j & _ & Hi & _). done. }
  unfold sort_by_confidence. cbn [foldr]. fold (sort_by_confidence l).
  destruct Hab as (i & j & Hij & Hi & Hj).
  destruct j as [|j]; [lia|]. cbn in Hj.
  destruct i as [|i].
  - injection Hi as ->. apply before_insert_new; [|done].
    rewrite sort_by_confidence_perm. by eapply list_elem_of_lookup_2.
  - cbn in Hi.
    destruct (insert_by_confidence_split x (sort_by_confidence l))
      as (l1 & l2 & E & -> & _).
    apply before_insert_middle. rewrite <- E. apply IH.
    exists i, j. split; [lia | done].
Qed.

Lemma before_map {A B : Type} (f : A -> B) (l : list A) (a b : A) :
  before l a b -> before (map f l) (f a) (f b).
Proof.
  intros (i & j & Hij & Hi & Hj). exists i, j. split; [done|].
  by rewrite !list_lookup_fmap, Hi, Hj.
Qed.

Lemma pair_map_keys_grow (l : list DuplicateCandidate)
    (d : list ((string * string) * list DuplicateCandidate)) :
  exists more,
    keys (fold_left (fun d c => dl_append d (pair_key c) c) l d)
    = keys d ++ more.
Proof.
  revert d. induction l as [|c l IH]; intros d.
  - exists []. by rewrite app_nil_r.
  - cbn [fold_left]. destruct (IH (dl_append d (pair_key c) c)) as [more ->].
    rewrite dl_append_keys. case_bool_decide.
    + by exists more.
    + exists (pair_key c :: more). by rewrite <- app_assoc.
Qed.

(** A pair that is seen first has its entry first. *)
Lemma pair_map_before (l1 l2 : list DuplicateCandidate)
    (c1 : DuplicateCandidate) (k2 : string * string)
    (g1 g2 : list DuplicateCandidate) :
  (forall c, c ∈ l1 ++ [c1] -> pair_key c <> k2) ->
  (pair_key c1, g1) ∈ pair_map (l1 ++ c1 :: l2) ->
  (k2, g2) ∈ pair_map (l1 ++ c1 :: l2) ->
  before (pair_map (l1 ++ c1 :: l2)) (pair_key c1, g1) (k2, g2).
Proof.
  intros Hnew H1 H2.
  assert (Hnd : NoDup (keys (pair_map (l1 ++ c1 :: l2))))
    by apply pair_map_NoDup.
  apply list_elem_of_lookup_1 in H1 as [i Hi], H2 as [j Hj].
  exists i, j. split; [|done].
  replace (l1 ++ c1 :: l2) with ((l1 ++ [c1]) ++ l2) in *
    by by rewrite <- app_assoc.
  unfold pair_map in *. rewrite fold_left_app in *.
  set (d := fold_left (fun d c => dl_append d (pair_key c) c) (l1 ++ [c1]) [])
    in *.
  destruct (pair_map_keys_grow l2 d) as [more Hkeys].
  assert (Hk1 : pair_key c1 ∈ keys d).
  { apply (pair_map_keys (l1 ++ [c1])). exists c1.
    split; [apply elem_of_app; right; left | done]. }
  assert (Hk2 : k2 ∉ keys d).
  { intros (c & Hc & E)%(pair_map_keys (l1 ++ [c1])). by apply (Hnew c). }
  assert (Hi' : keys (fold_left (fun d c => dl_append d (pair_key c) c) l2 d)
                  !! i = Some (pair_key c1)).
  { unfold keys. by rewrite list_lookup_fmap, Hi. }
  assert (Hj' : keys (fold_left (fun d c => dl_append d (pair_key c) c) l2 d)
                  !! j = Some k2).
  { unfold keys. by rewrite list_lookup_fmap, Hj. }
  apply list_elem_of_lookup_1 in Hk1 as [i0 Hi0].
  assert (Ei : i = i0).
  { eapply (NoDup_lookup _ _ _ _ Hnd); [exact Hi'|].
    rewrite Hkeys. by apply lookup_app_l_Some. }
  subst i0. apply lookup_lt_Some in Hi0.
  destruct (decide (j < length (keys d))%nat) as [Hlt|Hge]; [|lia].
  exfalso. apply Hk2. rewrite Hkeys, lookup_app_l in Hj' by done.
  by eapply list_elem_of_lookup_2.
Qed.

(** X18. Records of equal confidence are listed in the order in which their
    pairs are first seen among the candidates: a record stands before every
    record that is not more confident and whose pair is first seen later. *)
Theorem merged_ties_keep_first_seen_order
    (order : list string -> list string)
    (l1 l2 : list DuplicateCandidate) (c1 : DuplicateCandidate)
    (df : DataFrame) (m1 m2 : DuplicateCandidate) :
  m1 ∈ _merge_candidates order (l1 ++ c1 :: l2) df ->
  m2 ∈ _merge_candidates order (l1 ++ c1 :: l2) df ->
  (sku1 m1, sku2 m1) = pair_key c1 ->
  (forall c, c ∈ l1 ++ [c1] -> pair_key c <> (sku1 m2, sku2 m2)) ->
  (confidence m2 <= confidence m1)%Q ->
  before (_merge_candidates order (l1 ++ c1 :: l2) df) m1 m2.
Proof.
  intros (k1 & Hne1 & ->)%merge_elem (k2 & Hne2 & ->)%merge_elem Hk1 Hnew Hle.
  rewrite merge_pair_key in Hk1. rewrite merge_pair_key in Hnew. subst k1.
  unfold _merge_candidates. apply sort_by_confidence_stable; [|done].
  apply (before_map (fun entry => merge_pair order entry.1 entry.2) _
           (pair_key c1, group_of (l1 ++ c1 :: l2) (pair_key c1))
           (k2, group_of (l1 ++ c1 :: l2) k2)).
  apply pair_map_before; [done | |]; by apply pair_map_elem.
Qed.

Lemma merged_ties_keep_first_seen_order_witness :
  before (_merge_candidates remove_dups [r_AB; r_CD] (mkDF [] []))
    (merge_pair remove_dups ("A", "B") [r_AB])
    (merge_pair remove_dups ("C", "D") [r_CD]).
Proof.
  apply (merged_ties_keep_first_seen_order remove_dups [] [r_CD] r_AB
           (mkDF [] []) (merge_pair remove_dups ("A", "B") [r_AB])
           (merge_pair remove_dups ("C", "D") [r_CD])).
  - vm_compute. left.
  - vm_compute. right. left.
  - reflexivity.
  - intros c Hc. apply list_elem_of_singleton in Hc as ->. by vm_compute.
  - by vm_compute.
Defined.

(** ** Groups *)

Lemma candidate_graph_facts (cands : list DuplicateCandidate)
    (min_confidence : Q) :
  let graph := build_graph (high_confidence cands min_confidence) in
  NoDup (keys graph)
  /\ (forall x y, adj graph x y -> y ∈ nodes graph)
  /\ (forall x y, adj graph x y -> adj graph y x)
  /\ (forall x, x ∈ keys graph <-> exists y, adj graph x y).
Proof.
  intros graph.
  destruct (build_graph_spec (high_confidence cands min_confidence))
    as [[Hnd Hkeys] Hadj]. fold graph in Hnd, Hkeys, Hadj.
  assert (Hsym : forall x y, adj graph x y -> adj graph y x).
  { intros x y. unfold adj. rewrite !Hadj.
    intros (c & Hc & Hj). exists c. split; [done | by apply joins_sym]. }
  split; [done|]. split; [|split; [done|]].
  - intros x y Hxy. unfold nodes. rewrite elem_of_list_to_set.
    apply Hkeys. exists x. by apply Hsym.
  - intros x. apply Hkeys.
Qed.

Lemma group_duplicates_spec (order : list string -> list string)
    (cands : list DuplicateCandidate) (min_confidence : Q) :
  (forall l x, x ∈ order l <-> x ∈ l) ->
  let groups := group_duplicates order cands min_confidence in
  (forall i j g h x,
     groups !! i = Some g -> groups !! j = Some h -> x ∈ g -> x ∈ h -> i = j)
  /\ (forall g, g ∈ groups -> exists x, x ∈ g)
  /\ (forall g x, g ∈ groups -> x ∈ g ->
        (exists y, surviving_edge cands min_confidence x y)
        /\ forall y, y ∈ g <-> linked cands min_confidence x y)
  /\ (forall x y, surviving_edge cands min_confidence x y ->
        exists g, g ∈ groups /\ x ∈ g /\ y ∈ g).
Proof.
  intros Horder groups. unfold groups. rewrite group_duplicates_unfold.
  destruct (candidate_graph_facts cands min_confidence)
    as (Hnd & Hadjn & Hsym & Hkeys).
  set (graph := build_graph (high_confidence cands min_confidence)) in *.
  destruct (visit_all order Horder graph Hnd Hadjn Hsym (keys graph) (∅, []))
    as ((Hcl & Hsub & Hcover & Hdisj & Hcomp & Hfull) & Hall & _).
  { apply components_start. }
  { intros k Hk. unfold nodes. by apply elem_of_list_to_set. }
  set (out := fold_left (visit order graph) (keys graph) (∅, [])) in *.
  split; [exact Hdisj|]. split; [exact Hfull|]. split.
  - intros g x Hg Hx. split.
    + assert (Hxn : x ∈ nodes graph).
      { apply Hsub, Hcover. by exists g. }
      unfold nodes in Hxn. rewrite elem_of_list_to_set in Hxn.
      apply Hkeys in Hxn as [y Hy]. exists y. by apply adj_surviving.
    + intros y. rewrite (Hcomp g x Hg Hx). apply reach_linked.
  - intros x y Hxy. apply adj_surviving in Hxy. fold graph in Hxy.
    assert (Hx : x ∈ out.1).
    { apply Hall. apply Hkeys. by exists y. }
    apply Hcover in Hx as (g & Hg & Hx). exists g.
    split; [done|]. split; [done|].
    apply (Hcomp g x Hg Hx). by apply rtc_once.
Qed.

Lemma surviving_edge_mono (cands cands' : list DuplicateCandidate)
    (t t' : Q) (x y : string) :
  (forall c, c ∈ cands -> c ∈ cands') -> (t' <= t)%Q ->
  surviving_edge cands t x y -> surviving_edge cands' t' x y.
Proof.
  intros Hsub Ht (c & Hc & Hconf & Hj). exists c.
  split; [by apply Hsub|]. split; [|done]. by apply Qle_trans with t.
Qed.

(** X19. Lowering the threshold or adding candidates only joins groups: every
    group found at a threshold, from some candidates, lies inside one group
    found at any lower threshold from these candidates and more. *)
Theorem groups_grow_with_evidence (order : list string -> list string)
    (cands cands' : list DuplicateCandidate) (t t' : Q) :
  (forall l x, x ∈ order l <-> x ∈ l) ->
  (forall c, c ∈ cands -> c ∈ cands') ->
  (t' <= t)%Q ->
  forall g, g ∈ group_duplicates order cands t ->
    exists g', g' ∈ group_duplicates order cands' t' /\ g ⊆ g'.
Proof.
  intros Horder Hsub Ht g Hg.
  destruct (group_duplicates_spec order cands t Horder)
    as (_ & Hfull & Hcomp & _).
  destruct (group_duplicates_spec order cands' t' Horder)
    as (_ & _ & Hcomp' & Hedge').
  destruct (Hfull g Hg) as [x Hx].
  destruct (Hcomp g x Hg Hx) as [[y Hxy] Hlink].
  destruct (Hedge' x y) as (g' & Hg' & Hx' & _).
  { by apply (surviving_edge_mono cands cands' t t'). }
  exists g'. split; [done|]. intros z Hz.
  apply (Hcomp' g' x Hg' Hx'). apply Hlink in Hz.
  eapply rtc_subrel; [|exact Hz].
  intros a b. by apply surviving_edge_mono.
Qed.

Lemma groups_grow_with_evidence_witness :
  exists g', g' ∈ group_duplicates remove_dups
                    [pair_at "A" "B" 0.9; pair_at "B" "C" 0.8] 0.8
             /\ ({["A"; "B"]} : gset string) ⊆ g'.
Proof.
  apply (groups_grow_with_evidence remove_dups [pair_at "A" "B" 0.9]
           [pair_at "A" "B" 0.9; pair_at "B" "C" 0.8] 0.85 0.8).
  - intros l x. apply elem_of_remove_dups.
  - intros c Hc. apply elem_of_cons. left. by apply list_elem_of_singleton.
  - by vm_compute.
  - apply (bool_decide_unpack _). vm_compute. exact I.
Defined.

(** X20. A group is never a product on its own, unless a candidate pairs a SKU
    with itself: every group holds the two SKUs of a candidate that reaches the
    threshold, so it has at least two members when the surviving candidates name
    two different SKUs each. There is no group exactly when no candidate reaches
    the threshold. *)
Theorem groups_hold_a_surviving_pair (order : list string -> list string)
    (cands : list DuplicateCandidate) (min_confidence : Q) :
  (forall l x, x ∈ order l <-> x ∈ l) ->
  let groups := group_duplicates order cands min_confidence in
  (forall g, g ∈ groups ->
     exists c, c ∈ cands /\ (min_confidence <= confidence c)%Q
               /\ sku1 c ∈ g /\ sku2 c ∈ g)
  /\ ((forall c, c ∈ cands -> (min_confidence <= confidence c)%Q ->
         sku1 c <> sku2 c) ->
      forall g, g ∈ groups -> (2 <= size g)%nat)
  /\ (groups = [] <-> high_confidence cands min_confidence = []).
Proof.
  intros Horder groups.
  destruct (group_duplicates_spec order cands min_confidence Horder)
    as (_ & Hfull & Hcomp & Hedge). fold groups in Hfull, Hcomp, Hedge.
  assert (Hpair : forall g, g ∈ groups ->
     exists c, c ∈ cands /\ (min_confidence <= confidence c)%Q
               /\ sku1 c ∈ g /\ sku2 c ∈ g).
  { intros g Hg. destruct (Hfull g Hg) as [x Hx].
    destruct (Hcomp g x Hg Hx) as [[y Hxy] Hlink].
    assert (Hy : y ∈ g) by (apply Hlink; by apply rtc_once).
    destruct Hxy as (c & Hc & Hconf & Hj). exists c.
    split; [done|]. split; [done|].
    destruct Hj as [[-> ->]|[-> ->]]; done. }
  split; [exact Hpair|]. split.
  - intros Hne g Hg. destruct (Hpair g Hg) as (c & Hc & Hconf & H1 & H2).
    assert (Hsub : ({[sku1 c; sku2 c]} : gset string) ⊆ g).
    { intros z [->%elem_of_singleton| ->%elem_of_singleton]%elem_of_union;
        done. }
    apply subseteq_size in Hsub. rewrite size_union in Hsub.
    + rewrite !size_singleton in Hsub. lia.
    + intros z ->%elem_of_singleton ?%elem_of_singleton.
      by apply (Hne c Hc Hconf).
  - split.
    + intros E. destruct (high_confidence cands min_confidence) as [|c hc] eqn:Ehc;
        [done|]. exfalso.
      assert (Hc : c ∈ high_confidence cands min_confidence)
        by (rewrite Ehc; left).
      unfold high_confidence in Hc.
      apply list_elem_of_In, filter_In in Hc as [Hc%list_elem_of_In Hconf].
      apply Qle_bool_iff in Hconf.
      destruct (Hedge (sku1 c) (sku2 c)) as (g & Hg & _).
      { exists c. split; [done|]. split; [done|]. by left. }
      rewrite E in Hg. by apply elem_of_nil in Hg.
    + intros E. unfold groups, group_duplicates.
      fold (high_confidence cands min_confidence). by rewrite E.
Qed.

Lemma groups_hold_a_surviving_pair_witness :
  let cands := [pair_at "A" "B" 0.9; pair_at "D" "E" 0.5] in
  let groups := group_duplicates remove_dups cands 0.85 in
  (forall g, g ∈ groups ->
     exists c, c ∈ cands /\ (0.85 <= confidence c)%Q
               /\ sku1 c ∈ g /\ sku2 c ∈ g)
  /\ ((forall c, c ∈ cands -> (0.85 <= confidence c)%Q ->
         sku1 c <> sku2 c) ->
      forall g, g ∈ groups -> (2 <= size g)%nat)
  /\ (groups = [] <-> high_confidence cands 0.85 = []).
Proof.
  apply (groups_hold_a_surviving_pair remove_dups
           [pair_at "A" "B" 0.9; pair_at "D" "E" 0.5] 0.85).
  intros l x. apply elem_of_remove_dups.
Defined.

Section VisitOrder.
Variable order1 order2 : list string -> list string.
Hypothesis order1_elem : forall l x, x ∈ order1 l <-> x ∈ l.
Hypothesis order2_elem : forall l x, x ∈ order2 l <-> x ∈ l.
Variable graph : list (string * list string).
Hypothesis keys_nodup : NoDup (keys graph).
Hypothesis adj_nodes : forall x y, adj graph x y -> y ∈ nodes graph.
Hypothesis adj_sym : forall x y, adj graph x y -> adj graph y x.

(** What a turn of the loop adds: the nodes that can be reached from the
    node, as a new group. *)
Lemma visit_adds_component (order : list string -> list string)
    (acc : gset string * list (gset string)) (node : string) :
  (forall l x, x ∈ order l <-> x ∈ l) ->
  components_so_far graph acc -> node ∈ nodes graph -> node ∉ acc.1 ->
  exists C : gset string,
    visit order graph acc node = (acc.1 ∪ C, acc.2 ++ [C])
    /\ forall y, y ∈ C <-> rtc (adj graph) node y.
Proof using keys_nodup adj_nodes adj_sym.
  intros Horder Hinv Hnode Hnotin.
  destruct (visit_spec order Horder graph keys_nodup adj_nodes adj_sym acc
              node Hinv Hnode)
    as ((_ & _ & Hcover' & _ & Hcomp' & _) & Hn & _).
  destruct Hinv as (_ & _ & Hcover & _).
  unfold visit in *. rewrite decide_False in * by done.
  set (out := dfs order graph (length graph) node (acc.1, ∅)) in *.
  cbn [fst snd] in *.
  assert (HnC : node ∈ out.2).
  { apply Hcover' in Hn as (g & [Hg| ->%list_elem_of_singleton]%elem_of_app
                            & Hx); [|done].
    exfalso. apply Hnotin, Hcover. by exists g. }
  assert (Hreach : forall y, y ∈ out.2 <-> rtc (adj graph) node y).
  { intros y. apply (Hcomp' out.2 node); [|done].
    apply elem_of_app. right. left. }
  exists out.2. split; [|done]. f_equal.
  apply leibniz_equiv. intros x. rewrite elem_of_union, Hcover', Hcover.
  split.
  - intros (g & [Hg| ->%list_elem_of_singleton]%elem_of_app & Hx).
    + left. by exists g.
    + by right.
  - intros [(g & Hg & Hx)|Hx].
    + exists g. split; [apply elem_of_app; by left | done].
    + exists out.2. split; [apply elem_of_app; right; left | done].
Qed.

Lemma visit_order_irrelevant (acc : gset string * list (gset string))
    (node : string) :
  components_so_far graph acc -> node ∈ nodes graph ->
  visit order1 graph acc node = visit order2 graph acc node.
Proof using order1_elem order2_elem keys_nodup adj_nodes adj_sym.
  intros Hinv Hnode. destruct (decide (node ∈ acc.1)) as [Hin|Hnotin].
  { unfold visit. by rewrite !decide_True. }
  destruct (visit_adds_component order1 acc node order1_elem Hinv Hnode Hnotin)
    as (C1 & -> & H1).
  destruct (visit_adds_component order2 acc node order2_elem Hinv Hnode Hnotin)
    as (C2 & -> & H2).
  assert (E : C1 = C2).
  { apply leibniz_equiv. intros y. by rewrite H1, H2. }
  by rewrite E.
Qed.

Lemma visit_all_order_irrelevant (ks : list string)
    (acc : gset string * list (gset string)) :
  components_so_far graph acc ->
  (forall k, k ∈ ks -> k ∈ nodes graph) ->
  fold_left (visit order1 graph) ks acc
  = fold_left (visit order2 graph) ks acc.
Proof using order1_elem order2_elem keys_nodup adj_nodes adj_sym.
  revert acc. induction ks as [|k ks IH]; intros acc Hinv Hks; simpl; [done|].
  assert (Hk : k ∈ nodes graph) by (apply Hks; left).
  rewrite <- (visit_order_irrelevant acc k Hinv Hk).
  apply IH.
  - by apply (visit_spec order1 order1_elem graph keys_nodup adj_nodes
                adj_sym acc k Hinv Hk).
  - intros k' Hk'. apply Hks. by right.
Qed.

End VisitOrder.

(** X21. The groups, and the order in which they are listed, do not depend on
    the order in which the traversal visits the neighbours of a node. *)
Theorem groups_independent_of_visit_order
    (order1 order2 : list string -> list string)
    (cands : list DuplicateCandidate) (min_confidence : Q) :
  (forall l x, x ∈ order1 l <-> x ∈ l) ->
  (forall l x, x ∈ order2 l <-> x ∈ l) ->
  group_duplicates order1 cands min_confidence
  = group_duplicates order2 cands min_confidence.
Proof.
  intros H1 H2. rewrite !group_duplicates_unfold.
  destruct (candidate_graph_facts cands min_confidence)
    as (Hnd & Hadjn & Hsym & Hkeys).
  f_equal. apply visit_all_order_irrelevant; try done.
  - apply components_start.
  - intros k Hk. unfold nodes. by apply elem_of_list_to_set.
Qed.

Lemma groups_independent_of_visit_order_witness :
  group_duplicates remove_dups
    [pair_at "A" "B" 0.9; pair_at "A" "C" 0.9; pair_at "D" "E" 0.9] 0.85
  = group_duplicates (fun l => reverse (remove_dups l))
      [pair_at "A" "B" 0.9; pair_at "A" "C" 0.9; pair_at "D" "E" 0.9] 0.85.
Proof.
  apply (groups_independent_of_visit_order remove_dups
           (fun l => reverse (remove_dups l))).
  - intros l x. apply elem_of_remove_dups.
  - intros l x. rewrite elem_of_reverse. apply elem_of_remove_dups.
Defined.

(** ** From candidates to groups *)

Lemma distinct_reasons_pos (g : list DuplicateCandidate)
    (c : DuplicateCandidate) :
  c ∈ g -> (1 <= distinct_reasons g)%nat.
Proof.
  intros Hc. unfold distinct_reasons.
  assert (Hsub : ({[reason c]} : gset string) ⊆ list_to_set (map reason g)).
  { intros r ->%elem_of_singleton. apply elem_of_list_to_set.
    apply list_elem_of_fmap. by exists c. }
  apply subseteq_size in Hsub. by rewrite size_singleton in Hsub.
Qed.

Lemma merged_confidence_lower (order : list string -> list string)
    (k : string * string) (g : list DuplicateCandidate)
    (c : DuplicateCandidate) :
  c ∈ g ->
  (Qmin (similarity_score c + 0.1) 1 <= confidence (merge_pair order k g))%Q.
Proof.
  intros Hc. rewrite merge_pair_confidence. apply Q.min_le_compat_r.
  assert (H1 : (similarity_score c <= max_of (map similarity_score g))%Q).
  { apply max_of_upper, list_elem_of_fmap. by exists c. }
  pose proof (inject_nat_le _ _ (distinct_reasons_pos g c Hc)) as H2.
  change (inject_Z (Z.of_nat 1)) with 1%Q in H2. lra.
Qed.

Lemma merge_pair_joins (order : list string -> list string)
    (c : DuplicateCandidate) (g : list DuplicateCandidate) :
  joins (merge_pair order (pair_key c) g) (sku1 c) (sku2 c).
Proof.
  unfold joins.
  change (((pair_key c).1 = sku1 c /\ (pair_key c).2 = sku2 c)
          \/ ((pair_key c).1 = sku2 c /\ (pair_key c).2 = sku1 c)).
  unfold pair_key.
  destruct (sorted2_cases (sku1 c) (sku2 c)) as [-> | ->]; cbn; auto.
Qed.

Lemma merged_edge (order : list string -> list string)
    (cands : list DuplicateCandidate) (df : DataFrame)
    (c : DuplicateCandidate) (t : Q) :
  c ∈ cands -> (t <= 1)%Q -> (t <= similarity_score c + 0.1)%Q ->
  surviving_edge (_merge_candidates order cands df) t (sku1 c) (sku2 c).
Proof.
  intros Hc Ht1 Ht.
  destruct (merged_record_of order cands df c Hc) as [Hm Hg].
  exists (merge_pair order (pair_key c) (group_of cands (pair_key c))).
  split; [done|]. split.
  - apply Qle_trans with (Qmin (similarity_score c + 0.1) 1);
      [by apply Q.min_glb | by apply merged_confidence_lower].
  - apply merge_pair_joins.
Qed.

Lemma candidate_reaching_threshold_grouped
    (order : list string -> list string)
    (cands : list DuplicateCandidate) (df : DataFrame)
    (c : DuplicateCandidate) (min_confidence : Q) :
  (forall l x, x ∈ order l <-> x ∈ l) ->
  c ∈ cands ->
  (min_confidence <= 1)%Q ->
  (min_confidence <= similarity_score c + 0.1)%Q ->
  exists g,
    g ∈ group_duplicates order (_merge_candidates order cands df) min_confidence
    /\ sku1 c ∈ g /\ sku2 c ∈ g.
Proof.
  intros Horder Hc Ht1 Ht.
  destruct (group_duplicates_spec order (_merge_candidates order cands df)
              min_confidence Horder) as (_ & _ & _ & Hedge).
  apply Hedge. by apply merged_edge.
Qed.

(** X22. Merging and grouping composed: a candidate whose own similarity reaches
    the threshold, for a threshold of at most 1, puts its two SKUs in one group
    of the merged list, whatever the other candidates are: merging never gives a
    pair less than the similarity of one of its candidates, capped at 1. *)
Theorem candidate_reaching_threshold_is_grouped
    (order : list string -> list string)
    (cands : list DuplicateCandidate) (df : DataFrame)
    (c : DuplicateCandidate) (min_confidence : Q) :
  (forall l x, x ∈ order l <-> x ∈ l) ->
  c ∈ cands ->
  (min_confidence <= 1)%Q ->
  (min_confidence <= similarity_score c)%Q ->
  exists g,
    g ∈ group_duplicates order (_merge_candidates order cands df) min_confidence
    /\ sku1 c ∈ g /\ sku2 c ∈ g.
Proof.
  intros Horder Hc Ht1 Ht.
  apply candidate_reaching_threshold_grouped; [done | done | done | lra].
Qed.

Lemma candidate_reaching_threshold_is_grouped_witness :
  exists g,
    g ∈ group_duplicates remove_dups
          (_merge_candidates remove_dups [fuzzy_AB; pattern_BA] (mkDF [] []))
          0.85
    /\ sku1 pattern_BA ∈ g /\ sku2 pattern_BA ∈ g.
Proof.
  apply (candidate_reaching_threshold_is_grouped remove_dups
           [fuzzy_AB; pattern_BA] (mkDF [] []) pattern_BA 0.85).
  - intros l x. apply elem_of_remove_dups.
  - right. left.
  - by vm_compute.
  - by vm_compute.
Defined.

Lemma identifier_candidate_found (df : DataFrame) (col v : string)
    (i j : nat) (r1 r2 : Row) :
  col ∈ identifier_columns -> col ∈ columns df ->
  (i < j)%nat -> rows df !! i = Some r1 -> rows df !! j = Some r2 ->
  txt r1 col = Str v -> txt r2 col = Str v ->
  identifier_candidate col v (sku r1, sku r2) ∈ _find_by_identifiers df.
Proof.
  intros Hid Hcol Hij Hi Hj Hv1 Hv2.
  unfold _find_by_identifiers. apply list_elem_of_In, in_flat_map.
  exists col. split; [by apply list_elem_of_In|].
  unfold in_columns. rewrite bool_decide_eq_true_2 by done.
  apply in_flat_map.
  set (present := List.filter (fun r => notna (txt r col)) (rows df)).
  assert (Hp : (r1, r2) ∈ pairs
            (List.filter (fun r' => bool_decide (txt r' col = Str v)) present)).
  { apply pairs_filter. rewrite !bool_decide_eq_true.
    split; [done|]. split; [done|]. apply pairs_filter.
    rewrite Hv1, Hv2. split; [done|]. split; [done|].
    by apply (pairs_lookup _ i j). }
  exists (v, List.filter (fun r' => bool_decide (txt r' col = Str v)) present).
  split.
  { apply list_elem_of_In, (groupby_elem col v present r1); [|done].
    apply pairs_elem in Hp as [Hr1 _].
    apply list_elem_of_In, filter_In in Hr1 as [Hr1 _].
    by apply list_elem_of_In. }
  cbn [fst snd]. rewrite <- (length_map sku).
  apply (pairs_of_group (identifier_candidate col v)).
  exists (sku r1), (sku r2). split; [|done].
  rewrite pairs_map. apply list_elem_of_fmap. by exists (r1, r2).
Qed.

(** X23. The whole pipeline: two products that share an identifier, not missing,
    end up in one group, at every threshold up to 1 and whatever their other
    attributes and the other candidates are. *)
Theorem shared_identifier_is_grouped
    (order : list string -> list string)
    (products_df embeddings_df : DataFrame) (similarity_threshold : Q)
    (merged : list DuplicateCandidate) (min_confidence : Q)
    (col v : string) (i j : nat) (r1 r2 : Row) :
  (forall l x, x ∈ order l <-> x ∈ l) ->
  col ∈ identifier_columns ->
  col ∈ columns products_df ->
  (i < j)%nat ->
  rows products_df !! i = Some r1 ->
  rows products_df !! j = Some r2 ->
  txt r1 col = Str v ->
  txt r2 col = Str v ->
  snd (detect_duplicates_multi_strategy order products_df embeddings_df
         similarity_threshold) = Some merged ->
  (min_confidence <= 1)%Q ->
  exists g, g ∈ group_duplicates order merged min_confidence
            /\ sku r1 ∈ g /\ sku r2 ∈ g.
Proof.
  intros Horder Hid Hcol Hij Hi Hj Hv1 Hv2 Hdetect Ht.
  pose proof (identifier_candidate_found products_df col v i j r1 r2
                Hid Hcol Hij Hi Hj Hv1 Hv2) as Hc.
  unfold detect_duplicates_multi_strategy in Hdetect.
  destruct (_find_by_fuzzy_attributes products_df) as [df' [found|]];
    cbn [snd mbind option_bind] in Hdetect; [|done].
  injection Hdetect as <-.
  match goal with
  | |- context [group_duplicates order ?merged min_confidence] =>
      destruct (group_duplicates_spec order merged min_confidence Horder)
        as (_ & _ & _ & Hedge)
  end.
  apply (Hedge (sku r1) (sku r2)).
  apply (merged_edge order _ df'
           (identifier_candidate col v (sku r1, sku r2))).
  - apply elem_of_app. left. apply elem_of_app. left. exact Hc.
  - done.
  - cbn [identifier_candidate similarity_score].
    apply Qle_trans with 1%Q; [done | by vm_compute].
Qed.

Lemma shared_identifier_is_grouped_witness :
  exists g, g ∈ group_duplicates remove_dups
                  [mkCandidate "A1" "A2" 1.0 [("upc", true)] 1.0
                     "Exact upc match: 012345"] 0.95
            /\ "A1" ∈ g /\ "A2" ∈ g.
Proof.
  apply (shared_identifier_is_grouped remove_dups upc_catalog upc_catalog 0.85
           [mkCandidate "A1" "A2" 1.0 [("upc", true)] 1.0
              "Exact upc match: 012345"] 0.95 "upc" "012345" 0 1
           (mkRow "A1" [("upc", Str "012345")] [("price", Some 50%Q)])
           (mkRow "A2" [("upc", Str "012345")] [("price", Some 80%Q)])).
  - intros l x. apply elem_of_remove_dups.
  - unfold identifier_columns. apply elem_of_cons. by left.
  - simpl. apply elem_of_cons. right. apply elem_of_cons. by left.
  - lia.
  - reflexivity.
  - reflexivity.
  - reflexivity.
  - reflexivity.
  - vm_compute. reflexivity.
  - by vm_compute.
Defined.

Lemma merged_confidence_single_reason (order : list string -> list string)
    (k : string * string) (g : list DuplicateCandidate) (r : string) (s : Q) :
  g <> [] ->
  (forall c, c ∈ g -> reason c = r /\ (similarity_score c <= s)%Q) ->
  (confidence (merge_pair order k g) <= s + 0.1)%Q.
Proof.
  intros Hne Hall. rewrite merge_pair_confidence.
  apply Qle_trans with (max_of (map similarity_score g)
                        + 0.1 * inject_Z (Z.of_nat (distinct_reasons g)))%Q;
    [apply Q.le_min_l|].
  assert (H1 : (max_of (map similarity_score g) <= s)%Q).
  { assert (Hin : max_of (map similarity_score g) ∈ map similarity_score g)
      by (apply max_of_elem; by destruct g).
    apply list_elem_of_fmap in Hin as (c & -> & Hc). by apply Hall. }
  assert (H2 : (distinct_reasons g <= 1)%nat).
  { unfold distinct_reasons.
    assert (Hsub : (list_to_set (map reason g) : gset string) ⊆ {[r]}).
    { intros x (c & -> & Hc)%elem_of_list_to_set%list_elem_of_fmap.
      apply elem_of_singleton. by apply Hall. }
    apply subseteq_size in Hsub. by rewrite size_singleton in Hsub. }
  apply inject_nat_le in H2. change (inject_Z (Z.of_nat 1)) with 1%Q in H2.
  lra.
Qed.

(** X24. The fuzzy strategy cannot make a group on its own: a pair that has only
    candidates of the fuzzy strategy gets a merged confidence of at most 0.75,
    so at a threshold above 0.75 it is dropped, and the candidates of the fuzzy
    strategy alone give no group. *)
Theorem fuzzy_evidence_alone_never_groups
    (order : list string -> list string) (df : DataFrame)
    (found cands : list DuplicateCandidate) (min_confidence : Q) :
  snd (_find_by_fuzzy_attributes df) = Some found ->
  (0.75 < min_confidence)%Q ->
  let df' := fst (_find_by_fuzzy_attributes df) in
  (forall m, m ∈ _merge_candidates order cands df' ->
     (forall c, c ∈ group_of cands (sku1 m, sku2 m) -> c ∈ found) ->
     (confidence m <= 0.75)%Q
     /\ m ∉ high_confidence (_merge_candidates order cands df') min_confidence)
  /\ group_duplicates order (_merge_candidates order found df') min_confidence
     = [].
Proof.
  intros Hfound Ht df'.
  assert (Hbound : forall c, c ∈ found ->
            reason c = "Fuzzy attribute matching"
            /\ (similarity_score c <= 0.65)%Q).
  { intros c (r1 & r2 & _ & Hf)%(fuzzy_candidates_elem df found c Hfound).
    apply fuzzy_pair_requirements in Hf. tauto. }
  assert (Hm : forall cands' m, m ∈ _merge_candidates order cands' df' ->
     (forall c, c ∈ group_of cands' (sku1 m, sku2 m) -> c ∈ found) ->
     (confidence m <= 0.75)%Q).
  { intros cands' m (k & Hne & ->)%merge_elem Hall.
    rewrite merge_pair_key in Hall.
    apply Qle_trans with (0.65 + 0.1)%Q; [|by vm_compute].
    apply (merged_confidence_single_reason order k _
             "Fuzzy attribute matching"); [done|].
    intros c Hc. by apply Hbound, Hall. }
  split.
  - intros m Hin Hall. pose proof (Hm cands m Hin Hall) as Hle.
    split; [done|]. unfold high_confidence.
    rewrite list_elem_of_In, filter_In, Qle_bool_iff. intros [_ Hge]. lra.
  - unfold group_duplicates.
    replace (List.filter _ (_merge_candidates order found df')) with
      (@nil DuplicateCandidate); [done|].
    symmetry.
    assert (Hnone : forall m, m ∈ _merge_candidates order found df' ->
              Qle_bool min_confidence (confidence m) = false).
    { intros m Hin. destruct (Qle_bool _ _) eqn:E; [|done].
      apply Qle_bool_iff in E.
      assert (Hle : (confidence m <= 0.75)%Q).
      { apply (Hm found m Hin). intros c Hc.
        by apply group_of_elem in Hc as [Hc _]. }
      lra. }
    induction (_merge_candidates order found df') as [|m l IH]; [done|].
    simpl. rewrite Hnone by left. apply IH. intros m' Hm'.
    apply Hnone. by right.
Qed.

Lemma fuzzy_evidence_alone_never_groups_witness :
  let df' := fst (_find_by_fuzzy_attributes normalized_catalog) in
  (forall m, m ∈ _merge_candidates remove_dups [fuzzy_nike] df' ->
     (forall c, c ∈ group_of [fuzzy_nike] (sku1 m, sku2 m) ->
        c ∈ [fuzzy_nike]) ->
     (confidence m <= 0.75)%Q
     /\ m ∉ high_confidence (_merge_candidates remove_dups [fuzzy_nike] df')
              0.85)
  /\ group_duplicates remove_dups
       (_merge_candidates remove_dups [fuzzy_nike] df') 0.85 = [].
Proof.
  apply (fuzzy_evidence_alone_never_groups remove_dups normalized_catalog
           [fuzzy_nike] [fuzzy_nike] 0.85).
  - vm_compute. reflexivity.
  - by vm_compute.
Defined.

(** ** The pipeline and the rows of the catalog *)

Lemma detect_candidates (order : list string -> list string)
    (products_df embeddings_df : DataFrame) (similarity_threshold : Q)
    (merged : list DuplicateCandidate) :
  snd (detect_duplicates_multi_strategy order products_df embeddings_df
         similarity_threshold) = Some merged ->
  exists found,
    snd (_find_by_fuzzy_attributes products_df) = Some found
    /\ merged = _merge_candidates order
         (_find_by_identifiers products_df ++ found
            ++ _find_by_patterns (_find_by_fuzzy_attributes products_df).1)
         (_find_by_fuzzy_attributes products_df).1.
Proof.
  unfold detect_duplicates_multi_strategy.
  destruct (_find_by_fuzzy_attributes products_df) as [df' [found|]];
    cbn [fst snd mbind option_bind]; [|done].
  intros [= <-]. exists found. split; [done|].
  by rewrite <- app_assoc.
Qed.

Lemma normalized_rows_lookup (df : DataFrame) (i : nat) (r' : Row) :
  rows (_find_by_fuzzy_attributes df).1 !! i = Some r' ->
  exists r, rows df !! i = Some r /\ sku r' = sku r
            /\ txt r' "product_name" = txt r "product_name".
Proof.
  unfold _find_by_fuzzy_attributes. cbn [fst].
  destruct (normalize_fields_rows text_fields df) as (h & -> & Hsku & Htxt).
  rewrite list_lookup_fmap. destruct (rows df !! i) as [r|]; [|done].
  intros [= <-]. exists r. split; [done|]. split; [done|].
  apply Htxt. intros g Hg. unfold text_fields in Hg.
  repeat (apply elem_of_cons in Hg as [->|Hg]);
    try (by apply elem_of_nil in Hg); done.
Qed.

Lemma normalized_rows_lookup_inv (df : DataFrame) (i : nat) (r : Row) :
  rows df !! i = Some r ->
  exists r', rows (_find_by_fuzzy_attributes df).1 !! i = Some r'
             /\ sku r' = sku r
             /\ txt r' "product_name" = txt r "product_name".
Proof.
  intros Hi. unfold _find_by_fuzzy_attributes. cbn [fst].
  destruct (normalize_fields_rows text_fields df) as (h & -> & Hsku & Htxt).
  exists (h r). rewrite list_lookup_fmap, Hi. split; [done|]. split; [done|].
  apply Htxt. intros g Hg. unfold text_fields in Hg.
  repeat (apply elem_of_cons in Hg as [->|Hg]);
    try (by apply elem_of_nil in Hg); done.
Qed.

Lemma candidate_rows (products_df : DataFrame)
    (found : list DuplicateCandidate) (c : DuplicateCandidate) :
  snd (_find_by_fuzzy_attributes products_df) = Some found ->
  c ∈ _find_by_identifiers products_df ++ found
        ++ _find_by_patterns (_find_by_fuzzy_attributes products_df).1 ->
  exists i j r1 r2,
    (i < j)%nat /\ rows products_df !! i = Some r1
    /\ rows products_df !! j = Some r2
    /\ sku1 c = sku r1 /\ sku2 c = sku r2.
Proof.
  intros Hfound [Hc|[Hc|Hc]%elem_of_app]%elem_of_app.
  - apply identifier_candidates_inv in Hc
      as (col & v & i & j & r1 & r2 & _ & _ & Hij & Hi & Hj & _ & _ & ->).
    by exists i, j, r1, r2.
  - apply (fuzzy_candidates_elem products_df found c Hfound) in Hc
      as (r1' & r2' & Hp & Hf).
    apply pairs_inv in Hp as (i & j & Hij & Hi & Hj).
    apply normalized_rows_lookup in Hi as (r1 & Hi & Hs1 & _).
    apply normalized_rows_lookup in Hj as (r2 & Hj & Hs2 & _).
    apply fuzzy_pair_requirements in Hf as (_ & E1 & E2 & _).
    exists i, j, r1, r2. rewrite E1, E2. done.
  - apply pattern_candidates_elem in Hc
      as [(i & j & r1' & r2' & _ & Hij & Hi & Hj & _ & ->)
         |(i & j & r1' & r2' & _ & Hij & Hi & Hj & _ & _ & ->)];
      apply normalized_rows_lookup in Hi as (r1 & Hi & Hs1 & _);
      apply normalized_rows_lookup in Hj as (r2 & Hj & Hs2 & _);
      exists i, j, r1, r2; cbn [sku1 sku2]; done.
Qed.

(** X25. The pipeline pairs rows of the catalog only: every merged candidate
    names the SKUs of two rows of the catalog, at two different positions, and
    every member of a group made of the merged candidates is the SKU of a row of
    the catalog. *)
Theorem detected_pairs_are_catalog_rows
    (order : list string -> list string)
    (products_df embeddings_df : DataFrame) (similarity_threshold : Q)
    (merged : list DuplicateCandidate) :
  snd (detect_duplicates_multi_strategy order products_df embeddings_df
         similarity_threshold) = Some merged ->
  (forall m, m ∈ merged ->
     exists i j r1 r2,
       (i < j)%nat /\ rows products_df !! i = Some r1
       /\ rows products_df !! j = Some r2
       /\ joins m (sku r1) (sku r2))
  /\ ((forall l x, x ∈ order l <-> x ∈ l) ->
      forall min_confidence g x,
        g ∈ group_duplicates order merged min_confidence -> x ∈ g ->
        exists r, r ∈ rows products_df /\ sku r = x).
Proof.
  intros (found & Hfound & ->)%detect_candidates.
  assert (Hm : forall m,
    m ∈ _merge_candidates order
          (_find_by_identifiers products_df ++ found
             ++ _find_by_patterns (_find_by_fuzzy_attributes products_df).1)
          (_find_by_fuzzy_attributes products_df).1 ->
    exists i j r1 r2,
      (i < j)%nat /\ rows products_df !! i = Some r1
      /\ rows products_df !! j = Some r2
      /\ joins m (sku r1) (sku r2)).
  { intros m (k & Hne & ->)%merge_elem.
    destruct (group_of _ k) as [|c g] eqn:E; [done|].
    assert (Hc : c ∈ group_of
              (_find_by_identifiers products_df ++ found
                 ++ _find_by_patterns (_find_by_fuzzy_attributes products_df).1)
              k) by (rewrite E; left).
    apply group_of_elem in Hc as [Hc <-].
    destruct (candidate_rows products_df found c Hfound Hc)
      as (i & j & r1 & r2 & Hij & Hi & Hj & E1 & E2).
    exists i, j, r1, r2. split; [done|]. split; [done|]. split; [done|].
    rewrite <- E1, <- E2. apply merge_pair_joins. }
  split; [exact Hm|].
  intros Horder t g x Hg Hx.
  match type of Hg with
  | _ ∈ group_duplicates _ ?cands _ =>
      destruct (group_duplicates_spec order cands t Horder)
        as (_ & _ & Hcomp & _)
  end.
  destruct (Hcomp g x Hg Hx) as [(y & m & Hin & _ & Hj) _].
  destruct (Hm m Hin) as (i & j & r1 & r2 & _ & Hi & Hj' & Hjoin).
  apply list_elem_of_lookup_2 in Hi, Hj'.
  destruct Hj as [[Ex _]|[_ Ex]]; destruct Hjoin as [[E1 E2]|[E1 E2]];
    first [ exists r1; split; [done | congruence]
          | exists r2; split; [done | congruence] ].
Qed.

Lemma detected_pairs_are_catalog_rows_witness :
  (forall m, m ∈ [mkCandidate "A1" "A2" 1.0 [("upc", true)] 1.0
                    "Exact upc match: 012345"] ->
     exists i j r1 r2,
       (i < j)%nat /\ rows upc_catalog !! i = Some r1
       /\ rows upc_catalog !! j = Some r2
       /\ joins m (sku r1) (sku r2))
  /\ ((forall (l : list string) (x : string), x ∈ remove_dups l <-> x ∈ l) ->
      forall min_confidence g x,
        g ∈ group_duplicates remove_dups
              [mkCandidate "A1" "A2" 1.0 [("upc", true)] 1.0
                 "Exact upc match: 012345"] min_confidence -> x ∈ g ->
        exists r, r ∈ rows upc_catalog /\ sku r = x).
Proof.
  apply (detected_pairs_are_catalog_rows remove_dups upc_catalog upc_catalog
           0.85).
  vm_compute. reflexivity.
Defined.

(** X26. The whole pipeline on the pattern strategy: two products whose SKUs
    have the same base pattern are in one group at every threshold up to 0.95,
    and two products whose names have the same cleaned form, not empty, are in
    one group at every threshold up to 0.9; so at the default threshold 0.85 all
    the products without a name, whose missing name is read as the text nan, are
    in one group. *)
Theorem pattern_duplicates_are_grouped
    (order : list string -> list string)
    (products_df embeddings_df : DataFrame) (similarity_threshold : Q)
    (merged : list DuplicateCandidate) (min_confidence : Q)
    (i j : nat) (r1 r2 : Row) :
  (forall l x, x ∈ order l <-> x ∈ l) ->
  snd (detect_duplicates_multi_strategy order products_df embeddings_df
         similarity_threshold) = Some merged ->
  (i < j)%nat ->
  rows products_df !! i = Some r1 ->
  rows products_df !! j = Some r2 ->
  ("sku" ∈ columns products_df
   /\ base_pattern (sku r1) = base_pattern (sku r2)
   /\ (min_confidence <= 0.95)%Q)
  \/ ("product_name" ∈ columns products_df
      /\ clean_name (txt r1 "product_name") = clean_name (txt r2 "product_name")
      /\ clean_name (txt r1 "product_name") <> ""
      /\ (min_confidence <= 0.9)%Q)
  \/ ("product_name" ∈ columns products_df
      /\ txt r1 "product_name" = NaN /\ txt r2 "product_name" = NaN
      /\ (min_confidence <= 0.9)%Q) ->
  exists g, g ∈ group_duplicates order merged min_confidence
            /\ sku r1 ∈ g /\ sku r2 ∈ g.
Proof.
  intros Horder (found & Hfound & ->)%detect_candidates Hij Hi Hj Hcase.
  destruct (normalized_rows_lookup_inv products_df i r1 Hi)
    as (r1' & Hi' & Hs1 & Ht1).
  destruct (normalized_rows_lookup_inv products_df j r2 Hj)
    as (r2' & Hj' & Hs2 & Ht2).
  set (df' := (_find_by_fuzzy_attributes products_df).1) in *.
  assert (Hcols : forall c, c ∈ columns products_df -> c ∈ columns df').
  { intros c Hc. unfold df', _find_by_fuzzy_attributes. cbn [fst].
    by apply normalize_fields_keep_columns. }
  assert (Hname : forall t,
    "product_name" ∈ columns products_df ->
    clean_name (txt r1 "product_name") = clean_name (txt r2 "product_name") ->
    clean_name (txt r1 "product_name") <> "" ->
    (t <= 0.9)%Q ->
    exists c, c ∈ _find_by_patterns df'
              /\ sku1 c = sku r1 /\ sku2 c = sku r2
              /\ (t <= 1)%Q /\ (t <= similarity_score c + 0.1)%Q).
  { intros t Hcol Hclean Hne Ht. eexists. split.
    - apply pattern_candidates_elem. right. exists i, j, r1', r2'.
      split; [by apply Hcols|]. split; [done|]. split; [done|].
      split; [done|]. rewrite Ht1, Ht2. done.
    - cbn [sku1 sku2 similarity_score]. split; [done|]. split; [done|].
      split; lra. }
  assert (Hcand : exists c,
            c ∈ _find_by_patterns df'
            /\ sku1 c = sku r1 /\ sku2 c = sku r2
            /\ (min_confidence <= 1)%Q
            /\ (min_confidence <= similarity_score c + 0.1)%Q).
  { destruct Hcase as [(Hcol & Hbase & Ht)
                      |[(Hcol & Hclean & Hne & Ht)|(Hcol & Hn1 & Hn2 & Ht)]].
    - eexists. split.
      + apply pattern_candidates_elem. left. exists i, j, r1', r2'.
        split; [by apply Hcols|]. split; [done|]. split; [done|].
        split; [done|]. rewrite Hs1, Hs2. done.
      + cbn [sku1 sku2 similarity_score]. split; [done|]. split; [done|].
        split; lra.
    - by apply Hname.
    - apply Hname; [done | | | done].
      + by rewrite Hn1, Hn2.
      + by rewrite Hn1, clean_name_nan. }
  destruct Hcand as (c & Hc & E1 & E2 & Ht1' & Ht2').
  rewrite <- E1, <- E2.
  apply candidate_reaching_threshold_grouped; [done | | done | done].
  apply elem_of_app. right. apply elem_of_app. by right.
Qed.

Lemma pattern_duplicates_are_grouped_witness :
  exists g, g ∈ group_duplicates remove_dups nameless_merged 0.85
            /\ "B1" ∈ g /\ "B2" ∈ g.
Proof.
  apply (pattern_duplicates_are_grouped remove_dups nameless_catalog
           nameless_catalog 0.85 nameless_merged 0.85 0 1
           (mkRow "B1" [("product_name", NaN)] [])
           (mkRow "B2" [("product_name", NaN)] [])).
  - intros l x. apply elem_of_remove_dups.
  - vm_compute. reflexivity.
  - lia.
  - reflexivity.
  - reflexivity.
  - right. right. split.
    + simpl. apply elem_of_cons. right. apply elem_of_cons. by left.
    + split; [reflexivity|]. split; [reflexivity | by vm_compute].
Defined.

(** ** The merge recommendation *)

Lemma argmax_from_first (l pre : list nat) (best_i best : nat) :
  pre !! best_i = Some best ->
  (forall x, x ∈ pre -> (x <= best)%nat) ->
  (forall j x, (j < best_i)%nat -> pre !! j = Some x -> (x < best)%nat) ->
  exists m, (pre ++ l) !! argmax_from (length pre) best_i best l = Some m
            /\ (forall x, x ∈ pre ++ l -> (x <= m)%nat)
            /\ forall j x, (j < argmax_from (length pre) best_i best l)%nat ->
                 (pre ++ l) !! j = Some x -> (x < m)%nat.
Proof.
  revert pre best_i best.
  induction l as [|x l IH]; intros pre bi b Hb Hmax Hfirst; simpl.
  - exists b. rewrite app_nil_r. auto.
  - replace (S (length pre)) with (length (pre ++ [x]))
      by (rewrite length_app; simpl; lia).
    replace (pre ++ x :: l) with ((pre ++ [x]) ++ l)
      by by rewrite <- app_assoc.
    destruct (b <? x)%nat eqn:E.
    + apply Nat.ltb_lt in E. apply IH.
      * rewrite lookup_app_r by done. by rewrite Nat.sub_diag.
      * intros y [Hy| ->%list_elem_of_singleton]%elem_of_app; [|done].
        specialize (Hmax y Hy). lia.
      * intros j y Hj Hy. rewrite lookup_app_l in Hy by done.
        apply list_elem_of_lookup_2 in Hy. specialize (Hmax y Hy). lia.
    + apply Nat.ltb_ge in E. apply IH.
      * apply lookup_app_l_Some. done.
      * intros y [Hy| ->%list_elem_of_singleton]%elem_of_app; auto.
      * intros j y Hj Hy. apply (Hfirst j y Hj).
        apply lookup_lt_Some in Hb.
        rewrite lookup_app_l in Hy by lia. done.
Qed.

Lemma argmax_first (l : list nat) (i : nat) :
  argmax l = Some i ->
  exists m, l !! i = Some m
            /\ (forall x, x ∈ l -> (x <= m)%nat)
            /\ forall j x, (j < i)%nat -> l !! j = Some x -> (x < m)%nat.
Proof.
  destruct l as [|x l]; [done|]. simpl. intros [= <-].
  destruct (argmax_from_first l [x] 0 x) as (m & Hm & Hmax & Hfirst).
  - reflexivity.
  - by intros y ->%list_elem_of_singleton.
  - intros j y Hj. lia.
  - exists m. auto.
Qed.

(** X27. The recommendation raises on the empty group, on a group where an
    inventory count that is present is not a number, and on a group where a
    product has no SKU: whenever it returns, the group is not empty, every
    inventory count that is present is a number and every product has a SKU. *)
Theorem merge_recommendation_returns_only_if
    (order : list value -> list value) (products : list product) :
  is_Some (_create_merge_recommendation order products) ->
  products <> []
  /\ Forall (fun p => is_number (inventory_or_zero p) = true) products
  /\ Forall (fun p => is_Some (dict_get p "sku")) products.
Proof.
  rewrite create_merge_recommendation_unfold.
  intros [rec H].
  destruct (argmax (map completeness products)) as [i|] eqn:Hi;
    cbn [mbind option_bind] in H; [|done].
  destruct (products !! i) as [primary|] eqn:Hp;
    cbn [mbind option_bind] in H; [|done].
  destruct (sum_values 0 (map inventory_or_zero products)) as [t|] eqn:Ht;
    cbn [mbind option_bind] in H; [|done].
  destruct (dict_get primary "sku") as [s|] eqn:Hs;
    cbn [mbind option_bind] in H; [|done].
  destruct (mapM (fun p : product => dict_get p "sku") products)
    as [skus|] eqn:Hskus; cbn [mbind option_bind] in H; [|done].
  split; [by destruct products|]. split.
  - apply sum_values_numbers in Ht. rewrite Forall_forall in Ht.
    apply Forall_forall. intros p Hin. apply Ht.
    apply list_elem_of_fmap. by exists p.
  - apply mapM_is_Some. by exists skus.
Qed.

Lemma merge_recommendation_returns_only_if_witness :
  tie_products <> []
  /\ Forall (fun p => is_number (inventory_or_zero p) = true) tie_products
  /\ Forall (fun p => is_Some (dict_get p "sku")) tie_products.
Proof.
  apply (merge_recommendation_returns_only_if first_seen tie_products).
  eexists. vm_compute. reflexivity.
Defined.

(** X28. The primary record of a recommendation is the first product of the
    group, in the order of the group, among those of the largest completeness;
    the merged SKUs are the SKUs of the products, one for each product and in
    the order of the group, so the primary SKU is one of them. *)
Theorem primary_is_first_most_complete
    (order : list value -> list value) (products : list product)
    (rec : MergeRecommendation) :
  _create_merge_recommendation order products = Some rec ->
  exists i primary,
    products !! i = Some primary
    /\ dict_get primary "sku" = Some (primary_sku rec)
    /\ (forall p, p ∈ products -> (completeness p <= completeness primary)%nat)
    /\ (forall j p, (j < i)%nat -> products !! j = Some p ->
          (completeness p < completeness primary)%nat)
    /\ Forall2 (fun p s => dict_get p "sku" = Some s) products (merged_skus rec)
    /\ merged_skus rec !! i = Some (primary_sku rec).
Proof.
  rewrite create_merge_recommendation_unfold. intros H.
  destruct (argmax (map completeness products)) as [i|] eqn:Hi;
    cbn [mbind option_bind] in H; [|done].
  apply argmax_first in Hi as (m & Hm & Hmax & Hfirst).
  rewrite list_lookup_fmap in Hm. unfold product in *.
  destruct (products !! i) as [primary|] eqn:Hp;
    cbn [mbind option_bind] in H; [|by cbn in Hm].
  injection Hm as <-.
  destruct (sum_values _ _) as [t|] eqn:Ht;
    cbn [mbind option_bind] in H; [|done].
  destruct (dict_get primary "sku") as [s|] eqn:Hs;
    cbn [mbind option_bind] in H; [|done].
  destruct (mapM _ _) as [skus|] eqn:Hskus;
    cbn [mbind option_bind] in H; [|done].
  injection H as <-. cbn [primary_sku merged_skus].
  apply mapM_Some_1 in Hskus.
  exists i, primary. split; [done|]. split; [done|]. split.
  { intros p Hin. apply Hmax. apply list_elem_of_fmap. by exists p. }
  split.
  { intros j p Hj Hpj. apply (Hfirst j); [done|].
    by rewrite list_lookup_fmap, Hpj. }
  split; [done|].
  destruct (Forall2_lookup_l _ _ _ _ _ Hskus Hp) as (s' & Hs' & Hps).
  rewrite Hs in Hps. by injection Hps as <-.
Qed.

Lemma primary_is_first_most_complete_witness :
  exists i primary,
    [[("sku", VStr "B"); ("brand_name", VStr "Acme")];
     [("sku", VStr "A"); ("brand_name", VStr "Acme")]] !! i = Some primary
    /\ dict_get primary "sku" = Some (VStr "B")
    /\ (forall p, p ∈ [[("sku", VStr "B"); ("brand_name", VStr "Acme")];
                       [("sku", VStr "A"); ("brand_name", VStr "Acme")]] ->
          (completeness p <= completeness primary)%nat)
    /\ (forall j p, (j < i)%nat ->
          [[("sku", VStr "B"); ("brand_name", VStr "Acme")];
           [("sku", VStr "A"); ("brand_name", VStr "Acme")]] !! j = Some p ->
          (completeness p < completeness primary)%nat)
    /\ Forall2 (fun p s => dict_get p "sku" = Some s)
         [[("sku", VStr "B"); ("brand_name", VStr "Acme")];
          [("sku", VStr "A"); ("brand_name", VStr "Acme")]]
         [VStr "B"; VStr "A"]
    /\ [VStr "B"; VStr "A"] !! i = Some (VStr "B").
Proof.
  apply (primary_is_first_most_complete first_seen
           [[("sku", VStr "B"); ("brand_name", VStr "Acme")];
            [("sku", VStr "A"); ("brand_name", VStr "Acme")]]
           (mkRecommendation (VStr "B") [VStr "B"; VStr "A"] 0
              [("brand_name", VStr "Acme")] "$50.00")).
  vm_compute. reflexivity.
Defined.

(** ** The groups of the vector engine *)

Import DuplicateGroups.

Lemma dict_set_keys_list {V : Type} (d : list (string * V)) (k : string)
    (v : V) :
  keys (dict_set d k v)
  = if bool_decide (k ∈ keys d) then keys d else keys d ++ [k].
Proof.
  induction d as [|[k' v'] d IH]; [done|]. cbn [dict_set].
  destruct (decide (k' = k)) as [->|Hne].
  - rewrite bool_decide_eq_true_2; [done | left].
  - change (keys ((k', v') :: dict_set d k v))
      with (k' :: keys (dict_set d k v)).
    change (keys ((k', v') :: d)) with (k' :: keys d).
    rewrite IH. destruct (decide (k ∈ keys d)) as [Hin|Hin].
    + rewrite !bool_decide_eq_true_2; [done | by right | done].
    + rewrite !bool_decide_eq_false_2; [done | | done].
      intros [?|?]%elem_of_cons; [congruence | contradiction].
Qed.

Lemma dict_set_NoDup {V : Type} (d : list (string * V)) (k : string) (v : V) :
  NoDup (keys d) -> NoDup (keys (dict_set d k v)).
Proof.
  intros Hnd. rewrite dict_set_keys_list. case_bool_decide as Hin; [done|].
  apply NoDup_app. split; [done|]. split; [|apply NoDup_singleton].
  intros x Hx ->%list_elem_of_singleton. contradiction.
Qed.

Lemma add_row_get (groups : list (string * group_data)) (row : PairRow)
    (gid : string) :
  dict_get (add_row groups row) gid =
  if decide (row_group_id row = gid) then
    Some (add_to_group
            (match dict_get groups gid with
             | Some data => data
             | None => ([], [])
             end) row)
  else dict_get groups gid.
Proof.
  unfold add_row. rewrite dict_set_get.
  destruct (decide (row_group_id row = gid)) as [->|Hne]; done.
Qed.

Lemma collect_get (results : list PairRow)
    (groups : list (string * group_data)) (gid : string) :
  dict_get (fold_left add_row results groups) gid =
  match rows_of gid results with
  | [] => dict_get groups gid
  | rows =>
      Some (fold_left add_to_group rows
              (match dict_get groups gid with
               | Some data => data
               | None => ([], [])
               end))
  end.
Proof.
  revert groups. induction results as [|r results IH]; intros groups; [done|].
  cbn [fold_left]. rewrite IH, add_row_get. unfold rows_of.
  cbn [List.filter]. fold (rows_of gid results).
  destruct (decide (row_group_id r = gid)) as [E|E].
  - rewrite bool_decide_eq_true_2 by done. by destruct (rows_of gid results).
  - rewrite bool_decide_eq_false_2 by done. done.
Qed.

Lemma collect_keys (results : list PairRow)
    (groups : list (string * group_data)) :
  NoDup (keys groups) ->
  NoDup (keys (fold_left add_row results groups))
  /\ forall gid, gid ∈ keys (fold_left add_row results groups) <->
       gid ∈ keys groups
       \/ exists row, row ∈ results /\ row_group_id row = gid.
Proof.
  revert groups. induction results as [|r results IH]; intros groups Hnd.
  - split; [done|]. intros gid. split; [by left|].
    by intros [?|(row & ?%elem_of_nil & _)].
  - cbn [fold_left]. destruct (IH (add_row groups r)) as [Hnd' Hkeys].
    { by apply dict_set_NoDup. }
    split; [done|]. intros gid. rewrite Hkeys. unfold add_row.
    rewrite dict_set_keys. split.
    + intros [[->|Hin]|(row & Hrow & E)].
      * right. exists r. split; [left | done].
      * by left.
      * right. exists row. split; [by right | done].
    + intros [Hin|(row & [->|Hrow]%elem_of_cons & E)].
      * left. by right.
      * left. by left.
      * right. by exists row.
Qed.

Lemma add_to_group_fold (rows : list PairRow) (data : group_data) :
  (fold_left add_to_group rows data).2 = data.2 ++ map row_similarity rows
  /\ forall s, s ∈ (fold_left add_to_group rows data).1 <->
       s ∈ data.1 \/ sku_of_rows rows s.
Proof.
  revert data. induction rows as [|r rows IH]; intros data.
  - split; [by rewrite app_nil_r|]. intros s. split; [by left|].
    by intros [?|(row & ?%elem_of_nil & _)].
  - cbn [fold_left]. destruct (IH (add_to_group data r)) as [H2 H1].
    split.
    + rewrite H2. cbn [add_to_group snd map]. by rewrite <- app_assoc.
    + intros s. rewrite H1. cbn [add_to_group fst].
      rewrite !set_add_elem. unfold sku_of_rows. split.
      * intros [[[?| ->]| ->]|(row & Hrow & Hs)].
        -- by left.
        -- right. exists r. split; [left | by left].
        -- right. exists r. split; [left | by right].
        -- right. exists row. split; [by right | done].
      * intros [?|(row & [->|Hrow]%elem_of_cons & Hs)].
        -- by do 3 left.
        -- left. destruct Hs as [-> | ->]; [left; by right | by right].
        -- right. by exists row.
Qed.

Lemma build_groups_app (order : list string -> list string)
    (order_values : list value -> list value)
    (get_product_details : list string -> option (list product))
    (groups : list (string * group_data)) (acc out : list DuplicateGroup) :
  (forall skus, is_Some (get_product_details skus)) ->
  build_groups order order_values get_product_details groups acc = Some out ->
  exists built,
    out = acc ++ built
    /\ Forall2 (built_from order order_values get_product_details)
         groups built.
Proof.
  intros Htotal. revert acc.
  induction groups as [|[gid data] groups IH]; intros acc H.
  - injection H as <-. exists []. by rewrite app_nil_r.
  - cbn [build_groups] in H.
    destruct (get_product_details (order data.1)) as [ps|] eqn:Hd.
    2:{ destruct (Htotal (order data.1)) as [ps Hps]. congruence. }
    destruct (_create_merge_recommendation order_values ps) as [rec|] eqn:Hrec;
      cbn [mbind option_bind] in H; [|done].
    destruct (IH _ H) as (built & -> & Hbuilt).
    exists (mkDuplicateGroup gid ps (mean data.2) rec :: built).
    split; [by rewrite <- app_assoc|]. constructor; [|done].
    unfold built_from. cbn. done.
Qed.

Lemma build_groups_raises (order : list string -> list string)
    (order_values : list value -> list value)
    (get_product_details : list string -> option (list product))
    (groups : list (string * group_data)) (acc : list DuplicateGroup) :
  build_groups order order_values get_product_details groups acc = None ->
  exists entry ps,
    entry ∈ groups
    /\ get_product_details (order entry.2.1) = Some ps
    /\ _create_merge_recommendation order_values ps = None.
Proof.
  revert acc. induction groups as [|[gid data] groups IH]; intros acc H;
    [done|].
  cbn [build_groups] in H.
  destruct (get_product_details (order data.1)) as [ps|] eqn:Hd; [|done].
  destruct (_create_merge_recommendation order_values ps) as [rec|] eqn:Hrec;
    cbn [mbind option_bind] in H.
  - destruct (IH _ H) as (entry & ps' & Hin & Hps & Hnone).
    exists entry, ps'. split; [by right | done].
  - exists (gid, data), ps. split; [left | done].
Qed.

Lemma build_groups_empty_details (order : list string -> list string)
    (order_values : list value -> list value)
    (get_product_details : list string -> option (list product))
    (groups : list (string * group_data)) (acc : list DuplicateGroup) :
  (forall skus, get_product_details skus = Some []) ->
  groups <> [] ->
  build_groups order order_values get_product_details groups acc = None.
Proof.
  intros Hempty Hne. destruct groups as [|[gid data] groups]; [done|].
  cbn [build_groups]. by rewrite Hempty.
Qed.

(** X29. The groups that [detect_duplicate_products] returns when no query
    fails: one group for each group id of the rows of the pair query, no two
    with the same id; the confidence score of a group is the mean of the
    similarities of its rows, in their order; its products are the answer of the
    product query to a list of exactly the SKUs of its rows; and its
    recommendation is the one of these products. *)
Theorem duplicate_groups_follow_the_rows
    (order : list string -> list string)
    (order_values : list value -> list value)
    (results : list PairRow)
    (get_product_details : list string -> option (list product))
    (duplicate_groups : list DuplicateGroup) :
  (forall l x, x ∈ order l <-> x ∈ l) ->
  (forall skus, is_Some (get_product_details skus)) ->
  detect_duplicate_products order order_values (Some results)
    get_product_details = Some duplicate_groups ->
  NoDup (map group_id duplicate_groups)
  /\ (forall gid, gid ∈ map group_id duplicate_groups <->
        exists row, row ∈ results /\ row_group_id row = gid)
  /\ forall g, g ∈ duplicate_groups ->
       rows_of (group_id g) results <> []
       /\ confidence_score g
          = mean (map row_similarity (rows_of (group_id g) results))
       /\ (exists skus,
             get_product_details skus = Some (products g)
             /\ forall s, s ∈ skus <->
                  sku_of_rows (rows_of (group_id g) results) s)
       /\ _create_merge_recommendation order_values (products g)
          = Some (merge_recommendation g).
Proof.
  intros Horder Htotal H. unfold detect_duplicate_products in H.
  apply build_groups_app in H as (built & -> & Hbuilt); [|done].
  cbn [app] in *.
  set (groups := fold_left add_row results []) in *.
  destruct (collect_keys results []) as [Hnd Hkeys]; [constructor|].
  fold groups in Hnd, Hkeys.
  assert (Hids : map group_id built = keys groups).
  { clear -Hbuilt. induction Hbuilt as [|e g es gs Hg _ IH]; [done|].
    cbn [map]. change (keys (e :: es)) with (e.1 :: keys es).
    rewrite IH. by destruct Hg as [-> _]. }
  split; [by rewrite Hids|]. split.
  { intros gid. rewrite Hids, Hkeys. split.
    - by intros [?%elem_of_nil|?].
    - by right. }
  intros g Hg.
  apply list_elem_of_lookup_1 in Hg as [i Hi].
  destruct (Forall2_lookup_r _ _ _ _ _ Hbuilt Hi)
    as ([gid data] & He & Hid & Hdet & Hconf & Hrec).
  cbn [fst snd] in *.
  assert (Hget : dict_get groups gid = Some data).
  { apply dict_elem_get; [done|]. by eapply list_elem_of_lookup_2. }
  unfold groups in Hget. rewrite collect_get in Hget. cbn [dict_get] in Hget.
  rewrite Hid.
  destruct (rows_of gid results) as [|r rows] eqn:Erows; [done|].
  injection Hget as <-.
  destruct (add_to_group_fold (r :: rows) ([], [])) as [H2 H1].
  cbn [fst snd app fold_left] in H1, H2.
  split; [done|]. split; [by rewrite Hconf, H2|]. split; [|done].
  eexists. split; [exact Hdet|].
  intros s. rewrite Horder, H1. split; [|by right].
  by intros [?%elem_of_nil|?].
Qed.

Lemma duplicate_groups_follow_the_rows_witness :
  NoDup (map group_id pair_groups)
  /\ (forall gid, gid ∈ map group_id pair_groups <->
        exists row, row ∈ pair_rows /\ row_group_id row = gid)
  /\ forall g, g ∈ pair_groups ->
       rows_of (group_id g) pair_rows <> []
       /\ confidence_score g
          = mean (map row_similarity (rows_of (group_id g) pair_rows))
       /\ (exists skus,
             sku_only_details skus = Some (products g)
             /\ forall s, s ∈ skus <->
                  sku_of_rows (rows_of (group_id g) pair_rows) s)
       /\ _create_merge_recommendation first_seen (products g)
          = Some (merge_recommendation g).
Proof.
  apply (duplicate_groups_follow_the_rows remove_dups first_seen pair_rows
           sku_only_details pair_groups).
  - intros l x. apply elem_of_remove_dups.
  - intros skus. by eexists.
  - vm_compute. reflexivity.
Defined.

(** X30. How [detect_duplicate_products] fails. A failure of the pair query
    gives the empty list, and so does a product query that fails for every list
    of SKUs. An exception leaves the function only from a recommendation, for
    the products that the product query returned for a group of the rows. A
    product query that finds no product makes the function raise as soon as the
    pair query returns a row. *)
Theorem duplicate_detection_failures
    (order : list string -> list string)
    (order_values : list value -> list value)
    (results : list PairRow)
    (get_product_details : list string -> option (list product)) :
  detect_duplicate_products order order_values None get_product_details
  = Some []
  /\ ((forall skus, get_product_details skus = None) ->
      detect_duplicate_products order order_values (Some results)
        get_product_details = Some [])
  /\ (detect_duplicate_products order order_values (Some results)
        get_product_details = None ->
      exists gid skus ps,
        rows_of gid results <> []
        /\ get_product_details skus = Some ps
        /\ _create_merge_recommendation order_values ps = None)
  /\ ((forall skus, get_product_details skus = Some []) ->
      results <> [] ->
      detect_duplicate_products order order_values (Some results)
        get_product_details = None).
Proof.
  split; [done|]. unfold detect_duplicate_products.
  destruct (collect_keys results []) as [Hnd Hkeys]; [constructor|].
  set (groups := fold_left add_row results []) in *.
  split; [|split].
  - intros Hnone. destruct groups as [|[gid data] groups']; [done|].
    cbn [build_groups]. by rewrite Hnone.
  - intros (entry & ps & Hin & Hps & Hrec)%build_groups_raises.
    destruct entry as [gid data]. exists gid, (order data.1), ps.
    split; [|done].
    apply dict_elem_get in Hin; [|done].
    unfold groups in Hin. rewrite collect_get in Hin. cbn [dict_get] in Hin.
    by destruct (rows_of gid results).
  - intros Hempty Hne. apply build_groups_empty_details; [done|].
    destruct results as [|r results']; [done|].
    assert (Hin : row_group_id r ∈ keys groups).
    { apply Hkeys. right. exists r. split; [left | done]. }
    intros E. rewrite E in Hin. by apply elem_of_nil in Hin.
Qed.
